(** * go-minimal-proxy: host policy, metered transport and handshakes

    A shallow embedding of the two programs of the repository, as far as
    the properties below are about them:
    - [Tunnel]: [src/main.go], the CONNECT-only tunnel proxy whose blacklist
      is matched by prefix ([isBlocked]);
    - [Forward]: [src/src/main.go], the HTTP forwarder and SOCKS relay whose
      blacklist is matched exactly ([isBlacklisted]); of its handlers the
      SOCKS one is embedded.

    Go strings are byte strings and are modelled by [string]; [int] and
    [int64] are modelled by [Z], the wrap-around of [int64] written out.
    Definitions come first, the lemmas and the theorems about them after. *)

From Stdlib Require Import ZArith String Ascii List Lia Bool.
From Stdlib Require Import Permutation DecimalString.
From stdpp Require Import base gmap strings list.

Local Open Scope string_scope.
Local Open Scope Z_scope.

(** ** The part of Go's standard library the programs call *)

Module Go.

(** *** Errors *)

Inductive error : Type :=
| EOF                                  (* io.EOF *)
| ErrTooLong                           (* bufio.ErrTooLong *)
| ErrShortWrite                        (* io.ErrShortWrite *)
| ErrInvalidWrite                      (* io: Write returned impossible count *)
| ErrClosed                            (* use of closed network connection *)
| AddrError (why addr : string)        (* *net.AddrError *)
| OSError (msg : string).              (* anything the operating system reports *)

(** *** Strings: [len], indexing and slicing *)

Definition len (s : string) : Z := Z.of_nat (String.length s).

(** [s[i]]; the programs and the library only index in range, where this is
    the byte at [i] (out of range Go panics, the model yields byte 0). *)
Definition at_ (s : string) (i : Z) : ascii :=
  match String.get (Z.to_nat i) s with
  | Some c => c
  | None => Ascii.zero
  end.

(** [s[lo:hi]], for [0 <= lo <= hi <= len(s)]. *)
Definition slice (s : string) (lo hi : Z) : string :=
  String.substring (Z.to_nat lo) (Z.to_nat (hi - lo)) s.

(** [s[lo:]] *)
Definition slice_from (s : string) (lo : Z) : string := slice s lo (len s).

(** [strings.HasPrefix]:
    [return len(s) >= len(prefix) && s[:len(prefix)] == prefix]. *)
Definition HasPrefix (s prefix : string) : bool :=
  (len prefix <=? len s) && String.eqb (slice s 0 (len prefix)) prefix.

(** [strings.Contains(s, substr)]: [substr] occurs at some offset of [s]. *)
Fixpoint Contains (s substr : string) : bool :=
  HasPrefix s substr ||
  match s with
  | EmptyString => false
  | String _ rest => Contains rest substr
  end.

(** [bytealg.IndexByteString] and [bytealg.LastIndexByteString]: the first
    and the last index of byte [c] in [s], or [-1]. *)
Fixpoint IndexByteString_from (s : string) (c : ascii) (i : Z) : Z :=
  match s with
  | EmptyString => -1
  | String a rest =>
      if Ascii.eqb a c then i else IndexByteString_from rest c (i + 1)
  end.

Definition IndexByteString (s : string) (c : ascii) : Z :=
  IndexByteString_from s c 0.

Fixpoint LastIndexByteString_from (s : string) (c : ascii) (i last : Z) : Z :=
  match s with
  | EmptyString => last
  | String a rest =>
      LastIndexByteString_from rest c (i + 1) (if Ascii.eqb a c then i else last)
  end.

Definition LastIndexByteString (s : string) (c : ascii) : Z :=
  LastIndexByteString_from s c 0 (-1).

(** *** [net.SplitHostPort] *)

Definition missingPort : string := "missing port in address".
Definition tooManyColons : string := "too many colons in address".

Definition addrErr (addr why : string) : string * string * option error :=
  (EmptyString, EmptyString, Some (AddrError why addr)).

Definition SplitHostPort (hostport : string) : string * string * option error :=
  (* The port starts after the last colon. *)
  let i := LastIndexByteString hostport ":" in
  if i <? 0 then addrErr hostport missingPort else
  let bracketed :=
    if Ascii.eqb (at_ hostport 0) "[" then
      (* Expect the first ']' just before the last ':'. *)
      let end_ := IndexByteString hostport "]" in
      if end_ <? 0 then inl (addrErr hostport "missing ']' in address")
      else if end_ + 1 =? len hostport then inl (addrErr hostport missingPort)
      else if end_ + 1 =? i then inr (slice hostport 1 end_, 1, end_ + 1)
      else if Ascii.eqb (at_ hostport (end_ + 1)) ":"
           then inl (addrErr hostport tooManyColons)
           else inl (addrErr hostport missingPort)
    else
      let host := slice hostport 0 i in
      if 0 <=? IndexByteString host ":" then inl (addrErr hostport tooManyColons)
      else inr (host, 0, 0) in
  match bracketed with
  | inl e => e
  | inr (host, j, k) =>
      if 0 <=? IndexByteString (slice_from hostport j) "["
      then addrErr hostport "unexpected '[' in address"
      else if 0 <=? IndexByteString (slice_from hostport k) "]"
      then addrErr hostport "unexpected ']' in address"
      else (host, slice_from hostport (i + 1), None)
  end.

(** *** [unicode/utf8] and [unicode.IsSpace] *)

(** The numeric value of a byte. *)
Definition b2z (c : ascii) : Z := Z.of_N (N_of_ascii c).

Definition RuneError : Z := 0xFFFD.
Definition RuneSelf : Z := 0x80.
Definition UTFMax : Z := 4.

(** The table [first]: information about the first byte of an encoding
    ([0xF0] ASCII, [0xF1] invalid, otherwise accept-range index in the high
    nibble and size in the low one). *)
Definition first (b : Z) : Z :=
  if b <? 0x80 then 0xF0
  else if b <? 0xC2 then 0xF1
  else if b <? 0xE0 then 0x02
  else if b =? 0xE0 then 0x13
  else if b <? 0xED then 0x03
  else if b =? 0xED then 0x23
  else if b <? 0xF0 then 0x03
  else if b =? 0xF0 then 0x34
  else if b <? 0xF4 then 0x04
  else if b =? 0xF4 then 0x44
  else 0xF1.

(** The table [acceptRanges]: bounds of the second byte. *)
Definition acceptRanges (i : Z) : Z * Z :=
  if i =? 1 then (0xA0, 0xBF)
  else if i =? 2 then (0x80, 0x9F)
  else if i =? 3 then (0x90, 0xBF)
  else if i =? 4 then (0x80, 0x8F)
  else (0x80, 0xBF).

(** [utf8.DecodeRuneInString]: the first rune of [s] and its width. *)
Definition DecodeRuneInString (s : string) : Z * Z :=
  let n := len s in
  if n <? 1 then (RuneError, 0) else
  let s0 := b2z (at_ s 0) in
  let x := first s0 in
  if 0xF0 <=? x then ((if x =? 0xF1 then RuneError else s0), 1) else
  let sz := Z.land x 7 in
  let '(lo, hi) := acceptRanges (Z.shiftr x 4) in
  if n <? sz then (RuneError, 1) else
  let s1 := b2z (at_ s 1) in
  if (s1 <? lo) || (hi <? s1) then (RuneError, 1) else
  if sz <=? 2 then
    (Z.lor (Z.shiftl (Z.land s0 0x1F) 6) (Z.land s1 0x3F), 2) else
  let s2 := b2z (at_ s 2) in
  if (s2 <? 0x80) || (0xBF <? s2) then (RuneError, 1) else
  if sz <=? 3 then
    (Z.lor (Z.lor (Z.shiftl (Z.land s0 0x0F) 12) (Z.shiftl (Z.land s1 0x3F) 6))
           (Z.land s2 0x3F), 3) else
  let s3 := b2z (at_ s 3) in
  if (s3 <? 0x80) || (0xBF <? s3) then (RuneError, 1) else
  (Z.lor (Z.lor (Z.lor (Z.shiftl (Z.land s0 0x07) 18) (Z.shiftl (Z.land s1 0x3F) 12))
                (Z.shiftl (Z.land s2 0x3F) 6))
         (Z.land s3 0x3F), 4).

(** [utf8.RuneStart]: [b] is not a continuation byte. *)
Definition RuneStart (b : ascii) : bool :=
  negb (Z.land (b2z b) 0xC0 =? 0x80).

(** The backwards scan of [DecodeLastRuneInString]:
    [for start--; start >= lim; start-- { if RuneStart(s[start]) { break } }],
    entered with [start] already decremented; at most [UTFMax] rounds. *)
Fixpoint rune_start_back (rounds : nat) (s : string) (start lim : Z) : Z :=
  match rounds with
  | O => start
  | S k =>
      if start <? lim then start
      else if RuneStart (at_ s start) then start
      else rune_start_back k s (start - 1) lim
  end.

(** [utf8.DecodeLastRuneInString]: the last rune of [s] and its width. *)
Definition DecodeLastRuneInString (s : string) : Z * Z :=
  let end_ := len s in
  if end_ =? 0 then (RuneError, 0) else
  let start := end_ - 1 in
  let r := b2z (at_ s start) in
  if r <? RuneSelf then (r, 1) else
  let lim := Z.max (end_ - UTFMax) 0 in
  let start := rune_start_back 4 s (start - 1) lim in
  let start := Z.max start 0 in
  let '(r, size) := DecodeRuneInString (slice s start end_) in
  if negb (start + size =? end_) then (RuneError, 1) else (r, size).

(** [unicode.IsSpace]: the Latin-1 spaces and the other code points with
    the White_Space property. *)
Definition IsSpace (r : Z) : bool :=
  if (0 <=? r) && (r <=? 0xFF) then
    (r =? 9) || (r =? 10) || (r =? 11) || (r =? 12) || (r =? 13) ||
    (r =? 32) || (r =? 0x85) || (r =? 0xA0)
  else
    (r =? 0x1680) || ((0x2000 <=? r) && (r <=? 0x200A)) ||
    (r =? 0x2028) || (r =? 0x2029) || (r =? 0x202F) || (r =? 0x205F) ||
    (r =? 0x3000).

(** *** [strings.TrimSpace] *)

(** The table [asciiSpace]: tab, newline, vertical tab, form feed, carriage
    return and space. *)
Definition asciiSpace (c : ascii) : bool :=
  let b := b2z c in
  (b =? 9) || (b =? 10) || (b =? 11) || (b =? 12) || (b =? 13) || (b =? 32).

(** [indexFunc(s, f, truth)]: [for i, r := range s], the index of the first
    rune with [f(r) == truth], or [-1].  [skip] counts the bytes of the
    current rune still to pass over. *)
Fixpoint indexFunc_from (f : Z -> bool) (truth : bool)
    (s : string) (i : Z) (skip : nat) : Z :=
  match s with
  | EmptyString => -1
  | String _ rest =>
      match skip with
      | S k => indexFunc_from f truth rest (i + 1) k
      | O =>
          let '(r, size) := DecodeRuneInString s in
          if Bool.eqb (f r) truth then i
          else indexFunc_from f truth rest (i + 1) (Z.to_nat (size - 1))
      end
  end.

Definition indexFunc (s : string) (f : Z -> bool) (truth : bool) : Z :=
  indexFunc_from f truth s 0 O.

(** [lastIndexFunc(s, f, truth)]:
    [for i := len(s); i > 0; { r, size := DecodeLastRuneInString(s[0:i]);
    i -= size; if f(r) == truth { return i } }; return -1].  Every round
    lowers [i] by at least one, so [len(s)] rounds are enough. *)
Fixpoint lastIndexFunc_loop (rounds : nat) (f : Z -> bool) (truth : bool)
    (s : string) (i : Z) : Z :=
  match rounds with
  | O => -1
  | S k =>
      if i <=? 0 then -1 else
      let '(r, size) := DecodeLastRuneInString (slice s 0 i) in
      let i := i - size in
      if Bool.eqb (f r) truth then i else lastIndexFunc_loop k f truth s i
  end.

Definition lastIndexFunc (s : string) (f : Z -> bool) (truth : bool) : Z :=
  lastIndexFunc_loop (String.length s) f truth s (len s).

Definition TrimLeftFunc (s : string) (f : Z -> bool) : string :=
  let i := indexFunc s f false in
  if i =? -1 then EmptyString else slice_from s i.

Definition TrimRightFunc (s : string) (f : Z -> bool) : string :=
  let i := lastIndexFunc s f false in
  let i :=
    if (0 <=? i) && (RuneSelf <=? b2z (at_ s i))
    then i + snd (DecodeRuneInString (slice_from s i))
    else i + 1 in
  slice s 0 i.

Definition TrimFunc (s : string) (f : Z -> bool) : string :=
  TrimRightFunc (TrimLeftFunc s f) f.

(** The first loop of [TrimSpace]: the index [start] of the first byte that
    is not an ASCII space, or [inl] of the fallback result when a non-ASCII
    byte is met first. *)
Fixpoint trim_start (whole s : string) (start : Z) : string + Z :=
  match s with
  | EmptyString => inr start
  | String c rest =>
      if RuneSelf <=? b2z c then inl (TrimFunc (slice_from whole start) IsSpace)
      else if asciiSpace c then trim_start whole rest (start + 1)
      else inr start
  end.

(** The second loop: [stop] walks down from [len(s)] to [start]. *)
Fixpoint trim_stop (rounds : nat) (s : string) (start stop : Z) : string :=
  match rounds with
  | O => slice s start stop
  | S k =>
      if stop <=? start then slice s start stop else
      let c := at_ s (stop - 1) in
      if RuneSelf <=? b2z c then TrimRightFunc (slice s start stop) IsSpace
      else if asciiSpace c then trim_stop k s start (stop - 1)
      else slice s start stop
  end.

Definition TrimSpace (s : string) : string :=
  match trim_start s s 0 with
  | inl t => t
  | inr start => trim_stop (String.length s) s start (len s)
  end.

(** *** [os.Open] and [bufio.Scanner] with the default [ScanLines] *)

(** What [os.Open] finds under a name: no readable file, or a file that
    yields [data] and then end of file or the read error [rerr]. *)
Inductive file : Type :=
| OpenError (e : error)
| Opened (data : string) (rerr : option error).

Definition MaxScanTokenSize : Z := 64 * 1024.

(** [dropCR]: a trailing carriage return is dropped from the line. *)
Fixpoint dropCR (data : string) : string :=
  match data with
  | EmptyString => EmptyString
  | String c EmptyString =>
      if Ascii.eqb c "013" then EmptyString else data
  | String c rest => String c (dropCR rest)
  end.

(** The tokens [scanner.Scan()] delivers over [data], in order, and the
    final [scanner.Err()].  [line] holds the bytes of the current line met
    so far.  A line is delivered at its newline, or at the end of the data
    when it is not empty; a line that fills the buffer of
    [MaxScanTokenSize] bytes before its end is seen stops the scan with
    [ErrTooLong]. *)
Fixpoint scan_from (data line : string) (rerr : option error)
    : list string * option error :=
  match data with
  | EmptyString =>
      if String.eqb line EmptyString then ([], rerr)
      else if MaxScanTokenSize <=? len line then ([], Some ErrTooLong)
      else ([dropCR line], rerr)
  | String c rest =>
      if Ascii.eqb c "010" then
        if MaxScanTokenSize <=? len line then ([], Some ErrTooLong)
        else
          let '(tokens, err) := scan_from rest EmptyString rerr in
          (dropCR line :: tokens, err)
      else scan_from rest (line ++ String c EmptyString) rerr
  end.

(** [scanner.Err()] reports no error for [io.EOF]. *)
Definition Scanner_Err (err : option error) : option error :=
  match err with
  | Some EOF => None
  | _ => err
  end.

Definition Scan (data : string) (rerr : option error)
    : list string * option error :=
  let '(tokens, err) := scan_from data EmptyString rerr in
  (tokens, Scanner_Err err).

(** *** [net.IP] *)

(** An [IP] is a byte slice; [nil] is [None] where it matters. *)
Abbreviation IP := (list Byte.byte).

Definition IPv4len : nat := 4.
Definition IPv6len : nat := 16.

Definition byte_val (b : Byte.byte) : Z := Z.of_N (Byte.to_N b).

Definition isZeros (p : IP) : bool := forallb (fun b => byte_val b =? 0) p.

Definition ip_at (ip : IP) (i : nat) : Z := byte_val (nth i ip Byte.x00).

Definition bytes_eqb (a b : IP) : bool :=
  bool_decide (List.map byte_val a = List.map byte_val b).

(** [ip.To4()]: the 4-byte form of an IPv4 address, also when it is held
    in IPv4-mapped 16-byte form; [nil] otherwise. *)
Definition To4 (ip : IP) : option IP :=
  if (length ip =? IPv4len)%nat then Some ip
  else if (length ip =? IPv6len)%nat && isZeros (firstn 10 ip) &&
          (ip_at ip 10 =? 0xff) && (ip_at ip 11 =? 0xff)
       then Some (firstn 4 (skipn 12 ip))
       else None.

Definition v4InV6Prefix : IP :=
  [Byte.x00; Byte.x00; Byte.x00; Byte.x00; Byte.x00; Byte.x00;
   Byte.x00; Byte.x00; Byte.x00; Byte.x00; Byte.xff; Byte.xff].

Definition IPv6loopback : IP :=
  [Byte.x00; Byte.x00; Byte.x00; Byte.x00; Byte.x00; Byte.x00; Byte.x00; Byte.x00;
   Byte.x00; Byte.x00; Byte.x00; Byte.x00; Byte.x00; Byte.x00; Byte.x00; Byte.x01].

(** [ip.Equal(x)]: equal as addresses, an IPv4 address and its 16-byte
    form counting as the same. *)
Definition IP_Equal (ip x : IP) : bool :=
  if (length ip =? length x)%nat then bytes_eqb ip x
  else if (length ip =? IPv4len)%nat && (length x =? IPv6len)%nat
       then bytes_eqb (firstn 12 x) v4InV6Prefix && bytes_eqb ip (skipn 12 x)
  else if (length ip =? IPv6len)%nat && (length x =? IPv4len)%nat
       then bytes_eqb (firstn 12 ip) v4InV6Prefix && bytes_eqb (skipn 12 ip) x
  else false.

(** [ip.IsLoopback()] *)
Definition IsLoopback (ip : IP) : bool :=
  match To4 ip with
  | Some ip4 => ip_at ip4 0 =? 127
  | None => IP_Equal ip IPv6loopback
  end.

(** Decimal text of a byte, no leading zeros. *)
Definition ubtoa (v : Z) : string := NilZero.string_of_uint (N.to_uint (Z.to_N v)).

(** The dotted-quad text of the four bytes of an IPv4 address. *)
Definition dotted_quad (a b c d : Z) : string :=
  ubtoa a ++ "." ++ ubtoa b ++ "." ++ ubtoa c ++ "." ++ ubtoa d.

Definition hexdigit (v : Z) : string :=
  String.substring (Z.to_nat v) 1 "0123456789abcdef".

(** [appendHex]: lower-case hexadecimal of a 16-bit field, no leading zeros. *)
Definition appendHex (x : Z) : string :=
  (if 0x1000 <=? x then hexdigit (Z.shiftr x 12) else EmptyString) ++
  (if 0x100 <=? x then hexdigit (Z.land (Z.shiftr x 8) 0xf) else EmptyString) ++
  (if 0x10 <=? x then hexdigit (Z.land (Z.shiftr x 4) 0xf) else EmptyString) ++
  hexdigit (Z.land x 0xf).

(** [hexString]: two hexadecimal digits per byte. *)
Definition hexString (b : IP) : string :=
  String.concat EmptyString
    (List.map (fun v => hexdigit (Z.shiftr (byte_val v) 4) ++
                        hexdigit (Z.land (byte_val v) 0xf)) b).

(** [v6u16(i)]: the [i]th 16-bit field of a 16-byte address. *)
Definition v6u16 (ip : IP) (i : Z) : Z :=
  Z.lor (Z.shiftl (ip_at ip (Z.to_nat (2 * i))) 8) (ip_at ip (Z.to_nat (2 * i + 1))).

(** The inner loop [for j < 8 && ip.v6u16(j) == 0 { j++ }]. *)
Fixpoint zero_run_end (rounds : nat) (ip : IP) (j : Z) : Z :=
  match rounds with
  | O => j
  | S k => if (j <? 8) && (v6u16 ip j =? 0) then zero_run_end k ip (j + 1) else j
  end.

(** The first loop of [appendTo6]: the longest run of two or more zero
    fields, the first such when several are as long. *)
Fixpoint zero_run (rounds : nat) (ip : IP) (i zeroStart zeroEnd : Z) : Z * Z :=
  match rounds with
  | O => (zeroStart, zeroEnd)
  | S k =>
      let j := zero_run_end 8 ip i in
      let l := j - i in
      if (2 <=? l) && (zeroEnd - zeroStart <? l)
      then zero_run k ip (i + 1) i j
      else zero_run k ip (i + 1) zeroStart zeroEnd
  end.

(** The second loop of [appendTo6]. *)
Fixpoint emit6 (rounds : nat) (ip : IP) (i zeroStart zeroEnd : Z) : string :=
  match rounds with
  | O => EmptyString
  | S k =>
      if 8 <=? i then EmptyString
      else if i =? zeroStart then
        "::" ++ (if 8 <=? zeroEnd then EmptyString
                 else appendHex (v6u16 ip zeroEnd) ++
                      emit6 k ip (zeroEnd + 1) zeroStart zeroEnd)
      else (if 0 <? i then ":" else EmptyString) ++
           appendHex (v6u16 ip i) ++ emit6 k ip (i + 1) zeroStart zeroEnd
  end.

Definition string6 (ip : IP) : string :=
  let '(zeroStart, zeroEnd) := zero_run 8 ip 0 255 255 in
  emit6 8 ip 0 zeroStart zeroEnd.

(** [ip.String()] *)
Definition IP_String (ip : IP) : string :=
  if (length ip =? 0)%nat then "<nil>"
  else if negb (length ip =? IPv4len)%nat && negb (length ip =? IPv6len)%nat
       then "?" ++ hexString ip
  else match To4 ip with
       | Some p4 => dotted_quad (ip_at p4 0) (ip_at p4 1) (ip_at p4 2) (ip_at p4 3)
       | None => string6 ip
       end.

(** *** [int64] and [sync/atomic] *)

Definition MinInt64 : Z := - 2 ^ 63.
Definition MaxInt64 : Z := 2 ^ 63 - 1.

(** The conversion [int64(n)]: the value reduced into the signed 64-bit
    range (the identity on every [int] of a 64-bit or 32-bit platform). *)
Definition int64 (n : Z) : Z := (n + 2 ^ 63) mod 2 ^ 64 - 2 ^ 63.

(** [atomic.AddInt64(&addr, delta)]: the new value, wrapped to 64 bits. *)
Definition AddInt64 (addr delta : Z) : Z := int64 (addr + delta).

(** *** [io.Reader], [io.Writer] and [net.Conn]

    The methods are state transformers over a world [W] that holds what
    the streams share (sockets are referred to, not copied).  [Read] is
    given the length of the buffer [p] and yields the count [n], the error
    and the bytes it placed in [p[0:n]]; [Write] is given the bytes. *)

Definition result : Type := Z * option error.

Class Reader (W R : Type) : Type :=
  Read : R -> Z -> W -> result * string * W.

Class Writer (W R : Type) : Type :=
  Write : R -> string -> W -> result * W.

(** *** What a handler does to the outside: a trace of events *)

(** An argument of [log.Printf]. *)
Inductive value : Type :=
| VStr (s : string)
| VInt (n : Z)
| VErr (e : error).

(** An accepted or dialed connection: its descriptor and the text of
    [RemoteAddr().String()]. *)
Record conn : Type := mkConn { fd : nat; RemoteAddr : string }.

Inductive event : Type :=
| Log (format : string) (args : list value)        (* log.Printf *)
| ConnWrite (c : conn) (b : string)                (* c.Write(b) *)
| ConnClose (c : conn)                             (* c.Close() *)
| NetDial (network address : string)               (* net.Dial *)
| Socks5Dial (proxyAddr network address : string)  (* proxy.SOCKS5(..).Dial *)
| GoHandle (c : conn) (targetAddr : string).       (* go handleSOCKS(c, targetAddr) *)

(** A computation that emits events and yields a value. *)
Definition M (A : Type) : Type := list event * A.

Definition ret {A : Type} (a : A) : M A := ([], a).

Definition bind {A B : Type} (c : M A) (k : A -> M B) : M B :=
  let '(t1, a) := c in
  let '(t2, b) := k a in
  ((t1 ++ t2)%list, b).

Definition emit (e : event) : M unit := ([e], tt).

(** *** [io.Copy], one call of [Read] or [Write] at a time *)

Inductive copy_pc : Type :=
| AtRead                                       (* about to call src.Read(buf) *)
| AtWrite (chunk : string) (er : option error) (* about to call dst.Write(buf[0:nr]) *)
| CopyDone (err : option error).               (* io.Copy has returned err *)

Definition copyBufSize : Z := 32 * 1024.

Definition copy_done (pc : copy_pc) : bool :=
  match pc with
  | CopyDone _ => true
  | _ => false
  end.

(** What [io.Copy] reports for the read error that ended it: nothing for
    [io.EOF]. *)
Definition copy_read_err (er : option error) : option error :=
  match er with
  | Some EOF => None
  | _ => er
  end.

Section Copy.
Context {S : Type}.
(** [src.Read] and [dst.Write] as they act on the whole state. *)
Variable read : Z -> S -> result * string * S.
Variable write : string -> S -> result * S.

(** One step of the loop
    [for { nr, er := src.Read(buf);
           if nr > 0 { nw, ew := dst.Write(buf[0:nr]);
             if nw < 0 || nr < nw { nw = 0; if ew == nil { ew = errInvalidWrite } };
             if ew != nil { break }; if nr != nw { break } };
           if er != nil { break } }]. *)
Definition copy_step (pc : copy_pc) (st : S) : copy_pc * S :=
  match pc with
  | AtRead =>
      let '((nr, er), buf, st') := read copyBufSize st in
      if 0 <? nr then (AtWrite (slice buf 0 nr) er, st')
      else match er with
           | Some _ => (CopyDone (copy_read_err er), st')
           | None => (AtRead, st')
           end
  | AtWrite chunk er =>
      let '((nw, ew), st') := write chunk st in
      let ew :=
        if (nw <? 0) || (len chunk <? nw)
        then Some (default ErrInvalidWrite ew) else ew in
      match ew with
      | Some _ => (CopyDone ew, st')
      | None =>
          if negb (len chunk =? nw) then (CopyDone (Some ErrShortWrite), st')
          else match er with
               | Some _ => (CopyDone (copy_read_err er), st')
               | None => (AtRead, st')
               end
      end
  | CopyDone err => (CopyDone err, st)
  end.
End Copy.

(** *** Sockets of one proxied connection

    The proxy holds two sockets: the one accepted from the client and the
    one dialed to the target.  A socket has the bytes that arrived and are
    not yet read, what a read reports once they are drained ([None]: the
    peer closed, [io.EOF]), the bytes written to it so far, and whether the
    proxy closed it. *)

Inductive sock : Type := ClientSock | TargetSock.

Record socket : Type := mkSocket {
  inbox : string;
  in_err : option error;
  outbox : string;
  closed : bool
}.

Record net_state : Type := mkNet { client_sock : socket; target_sock : socket }.

Definition get_sock (w : net_state) (r : sock) : socket :=
  match r with
  | ClientSock => client_sock w
  | TargetSock => target_sock w
  end.

Definition set_sock (w : net_state) (r : sock) (s : socket) : net_state :=
  match r with
  | ClientSock => mkNet s (target_sock w)
  | TargetSock => mkNet (client_sock w) s
  end.

(** [Read] on a socket: at most [len(p)] of the bytes that arrived. *)
#[global] Instance sock_Reader : Reader net_state sock := fun r lenp w =>
  let s := get_sock w r in
  if closed s then ((0, Some ErrClosed), EmptyString, w)
  else if len (inbox s) =? 0 then
    ((0, Some (default EOF (in_err s))), EmptyString, w)
  else
    let n := Z.min lenp (len (inbox s)) in
    ((n, None), slice (inbox s) 0 n,
     set_sock w r (mkSocket (slice_from (inbox s) n) (in_err s) (outbox s) (closed s))).

(** [Write] on a socket: all of [b] unless the socket is closed. *)
#[global] Instance sock_Writer : Writer net_state sock := fun r b w =>
  let s := get_sock w r in
  if closed s then ((0, Some ErrClosed), w)
  else ((len b, None),
        set_sock w r (mkSocket (inbox s) (in_err s) (outbox s ++ b) (closed s))).

Definition sock_Close (r : sock) (w : net_state) : net_state :=
  let s := get_sock w r in
  set_sock w r (mkSocket (inbox s) (in_err s) (outbox s) true).

(** A connection the peer resets after taking [room] more bytes: a [Write]
    that does not fit reports the bytes it took together with an error, and
    a [Read] that drains what is left reports it together with [io.EOF]
    (both allowed by [io.Writer] and [io.Reader]).  The world is the number
    of bytes still accepted and the bytes still to be read. *)
Inductive resetConn : Type := ResetConn.

#[global] Instance resetConn_Writer : Writer (Z * string) resetConn :=
  fun _ b '(room, pending) =>
    let n := Z.max 0 (Z.min (len b) room) in
    ((n, if n <? len b then Some (OSError "connection reset by peer") else None),
     (room - n, pending)).

#[global] Instance resetConn_Reader : Reader (Z * string) resetConn :=
  fun _ lenp '(room, pending) =>
    let n := Z.max 0 (Z.min lenp (len pending)) in
    ((n, if n =? len pending then Some EOF else None),
     slice pending 0 n, (room, slice_from pending n)).

(** The two threads of a relay: the handler and the goroutine it starts
    with [go io.Copy(..)]. *)
Inductive thread : Type := Handler | Goroutine.

End Go.

Declare Scope go_scope.
Delimit Scope go_scope with go.
Notation "x <- c ;; k" := (Go.bind c (fun x => k))
  (at level 100, c at next level, right associativity) : go_scope.
Notation "c ;; k" := (Go.bind c (fun _ => k))
  (at level 100, right associativity) : go_scope.

(** Carriage return and line feed, and the fixed response to a blocked
    target, [HTTP/1.1 418 I'm a teapot\r\n\r\n]. *)
Definition LF : string := String "010" EmptyString.

Definition CRLF : string := String "013" LF.

Definition teapot : string := "HTTP/1.1 418 I'm a teapot" ++ CRLF ++ CRLF.

(** ** [src/main.go]: the CONNECT tunnel proxy *)

Module Tunnel.
Import Go.
Local Open Scope go_scope.

(** [countingConn] wraps a [net.Conn] and counts the number of bytes
    written and read. *)
Record countingConn (C : Type) : Type := mkCountingConn {
  Conn : C;
  bytesWritten : Z;
  bytesRead : Z
}.
Arguments mkCountingConn {C} _ _ _.
Arguments Conn {C} _.
Arguments bytesWritten {C} _.
Arguments bytesRead {C} _.

Section CountingConn.
Context {W C : Type} `{!Reader W C} `{!Writer W C}.

(** [n, err := c.Conn.Write(b);
     atomic.AddInt64(&c.bytesWritten, int64(n)); return n, err] *)
Definition countingConn_Write (c : countingConn C) (b : string) (w : W)
    : result * countingConn C * W :=
  let '((n, err), w') := Write (Conn c) b w in
  ((n, err),
   mkCountingConn (Conn c) (AddInt64 (bytesWritten c) (int64 n)) (bytesRead c),
   w').

(** [n, err := c.Conn.Read(b);
     atomic.AddInt64(&c.bytesRead, int64(n)); return n, err] *)
Definition countingConn_Read (c : countingConn C) (lenb : Z) (w : W)
    : result * string * countingConn C * W :=
  let '((n, err), buf, w') := Read (Conn c) lenb w in
  ((n, err), buf,
   mkCountingConn (Conn c) (bytesWritten c) (AddInt64 (bytesRead c) (int64 n)),
   w').
End CountingConn.

(** [var blacklist map[string]bool] is passed explicitly.
    [loadBlacklist] replaces it by a map with one key, set to [true], per
    scanned line, the key being the trimmed line; when the file cannot be
    opened the map is left as it was. *)
Definition loadBlacklist (fs : string -> file) (filename : string)
    (blacklist : gmap string bool) : gmap string bool * option error :=
  match fs filename with
  | OpenError err => (blacklist, Some err)
  | Opened data rerr =>
      let '(lines, err) := Scan data rerr in
      (foldl (fun bl text => <[TrimSpace text := true]> bl) ∅ lines, err)
  end.

(** [for blockedURL := range blacklist { if strings.HasPrefix(host,
    blockedURL) { return true } }; return false], over the keys in the
    order the iteration happens to visit them. *)
Fixpoint isBlocked_range (keys : list string) (host : string) : bool :=
  match keys with
  | [] => false
  | blockedURL :: rest =>
      if HasPrefix host blockedURL then true else isBlocked_range rest host
  end.

Definition isBlocked (blacklist : gmap string bool) (host : string) : bool :=
  isBlocked_range (map_to_list blacklist).*1 host.

(** The result of [http.ReadRequest], as far as the handler looks at it. *)
Record Request : Type := mkRequest { Method : string; URL_Host : string }.

(** What lies outside the process: the request the client sends and the
    answer of [net.Dial]. *)
Record env : Type := mkEnv {
  ReadRequest : conn -> Request + error;
  Dial : string -> string -> conn + error
}.

(** How [handleClientConnection] leaves its handshake: it has returned, or
    it goes on to relay between the client and [server]. *)
Inductive outcome : Type :=
| Returned
| Relaying (server : conn).

Section Handlers.
(** [net.ParseIP]: the 16-byte form of the address a text denotes, or
    [nil]. *)
Variable ParseIP : string -> option IP.
Variable blacklist : gmap string bool.
Variable world : env.

Definition extractIPv4FromRemoteAddr (remoteAddr : string) : M string :=
  let '(host, _, err) := SplitHostPort remoteAddr in
  emit (Log "remoteAddr: %s, host: %s" [VStr remoteAddr; VStr host]) ;;
  match err with
  | Some _ => ret remoteAddr (* if error, return original remoteAddr *)
  | None =>
      match ParseIP host with
      | None => ret remoteAddr
      | Some ip =>
          (* if it is an IPv4 address *)
          if bool_decide (To4 ip <> None) then ret (IP_String ip)
          (* if it is an IPv4-mapped IPv6 address *)
          else if IsLoopback ip && HasPrefix (IP_String ip) "::ffff:"
          then ret (slice_from (IP_String ip) 7)
          else ret remoteAddr
      end
  end.

(** [handleClientConnection] up to the response that opens the tunnel
    (lines 88 to 136); [defer client.Close()] runs on every return. *)
Definition handshake (client : conn) : M outcome :=
  (* extract IPv4 from remoteAddr *)
  remoteAddr <- extractIPv4FromRemoteAddr (RemoteAddr client) ;;
  emit (Log "[Client %s] Received connection" [VStr remoteAddr]) ;;
  (* read request *)
  match ReadRequest world client with
  | inr err =>
      emit (Log "[Client %s] Error reading request: %v"
                [VStr remoteAddr; VErr err]) ;;
      ret Returned
  | inl req =>
      (* only support CONNECT *)
      if negb (String.eqb (Method req) "CONNECT") then
        emit (Log "[Client %s]Invalid request method: %s"
                  [VStr remoteAddr; VStr (Method req)]) ;;
        ret Returned
      else
      (* parse target host and port *)
      let hostPort := URL_Host req in
      emit (Log "[Client %s] Target host: %s" [VStr remoteAddr; VStr hostPort]) ;;
      if isBlocked blacklist hostPort then
        emit (Log "[Client: %s] Blocked host: %s"
                  [VStr remoteAddr; VStr hostPort]) ;;
        (* send teapot response *)
        emit (ConnWrite client teapot) ;;
        ret Returned
      else
      let hostPort :=
        if negb (Contains hostPort ":") then hostPort ++ ":443" (* https as default *)
        else hostPort in
      (* connect to server *)
      emit (NetDial "tcp" hostPort) ;;
      match Dial world "tcp" hostPort with
      | inr err =>
          emit (Log "[Client %s] Error connecting to %v: %v"
                    [VStr remoteAddr; VStr hostPort; VErr err]) ;;
          ret Returned
      | inl server =>
          emit (ConnWrite client
                  ("HTTP/1.1 200 Connection Established" ++ CRLF ++
                   "Proxy-agent: go-tunnel-proxy" ++ CRLF ++
                   "Connection: close" ++ CRLF ++ CRLF)) ;;
          ret (Relaying server)
      end
  end.

Definition handleClientConnection (client : conn) : M outcome :=
  o <- handshake client ;;
  match o with
  | Returned => emit (ConnClose client) ;; ret Returned
  | Relaying server => ret (Relaying server)
  end.
End Handlers.

(** *** The relay of [handleClientConnection] (lines 130 to 147)

    [clientCounting] and [serverCounting] are created, the goroutine runs
    [io.Copy(server, client)], the handler runs [io.Copy(client, server)],
    logs the two counters and returns through the deferred [server.Close()]
    and [client.Close()]. *)

Inductive handler_pc : Type :=
| HCopy (pc : copy_pc)   (* in io.Copy(client, server) *)
| HLog                   (* about to log the totals *)
| HCloseServer           (* deferred server.Close() *)
| HCloseClient           (* deferred client.Close() *)
| HReturned.

Record relay_state : Type := mkRelay {
  net : net_state;
  clientCounting : countingConn sock;
  serverCounting : countingConn sock;
  go_pc : copy_pc;
  h_pc : handler_pc;
  trace : list event
}.

Definition relay_init (w : net_state) : relay_state :=
  mkRelay w (mkCountingConn ClientSock 0 0) (mkCountingConn TargetSock 0 0)
          AtRead (HCopy AtRead) [].

Section Relay.
Variables (remoteAddr : string) (client server : conn).

Definition step (t : thread) (s : relay_state) : option relay_state :=
  match t with
  | Goroutine =>
      (* go io.Copy(server, client) *)
      if copy_done (go_pc s) then None else
      let '(pc, w) := copy_step (Read ClientSock) (Write TargetSock)
                                (go_pc s) (net s) in
      Some (mkRelay w (clientCounting s) (serverCounting s) pc (h_pc s) (trace s))
  | Handler =>
      match h_pc s with
      | HCopy pc =>
          (* io.Copy(client, server) *)
          let '(pc, w) := copy_step (Read TargetSock) (Write ClientSock)
                                    pc (net s) in
          Some (mkRelay w (clientCounting s) (serverCounting s) (go_pc s)
                        (if copy_done pc then HLog else HCopy pc) (trace s))
      | HLog =>
          Some (mkRelay (net s) (clientCounting s) (serverCounting s) (go_pc s)
                  HCloseServer
                  (trace s ++
                   [Log "[Client %s] Data transferred: sent %d bytes, received %d bytes"
                        [VStr remoteAddr;
                         VInt (bytesWritten (clientCounting s));
                         VInt (bytesRead (serverCounting s))]])%list)
      | HCloseServer =>
          Some (mkRelay (sock_Close TargetSock (net s)) (clientCounting s)
                  (serverCounting s) (go_pc s) HCloseClient
                  (trace s ++ [ConnClose server])%list)
      | HCloseClient =>
          Some (mkRelay (sock_Close ClientSock (net s)) (clientCounting s)
                  (serverCounting s) (go_pc s) HReturned
                  (trace s ++ [ConnClose client])%list)
      | HReturned => None
      end
  end.

(** The state after the threads took steps in the order [sched]; a
    thread that has finished does not move. *)
Fixpoint run (sched : list thread) (s : relay_state) : relay_state :=
  match sched with
  | [] => s
  | t :: rest => run rest (default s (step t s))
  end.
End Relay.

End Tunnel.

(** ** [src/src/main.go]: the HTTP forwarder and SOCKS relay *)

Module Forward.
Import Go.
Local Open Scope go_scope.

(** [countingWriter] and [countingReader] record the number of bytes
    written and read. *)
Record countingWriter (Wr : Type) : Type := mkCountingWriter {
  writer : Wr;
  bytesWritten : Z
}.
Arguments mkCountingWriter {Wr} _ _.
Arguments writer {Wr} _.
Arguments bytesWritten {Wr} _.

Record countingReader (R : Type) : Type := mkCountingReader {
  reader : R;
  bytesRead : Z
}.
Arguments mkCountingReader {R} _ _.
Arguments reader {R} _.
Arguments bytesRead {R} _.

Section Counting.
Context {W : Type}.

(** [n, err := c.writer.Write(p);
     atomic.AddInt64(&c.bytesWritten, int64(n)); return n, err] *)
Definition countingWriter_Write {Wr : Type} `{!Writer W Wr}
    (c : countingWriter Wr) (p : string) (w : W)
    : result * countingWriter Wr * W :=
  let '((n, err), w') := Write (writer c) p w in
  ((n, err), mkCountingWriter (writer c) (AddInt64 (bytesWritten c) (int64 n)), w').

(** [n, err := c.reader.Read(p);
     atomic.AddInt64(&c.bytesRead, int64(n)); return n, err] *)
Definition countingReader_Read {R : Type} `{!Reader W R}
    (c : countingReader R) (lenp : Z) (w : W)
    : result * string * countingReader R * W :=
  let '((n, err), buf, w') := Read (reader c) lenp w in
  ((n, err), buf, mkCountingReader (reader c) (AddInt64 (bytesRead c) (int64 n)), w').
End Counting.

(** [var blacklist map[string]struct{}] is passed explicitly.
    [loadBlacklist] replaces it by a map whose keys are the trimmed lines
    of [blacklist.txt] that are not empty. *)
Definition loadBlacklist (fs : string -> file) (blacklist : gmap string unit)
    : gmap string unit * option error :=
  match fs "blacklist.txt" with
  | OpenError err => (blacklist, Some err)
  | Opened data rerr =>
      let '(lines, err) := Scan data rerr in
      (foldl (fun bl text =>
                let line := TrimSpace text in
                if negb (String.eqb line EmptyString) then <[line := tt]> bl else bl)
             ∅ lines,
       err)
  end.

(** [_, blacklisted := blacklist[address]; return blacklisted] *)
Definition isBlacklisted (blacklist : gmap string unit) (address : string) : bool :=
  match blacklist !! address with
  | Some _ => true
  | None => false
  end.

(** What lies outside the process: whether [proxy.SOCKS5] yields a dialer
    and what its [Dial] answers. *)
Record env : Type := mkEnv {
  SOCKS5 : string -> string -> option error;
  DialVia : string -> string -> string -> conn + error
}.

Inductive outcome : Type :=
| Returned
| Relaying (targetConn : conn).

Section Handlers.
Variable blacklist : gmap string unit.
Variable world : env.

(** [handleSOCKS] up to the successful dial (lines 102 to 128); what
    follows it is the relay below. *)
Definition handleSOCKS (conn : conn) (targetAddr : string) : M outcome :=
  (* log request *)
  emit (Log "[SOCKS] [Client %s] target: %s"
            [VStr (RemoteAddr conn); VStr targetAddr]) ;;
  let '(host, _, err) := SplitHostPort targetAddr in
  match err with
  | Some err =>
      emit (Log "[SOCKS] [Client %s] Failed to parse target address: %s"
                [VStr (RemoteAddr conn); VErr err]) ;;
      ret Returned
  | None =>
      if isBlacklisted blacklist host then
        emit (ConnWrite conn teapot) ;;
        emit (ConnClose conn) ;;
        ret Returned
      else
      match SOCKS5 world "tcp" "127.0.0.1:1080" with
      | Some err =>
          emit (Log "[SOCKS] [Client %s] Failed to create SOCKS5 dialer: %s"
                    [VStr (RemoteAddr conn); VErr err]) ;;
          ret Returned
      | None =>
          emit (Socks5Dial "127.0.0.1:1080" "tcp" targetAddr) ;;
          match DialVia world "127.0.0.1:1080" "tcp" targetAddr with
          | inr err =>
              emit (Log "[SOCKS] [Client %s] Failed to connect to target: %s"
                        [VStr (RemoteAddr conn); VErr err]) ;;
              ret Returned
          | inl targetConn => ret (Relaying targetConn)
          end
      end
  end.
End Handlers.


(** *** The relay of [handleSOCKS] (lines 130 to 137)

    [cr] counts what is read from the client, [cw] what is written to the
    target; the goroutine runs [io.Copy(cw, cr)], the handler runs
    [io.Copy(conn, targetConn)], logs the two counters and returns through
    the deferred [targetConn.Close()]. *)

Inductive handler_pc : Type :=
| HCopy (pc : copy_pc)   (* in io.Copy(conn, targetConn) *)
| HLog                   (* about to log the totals *)
| HCloseTarget           (* deferred targetConn.Close() *)
| HReturned.

Record relay_state : Type := mkRelay {
  net : net_state;
  cr : countingReader sock;
  cw : countingWriter sock;
  go_pc : copy_pc;
  h_pc : handler_pc;
  trace : list event
}.

Definition relay_init (w : net_state) : relay_state :=
  mkRelay w (mkCountingReader ClientSock 0) (mkCountingWriter TargetSock 0)
          AtRead (HCopy AtRead) [].

(** [cr.Read] and [cw.Write] as they act on the shared state. *)
Definition cr_Read (lenp : Z) (s : relay_state) : result * string * relay_state :=
  let '(res, buf, c, w) := countingReader_Read (cr s) lenp (net s) in
  (res, buf, mkRelay w c (cw s) (go_pc s) (h_pc s) (trace s)).

Definition cw_Write (p : string) (s : relay_state) : result * relay_state :=
  let '(res, c, w) := countingWriter_Write (cw s) p (net s) in
  (res, mkRelay w (cr s) c (go_pc s) (h_pc s) (trace s)).

Definition set_go_pc (pc : copy_pc) (s : relay_state) : relay_state :=
  mkRelay (net s) (cr s) (cw s) pc (h_pc s) (trace s).

Section Relay.
Variables (targetAddr : string) (targetConn : conn).

Definition step (t : thread) (s : relay_state) : option relay_state :=
  match t with
  | Goroutine =>
      (* go io.Copy(cw, cr) *)
      if copy_done (go_pc s) then None else
      let '(pc, s') := copy_step cr_Read cw_Write (go_pc s) s in
      Some (set_go_pc pc s')
  | Handler =>
      match h_pc s with
      | HCopy pc =>
          (* io.Copy(conn, targetConn) *)
          let '(pc, w) := copy_step (Read TargetSock) (Write ClientSock)
                                    pc (net s) in
          Some (mkRelay w (cr s) (cw s) (go_pc s)
                        (if copy_done pc then HLog else HCopy pc) (trace s))
      | HLog =>
          Some (mkRelay (net s) (cr s) (cw s) (go_pc s) HCloseTarget
                  (trace s ++
                   [Log ("SOCKS request to %s transferred %d bytes in and %d bytes out"
                         ++ LF)
                        [VStr targetAddr;
                         VInt (bytesRead (cr s));
                         VInt (bytesWritten (cw s))]])%list)
      | HCloseTarget =>
          Some (mkRelay (sock_Close TargetSock (net s)) (cr s) (cw s) (go_pc s)
                  HReturned (trace s ++ [ConnClose targetConn])%list)
      | HReturned => None
      end
  end.

Fixpoint run (sched : list thread) (s : relay_state) : relay_state :=
  match sched with
  | [] => s
  | t :: rest => run rest (default s (step t s))
  end.
End Relay.

End Forward.

(** ** Notions the properties are stated with *)

Module Obs.
Import Go.

(** A line made of ASCII white space only, the empty line included. *)
Fixpoint blank (line : string) : bool :=
  match line with
  | EmptyString => true
  | String c rest => asciiSpace c && blank rest
  end.

Definition is_log (e : event) : bool :=
  match e with
  | Log _ _ => true
  | _ => false
  end.

Definition is_dial (e : event) : bool :=
  match e with
  | NetDial _ _ | Socks5Dial _ _ _ => true
  | _ => false
  end.

(** What a trace does to the network: everything but the log lines. *)
Definition network_events (t : list event) : list event :=
  List.filter (fun e => negb (is_log e)) t.

(** The dial attempts of a trace. *)
Definition dial_events (t : list event) : list event := List.filter is_dial t.


(** The counts [n] reported by the underlying stream and the counter value
    [old] for which adding does not leave [int64]: [n] is not negative, as
    [io.Reader] and [io.Writer] require, and the total fits. *)
Definition no_wrap (old n : Z) : Prop :=
  0 <= n /\ 0 <= old /\ old + n <= MaxInt64.

(** [Write] called on a [countingWriter] with each of [ps] in turn: the
    counts the underlying writer reported, and the final wrapper. *)
Fixpoint write_all {W Wr : Type} `{!Writer W Wr}
    (c : Forward.countingWriter Wr) (ps : list string) (w : W)
    : list Z * Forward.countingWriter Wr :=
  match ps with
  | [] => ([], c)
  | p :: rest =>
      let '((n, _), c', w') := Forward.countingWriter_Write c p w in
      let '(ns, c'') := write_all c' rest w' in
      (n :: ns, c'')
  end.

Definition sum (ns : list Z) : Z := fold_right Z.add 0 ns.

(** Where the handler of [handleSOCKS] stands and what it has written so
    far: the totals are logged once its own [io.Copy] is over, and the
    target is closed after that. *)
Definition forward_handler_inv (targetAddr : string) (targetConn : conn)
    (s : Forward.relay_state) : Prop :=
  match Forward.h_pc s with
  | Forward.HCopy _ | Forward.HLog => Forward.trace s = []
  | Forward.HCloseTarget =>
      exists r w,
        Forward.trace s =
        [Log ("SOCKS request to %s transferred %d bytes in and %d bytes out" ++ LF)
             [VStr targetAddr; VInt r; VInt w]]
  | Forward.HReturned =>
      exists r w,
        Forward.trace s =
        [Log ("SOCKS request to %s transferred %d bytes in and %d bytes out" ++ LF)
             [VStr targetAddr; VInt r; VInt w];
         ConnClose targetConn]
  end.

(** A string of ASCII bytes only. *)
Fixpoint ascii_only (s : string) : bool :=
  match s with
  | EmptyString => true
  | String c rest => (b2z c <? RuneSelf) && ascii_only rest
  end.

(** The string without its leading ASCII white space, and without its
    trailing ASCII white space. *)
Fixpoint trim_left (s : string) : string :=
  match s with
  | EmptyString => EmptyString
  | String c rest => if asciiSpace c then trim_left rest else s
  end.

Fixpoint trim_right (s : string) : string :=
  match s with
  | EmptyString => EmptyString
  | String c rest =>
      match trim_right rest with
      | EmptyString => if asciiSpace c then EmptyString else String c EmptyString
      | rest' => String c rest'
      end
  end.

(** The last byte of a string that is not empty. *)
Fixpoint last_byte (s : string) : option ascii :=
  match s with
  | EmptyString => None
  | String c EmptyString => Some c
  | String _ rest => last_byte rest
  end.

End Obs.

(** ** [src/src/main.go]: the HTTP handler *)

Module ForwardHTTP.
Import Go.

(** [err.Error()] *)
Definition Error_text (err : error) : string :=
  match err with
  | EOF => "EOF"
  | ErrTooLong => "bufio.Scanner: token too long"
  | ErrShortWrite => "short write"
  | ErrInvalidWrite => "invalid write result"
  | ErrClosed => "use of closed network connection"
  | AddrError why addr => "address " ++ addr ++ ": " ++ why
  | OSError msg => msg
  end.

(** [io.Copy] run to its end, for at most [fuel] calls of [Read] and
    [Write]; where it stands when the fuel is spent. *)
Fixpoint copy_loop {S : Type} (read : Z -> S -> result * string * S)
    (write : string -> S -> result * S) (fuel : nat) (pc : copy_pc) (st : S)
    : copy_pc * S :=
  match fuel with
  | O => (pc, st)
  | S k =>
      if copy_done pc then (pc, st)
      else let '(pc', st') := copy_step read write pc st in
           copy_loop read write k pc' st'
  end.

(** The request as far as the handler looks at it: [r.RemoteAddr],
    [r.URL.String()] and [r.URL.Host]. *)
Record Request : Type := mkRequest {
  RemoteAddr : string;
  URL_String : string;
  URL_Host : string
}.

(** The response of the origin: [resp.StatusCode], [resp.Header] and the
    stream [resp.Body]. *)
Record Response (Rd : Type) : Type := mkResponse {
  StatusCode : Z;
  Header : gmap string (list string);
  Body : Rd
}.
Arguments mkResponse {Rd} _ _ _.
Arguments StatusCode {Rd} _.
Arguments Header {Rd} _.
Arguments Body {Rd} _.

(** What the handler does besides writing the body: its log lines, the
    calls on the [http.ResponseWriter], the request it sends and the close
    of the body. *)
Inductive http_event : Type :=
| HLog (format : string) (args : list value)       (* log.Printf *)
| HWriteHeader (code : Z)                          (* w.WriteHeader(code) *)
| HSetHeader (k : string) (v : list string)        (* w.Header()[k] = v *)
| HError (msg : string) (code : Z)                 (* http.Error(w, msg, code) *)
| HDo (r : Request)                                (* client.Do(r) *)
| HBodyClose.                                      (* resp.Body.Close() *)

Definition StatusTeapot : Z := 418.
Definition StatusInternalServerError : Z := 500.

(** The calls that send the status line ([w.WriteHeader], [http.Error]),
    and the assignments to the header map. *)
Definition is_status (e : http_event) : bool :=
  match e with
  | HWriteHeader _ | HError _ _ => true
  | _ => false
  end.

Definition is_header (e : http_event) : bool :=
  match e with
  | HSetHeader _ _ => true
  | _ => false
  end.

Section HandleHTTP.
Context {W Wr Rd : Type} `{!Writer W Wr} `{!Reader W Rd}.
Variable blacklist : gmap string unit.
(** [client.Do]: the origin's response, or an error. *)
Variable Do : Request -> Response Rd + error.

(** [cw.Write] and [resp.Body.Read] as they act on the counter and the
    world together. *)
Definition cw_Write (p : string) (st : Forward.countingWriter Wr * W)
    : result * (Forward.countingWriter Wr * W) :=
  let '(res, cw, w) := Forward.countingWriter_Write st.1 p st.2 in
  (res, (cw, w)).

Definition body_Read (body : Rd) (lenp : Z) (st : Forward.countingWriter Wr * W)
    : result * string * (Forward.countingWriter Wr * W) :=
  let '(res, buf, w) := Read body lenp st.2 in
  (res, buf, (st.1, w)).

(** [handleHTTP]: the events, the world it leaves and whether it has
    returned within [fuel] calls of [Read] and [Write] of its [io.Copy].
    The world is what [w.Write] and [resp.Body.Read] act on; what
    [w.WriteHeader] and [http.Error] send is in their events.  The range
    over [resp.Header] visits the keys in the order the iteration happens
    to take. *)
Definition handleHTTP (fuel : nat) (w : Wr) (r : Request) (st : W)
    : list http_event * W * bool :=
  (* log request *)
  let logged :=
    [HLog "[HTTP] [Client %s], target: %s"
          [VStr (RemoteAddr r); VStr (URL_String r)]] in
  if Forward.isBlacklisted blacklist (URL_Host r) then
    (logged ++ [HWriteHeader StatusTeapot], st, true)%list
  else
  match Do r with
  | inr err =>
      (logged ++ [HDo r; HError (Error_text err) StatusInternalServerError],
       st, true)%list
  | inl resp =>
      (* create countingWriter to record the number of bytes written *)
      let cw := Forward.mkCountingWriter w 0 in
      let headers :=
        List.map (fun kv => HSetHeader kv.1 kv.2) (map_to_list (Header resp)) in
      let '(pc, (cw, st)) :=
        copy_loop (body_Read (Body resp)) cw_Write fuel AtRead (cw, st) in
      let sent :=
        (logged ++ [HDo r] ++ headers ++ [HWriteHeader (StatusCode resp)])%list in
      if copy_done pc then
        (sent ++
         [HLog ("HTTP request to %s transferred %d bytes" ++ String "010" EmptyString)
               [VStr (URL_String r); VInt (Forward.bytesWritten cw)];
          HBodyClose], st, true)%list
      else (sent, st, false)
  end.
End HandleHTTP.

End ForwardHTTP.

(** ** The two [main] functions *)

Module Main.
Import Go.

(** What [main] does to the outside. *)
Inductive proc_event : Type :=
| PFatal (format : string) (args : list value)  (* log.Fatalf / log.Fatal: the process exits *)
| PLog (format : string) (args : list value)    (* log.Printf / log.Println *)
| PListen (network address : string)            (* net.Listen *)
| PHandleFunc (pattern : string)                (* http.HandleFunc(pattern, handleHTTP) *)
| PGoServe (address : string)                   (* go func() { .. http.ListenAndServe(address, nil) .. }() *)
| PListenAndServe (address : string)            (* http.ListenAndServe(address, nil), in that goroutine *)
| PGoClient (client : conn)                     (* go handleClientConnection(client) *)
| PLoop (e : event).                            (* an event of the SOCKS accept loop *)

(** The [for] loop of [main] in [src/main.go] (lines 168 to 176) over what
    successive calls of [listener.Accept()] return. *)
Fixpoint tunnel_accept_loop (accepts : list (conn + error)) : list proc_event :=
  match accepts with
  | [] => []
  | inr err :: rest => PLog "Error accepting:" [VErr err] :: tunnel_accept_loop rest
  | inl client :: rest => PGoClient client :: tunnel_accept_loop rest
  end.

(** [main] of [src/main.go]: the blacklist it leaves in the global and
    what it does, given the environment variables, the files, the answer
    of [net.Listen] and what [Accept] returns. *)
Definition tunnel_main (getenv : string -> string) (fs : string -> file)
    (listen : string -> string -> option error) (accepts : list (conn + error))
    : gmap string bool * list proc_event :=
  let port := getenv "PORT" in
  let port := if String.eqb port EmptyString then "10000" (* default port *) else port in
  let '(blacklist, err) := Tunnel.loadBlacklist fs "blacklist.txt" ∅ in
  match err with
  | Some err => (blacklist, [PFatal "Failed to load blacklist: %v" [VErr err]])
  | None =>
      let listenAddr := ":" ++ port in
      match listen "tcp" listenAddr with
      | Some err =>
          (blacklist,
           [PListen "tcp" listenAddr;
            PFatal "Failed to listen on %s: %v" [VStr listenAddr; VErr err]])
      | None =>
          (blacklist,
           PListen "tcp" listenAddr :: PLog "Listening on %s" [VStr listenAddr]
           :: tunnel_accept_loop accepts)
      end
  end.








(** The handlers [main] has started. *)
Definition started_clients (t : list proc_event) : list conn :=
  flat_map (fun e => match e with PGoClient c => [c] | _ => [] end) t.



End Main.

(** ** Notions the properties of the relay are stated with *)

Module Rel.
Import Go.

(** The other socket of the pair. *)
Definition other (r : sock) : sock :=
  match r with
  | ClientSock => TargetSock
  | TargetSock => ClientSock
  end.

(** [io.Copy] from socket [src] to the other socket neither loses nor
    reorders bytes: what the destination has been given since the start,
    followed by the chunk in hand and by what the source still holds, is
    what the source held at the start ([data]); once the copy is over, what
    was given is a prefix of [data], and all of it when the copy ended
    without error. *)
Definition conserved (src : sock) (data out0 : string) (pc : copy_pc)
    (w : net_state) : Prop :=
  exists x,
    outbox (get_sock w (other src)) = out0 ++ x /\
    match pc with
    | AtRead => data = x ++ inbox (get_sock w src)
    | AtWrite chunk er =>
        er = None /\ data = x ++ chunk ++ inbox (get_sock w src)
    | CopyDone err =>
        exists rest, data = x ++ rest /\
                     (err = None -> rest = EmptyString /\
                                    inbox (get_sock w src) = EmptyString)
    end.

(** Where the handler's own [io.Copy] stands; once it is over its result
    is no longer looked at. *)
Definition tunnel_copy (h : Tunnel.handler_pc) : copy_pc :=
  match h with
  | Tunnel.HCopy pc => pc
  | _ => CopyDone (Some ErrClosed)
  end.

Definition forward_copy (h : Forward.handler_pc) : copy_pc :=
  match h with
  | Forward.HCopy pc => pc
  | _ => CopyDone (Some ErrClosed)
  end.

(** The counters of [cr] and [cw] against the sockets: bytes taken from
    the client socket, bytes given to the target socket. *)
Definition metered (data out0 : string) (s : Forward.relay_state) : Prop :=
  Forward.bytesRead (Forward.cr s) =
    len data - len (inbox (client_sock (Forward.net s))) /\
  Forward.bytesWritten (Forward.cw s) =
    len (outbox (target_sock (Forward.net s))) - len out0.

(** Both directions of the relay of [handleSOCKS] keep their bytes, and
    [cr] and [cw] stay wrapped around the client and the target socket. *)
Definition forward_cons (w : net_state) (s : Forward.relay_state) : Prop :=
  (Forward.reader (Forward.cr s) = ClientSock /\
   Forward.writer (Forward.cw s) = TargetSock) /\
  conserved ClientSock (inbox (client_sock w)) (outbox (target_sock w))
            (Forward.go_pc s) (Forward.net s) /\
  conserved TargetSock (inbox (target_sock w)) (outbox (client_sock w))
            (forward_copy (Forward.h_pc s)) (Forward.net s).

(** The number of calls of [Read] and [Write] a copy from socket [a] still
    makes at most. *)
Definition steps_left (a : sock) (pc : copy_pc) (w : net_state) : nat :=
  match pc with
  | AtRead => 2 * String.length (inbox (get_sock w a)) + 1
  | AtWrite _ _ => 2 * String.length (inbox (get_sock w a)) + 2
  | CopyDone _ => 0
  end.

(** What the copy of [handleHTTP] keeps, the body being socket [a] and the
    client the other socket: the bytes, in order, and a counter that is the
    number of bytes given to the client. *)
Definition http_inv (a : sock) (data out0 : string) (pc : copy_pc)
    (st : Forward.countingWriter sock * net_state) : Prop :=
  Forward.writer st.1 = other a /\
  conserved a data out0 pc st.2 /\
  Forward.bytesWritten st.1 = len (outbox (get_sock st.2 (other a))) - len out0.

(** A copy from socket [a] on which nothing has gone wrong: neither socket
    is closed, the peer of [a] ends its stream with [io.EOF], and no call
    has reported an error. *)
Definition clean (a : sock) (pc : copy_pc) (w : net_state) : Prop :=
  closed (get_sock w a) = false /\
  closed (get_sock w (other a)) = false /\
  in_err (get_sock w a) = None /\
  match pc with
  | AtRead => True
  | AtWrite _ er => er = None
  | CopyDone err => err = None
  end.

(** What the log line of the relay reports against the counters: the
    counters are not negative, and a total that was logged is at most the
    counter. *)
Definition reported (targetAddr : string) (s : Forward.relay_state) : Prop :=
  0 <= Forward.bytesRead (Forward.cr s) /\
  0 <= Forward.bytesWritten (Forward.cw s) /\
  forall r wr,
    Log ("SOCKS request to %s transferred %d bytes in and %d bytes out" ++ LF)
        [VStr targetAddr; VInt r; VInt wr] ∈ Forward.trace s ->
    0 <= r <= Forward.bytesRead (Forward.cr s) /\
    0 <= wr <= Forward.bytesWritten (Forward.cw s).

(** The [Close] calls of a trace, and the [Write] calls. *)
Definition closes (t : list event) : list event :=
  List.filter (fun e => match e with ConnClose _ => true | _ => false end) t.

Definition writes (t : list event) : list event :=
  List.filter (fun e => match e with ConnWrite _ _ => true | _ => false end) t.

End Rel.

(** ** Facts about the library model *)

Section GoStrings.
Import Go.

Lemma append_String (a : ascii) (s t : string) :
  String a s ++ t = String a (s ++ t).
Proof. reflexivity. Qed.

Lemma append_empty_l (t : string) : EmptyString ++ t = t.
Proof. reflexivity. Qed.

Lemma append_empty_r (s : string) : s ++ EmptyString = s.
Proof.
  induction s as [|a s IH]; [done|]. by rewrite append_String, IH.
Qed.

Lemma append_assoc (s t u : string) : (s ++ t) ++ u = s ++ (t ++ u).
Proof.
  induction s as [|a s IH]; [done|]. by rewrite !append_String, IH.
Qed.

Lemma length_append (p t : string) :
  String.length (p ++ t) = (String.length p + String.length t)%nat.
Proof.
  induction p as [|a p IH]; [done|].
  rewrite append_String. simpl. by rewrite IH.
Qed.

Lemma len_nonneg (s : string) : 0 <= len s.
Proof. unfold len. lia. Qed.

Lemma len_append (p t : string) : len (p ++ t) = len p + len t.
Proof. unfold len. rewrite length_append. lia. Qed.

Lemma substring_0_app (p t : string) :
  String.substring 0 (String.length p) (p ++ t) = p.
Proof.
  induction p as [|a p IH].
  - rewrite append_empty_l. by destruct t.
  - rewrite append_String. simpl. by rewrite IH.
Qed.

Lemma substring_0_all (s : string) :
  String.substring 0 (String.length s) s = s.
Proof. induction s as [|a s IH]; simpl; [done|]. by rewrite IH. Qed.

Lemma substring_0_split (n : nat) (s : string) :
  (n <= String.length s)%nat ->
  s = String.substring 0 n s ++ String.substring n (String.length s - n) s.
Proof.
  revert s; induction n as [|n IH]; intros s Hn.
  - rewrite Nat.sub_0_r, substring_0_all. by destruct s.
  - destruct s as [|a s]; simpl in *; [lia|].
    rewrite append_String. f_equal. apply IH. lia.
Qed.

Lemma slice_prefix (s : string) (n : Z) :
  slice s 0 n = String.substring 0 (Z.to_nat n) s.
Proof. unfold slice. by rewrite Z.sub_0_r. Qed.

(** [HasPrefix s p] holds exactly when [s] is [p] followed by something. *)
Lemma HasPrefix_spec (s p : string) :
  HasPrefix s p = true <-> exists t, s = p ++ t.
Proof.
  unfold HasPrefix. rewrite slice_prefix. unfold len.
  rewrite Nat2Z.id. split.
  - intros [Hlen Heq]%andb_true_iff.
    apply Z.leb_le in Hlen. apply String.eqb_eq in Heq.
    assert (Hn : (String.length p <= String.length s)%nat) by lia.
    pose proof (substring_0_split _ _ Hn) as Hs. rewrite Heq in Hs. eauto.
  - intros [t ->]. apply andb_true_iff; split.
    + apply Z.leb_le. rewrite length_append. lia.
    + apply String.eqb_eq, substring_0_app.
Qed.

Lemma HasPrefix_empty (s : string) : HasPrefix s EmptyString = true.
Proof. apply HasPrefix_spec. by exists s. Qed.

Lemma HasPrefix_refl (s : string) : HasPrefix s s = true.
Proof. apply HasPrefix_spec. exists EmptyString. by rewrite append_empty_r. Qed.

Lemma HasPrefix_false (s p : string) :
  HasPrefix s p = false <-> forall t, s <> p ++ t.
Proof.
  rewrite <- not_true_iff_false, HasPrefix_spec. split.
  - intros H t Ht. apply H. eauto.
  - intros H [t Ht]. by apply (H t).
Qed.

(** [Contains s sub] holds exactly when [sub] occurs in [s]. *)
Lemma Contains_spec (s sub : string) :
  Contains s sub = true <-> exists l r, s = l ++ sub ++ r.
Proof.
  induction s as [|a s IH]; simpl.
  - rewrite orb_false_r, HasPrefix_spec. split.
    + intros [t Ht]. by exists EmptyString, t.
    + intros [l [r H]]. destruct l; [by exists r|discriminate].
  - rewrite orb_true_iff, HasPrefix_spec, IH. split.
    + intros [[t Ht]|[l [r ->]]].
      * by exists EmptyString, t.
      * by exists (String a l), r.
    + intros [l [r H]]. destruct l as [|b l].
      * left. by exists r.
      * right. rewrite append_String in H. injection H as -> ->. eauto.
Qed.

(** *** 64-bit arithmetic *)

Lemma int64_range (n : Z) : MinInt64 <= int64 n <= MaxInt64.
Proof.
  unfold int64, MinInt64, MaxInt64.
  pose proof (Z.mod_pos_bound (n + 2 ^ 63) (2 ^ 64) ltac:(lia)). lia.
Qed.

Lemma int64_id (n : Z) : MinInt64 <= n <= MaxInt64 -> int64 n = n.
Proof.
  unfold int64, MinInt64, MaxInt64. intros H.
  rewrite Z.mod_small; lia.
Qed.

Lemma AddInt64_range (c d : Z) : MinInt64 <= AddInt64 c d <= MaxInt64.
Proof. apply int64_range. Qed.

(** Without overflow [AddInt64] is the sum. *)
Lemma AddInt64_exact (c n : Z) :
  MinInt64 <= n <= MaxInt64 -> MinInt64 <= c + n <= MaxInt64 ->
  AddInt64 c (int64 n) = c + n.
Proof.
  intros Hn Hs. unfold AddInt64. rewrite (int64_id n Hn). by apply int64_id.
Qed.

Lemma AddInt64_zero (c : Z) :
  MinInt64 <= c <= MaxInt64 -> AddInt64 c (int64 0) = c.
Proof.
  intros H. rewrite AddInt64_exact; unfold MinInt64, MaxInt64 in *; lia.
Qed.

End GoStrings.

(** ** Host policy *)

Section HostPolicy.
Import Go.

(** The loop of [isBlocked] answers whether some visited key is a prefix
    of the host. *)
Lemma isBlocked_range_true (keys : list string) (host : string) :
  Tunnel.isBlocked_range keys host = true <->
  exists e, e ∈ keys /\ HasPrefix host e = true.
Proof.
  induction keys as [|k keys IH]; simpl.
  - split; [done|]. intros [e [He _]]. by apply elem_of_nil in He.
  - destruct (HasPrefix host k) eqn:Hk.
    + split; [|done]. intros _. exists k. split; [left|done].
    + rewrite IH. split.
      * intros [e [He Hp]]. exists e. split; [by right|done].
      * intros [e [He Hp]]. apply elem_of_cons in He as [->|He]; [congruence|eauto].
Qed.

(** Go visits the keys of a map in an unspecified order; the answer of
    the loop does not depend on it. *)
Lemma isBlocked_range_order (keys keys' : list string) (host : string) :
  Permutation keys keys' ->
  Tunnel.isBlocked_range keys host = Tunnel.isBlocked_range keys' host.
Proof.
  intros HP. apply eq_true_iff_eq. rewrite !isBlocked_range_true.
  split; intros [e [He Hp]]; exists e; split; try done.
  - by rewrite <- HP.
  - by rewrite HP.
Qed.

Lemma isBlocked_true (blacklist : gmap string bool) (host : string) :
  Tunnel.isBlocked blacklist host = true <->
  exists e, is_Some (blacklist !! e) /\ exists t, host = e ++ t.
Proof.
  unfold Tunnel.isBlocked. rewrite isBlocked_range_true.
  split; intros [e [He Hp]]; exists e.
  - apply HasPrefix_spec in Hp. split; [|done].
    apply list_elem_of_fmap in He as [[k v] [-> Hkv]].
    apply elem_of_map_to_list in Hkv. by exists v.
  - split; [|by apply HasPrefix_spec].
    destruct He as [v Hv]. apply list_elem_of_fmap. exists (e, v).
    split; [done|]. by apply elem_of_map_to_list.
Qed.

Lemma isBlacklisted_true (blacklist : gmap string unit) (address : string) :
  Forward.isBlacklisted blacklist address = true <->
  is_Some (blacklist !! address).
Proof.
  unfold Forward.isBlacklisted. destruct (blacklist !! address) as [u|].
  - split; [eauto|done].
  - split; [done|]. by intros [x Hx].
Qed.

End HostPolicy.

(** C1 (as amended): on the tunnel proxy [isBlocked] returns true exactly
    when some entry of the policy is a prefix of the host, an entry equal
    to the host being one; on the forwarder [isBlacklisted] returns true
    exactly when the host itself is an entry.  Both return false when no
    entry is a prefix of the host. *)
Theorem C1_blocking_predicates
    (bl : gmap string bool) (bl' : gmap string unit) (h : string) :
  (Tunnel.isBlocked bl h = true <->
     exists e, is_Some (bl !! e) /\ exists t, h = e ++ t) /\
  (Forward.isBlacklisted bl' h = true <-> is_Some (bl' !! h)) /\
  ((forall e t, is_Some (bl !! e) -> h <> e ++ t) ->
     Tunnel.isBlocked bl h = false) /\
  ((forall e t, is_Some (bl' !! e) -> h <> e ++ t) ->
     Forward.isBlacklisted bl' h = false).
Proof.
  split; [apply isBlocked_true|].
  split; [apply isBlacklisted_true|].
  split; intros Hdisj; apply not_true_iff_false.
  - intros [e [He [t Ht]]]%isBlocked_true. by apply (Hdisj e t).
  - intros He%isBlacklisted_true.
    apply (Hdisj h EmptyString He). by rewrite append_empty_r.
Qed.

(** C1 at a concrete policy and host. *)
Lemma C1_blocking_predicates_witness :
  Tunnel.isBlocked {[ "blocked.example" := true ]} "blocked.example:443" = true /\
  Forward.isBlacklisted {[ "blocked.example" := tt ]} "other.example" = false.
Proof.
  pose proof (C1_blocking_predicates
                {[ "blocked.example" := true ]} {[ "blocked.example" := tt ]}
                "blocked.example:443") as [Hb _].
  pose proof (C1_blocking_predicates
                {[ "blocked.example" := true ]} {[ "blocked.example" := tt ]}
                "other.example") as [_ [_ [_ Hd]]].
  split.
  - apply Hb. exists "blocked.example". split.
    + exists true. reflexivity.
    + exists ":443". reflexivity.
  - apply Hd. intros e t [u He] Ht.
    apply lookup_singleton_Some in He as [<- _].
    apply (f_equal (fun s => String.get 0 s)) in Ht. discriminate Ht.
Defined.

(** C1 as stated fails on the forwarder: an entry that is a proper prefix
    of the host does not make [isBlacklisted] return true. *)
Lemma C1_exact_match_ignores_prefix :
  let bl : gmap string unit := {[ "blocked.example" := tt ]} in
  let h := "blocked.example:443" in
  (exists e, is_Some (bl !! e) /\ (e = h \/ exists t, h = e ++ t)) /\
  Forward.isBlacklisted bl h = false.
Proof.
  split.
  - exists "blocked.example". split.
    + exists tt. reflexivity.
    + right. exists ":443". reflexivity.
  - reflexivity.
Qed.

(** C9: on the tunnel proxy, a blacklist that has the empty string as an
    entry blocks every host. *)
Theorem C9_empty_entry_blocks_all (bl : gmap string bool) (host : string) :
  is_Some (bl !! EmptyString) -> Tunnel.isBlocked bl host = true.
Proof.
  intros He. apply isBlocked_true. exists EmptyString. split; [done|].
  by exists host.
Qed.

Lemma C9_empty_entry_blocks_all_witness :
  is_Some ((<[ EmptyString := true ]> (∅ : gmap string bool)) !! EmptyString) /\
  Tunnel.isBlocked (<[ EmptyString := true ]> ∅) "allowed.example:443" = true.
Proof.
  split.
  - exists true. reflexivity.
  - apply (C9_empty_entry_blocks_all (<[ EmptyString := true ]> ∅)).
    exists true. reflexivity.
Defined.

(** ** Loading the policy file *)

Section LoadBlacklist.
Import Go Obs.

Lemma asciiSpace_ascii (c : ascii) : asciiSpace c = true -> b2z c < RuneSelf.
Proof.
  unfold asciiSpace, RuneSelf. intros H.
  repeat (apply orb_true_iff in H as [H|H]); apply Z.eqb_eq in H; lia.
Qed.

Lemma substring_nothing (n : nat) (s : string) :
  String.substring n 0 s = EmptyString.
Proof. revert n; induction s as [|a s IH]; intros [|n]; simpl; auto. Qed.

Lemma slice_nothing (s : string) (i : Z) : slice s i i = EmptyString.
Proof. unfold slice. rewrite Z.sub_diag. apply substring_nothing. Qed.

Lemma trim_start_blank (whole s : string) (start : Z) :
  blank s = true -> trim_start whole s start = inr (start + len s).
Proof.
  revert start; induction s as [|c s IH]; intros start Hb; simpl in *.
  - unfold len. simpl. f_equal. lia.
  - apply andb_true_iff in Hb as [Hc Hs].
    pose proof (asciiSpace_ascii c Hc) as Hlt.
    destruct (RuneSelf <=? b2z c) eqn:Hr; [apply Z.leb_le in Hr; lia|].
    rewrite Hc, (IH _ Hs). f_equal. unfold len. simpl String.length. lia.
Qed.

Lemma trim_stop_nothing (rounds : nat) (s : string) (i : Z) :
  trim_stop rounds s i i = EmptyString.
Proof.
  destruct rounds; simpl; [apply slice_nothing|].
  rewrite Z.leb_refl. apply slice_nothing.
Qed.

(** A blank line is trimmed to the empty string. *)
Lemma TrimSpace_blank (line : string) :
  blank line = true -> TrimSpace line = EmptyString.
Proof.
  intros Hb. unfold TrimSpace. rewrite (trim_start_blank _ _ _ Hb).
  rewrite Z.add_0_l. apply trim_stop_nothing.
Qed.

Lemma get_app_here (x y : string) (c : ascii) :
  String.get (String.length x) (x ++ String c y) = Some c.
Proof. induction x as [|a x IH]; [done|]. by rewrite append_String. Qed.

Lemma at_app_here (x y : string) (c : ascii) : at_ (x ++ String c y) (len x) = c.
Proof. unfold at_, len. by rewrite Nat2Z.id, get_app_here. Qed.

Lemma substring_skip (l t : string) (k : nat) :
  String.substring (String.length l) k (l ++ t) = String.substring 0 k t.
Proof. induction l as [|a l IH]; [done|]. by rewrite append_String. Qed.

Lemma slice_middle (l m rest : string) :
  slice (l ++ m ++ rest) (len l) (len l + len m) = m.
Proof.
  unfold slice, len. rewrite Nat2Z.id.
  replace (Z.to_nat (Z.of_nat (String.length l) + Z.of_nat (String.length m) -
                     Z.of_nat (String.length l))) with (String.length m) by lia.
  by rewrite substring_skip, substring_0_app.
Qed.

Lemma string_snoc (s : string) :
  s = EmptyString \/ exists s' c, s = s' ++ String c EmptyString.
Proof.
  induction s as [|a s IH]; [by left|]. right.
  destruct IH as [->|(s' & c & ->)].
  - by exists EmptyString, a.
  - by exists (String a s'), c.
Qed.

Lemma string_snoc_ind (P : string -> Prop) :
  P EmptyString ->
  (forall s c, P s -> P (s ++ String c EmptyString)) ->
  forall s, P s.
Proof.
  intros H0 Hs s.
  remember (String.length s) as n eqn:Hn. revert s Hn.
  induction n as [|n IH]; intros s Hn.
  - destruct s; [done|discriminate].
  - destruct (string_snoc s) as [->|(s' & c & ->)]; [discriminate|].
    apply Hs, IH. rewrite length_append in Hn. simpl in Hn. lia.
Qed.

Lemma blank_app (x y : string) : blank (x ++ y) = blank x && blank y.
Proof.
  induction x as [|a x IH]; [done|]. rewrite append_String. simpl.
  by rewrite IH, andb_assoc.
Qed.

(** The first loop of [TrimSpace] on ASCII text stops at the first byte
    that is not a space. *)
Lemma trim_start_ascii (whole s : string) (start : Z) :
  ascii_only s = true ->
  trim_start whole s start = inr (start + (len s - len (trim_left s))).
Proof.
  revert start; induction s as [|c s IH]; intros start Ha; simpl in *.
  - f_equal. lia.
  - apply andb_true_iff in Ha as [Hc Hs]. apply Z.ltb_lt in Hc.
    destruct (RuneSelf <=? b2z c) eqn:Hr; [apply Z.leb_le in Hr; lia|].
    destruct (asciiSpace c).
    + rewrite (IH _ Hs). f_equal. unfold len. simpl String.length. lia.
    + f_equal. lia.
Qed.

Lemma trim_left_split (s : string) :
  exists l, s = l ++ trim_left s /\ blank l = true.
Proof.
  induction s as [|c s IH]; simpl.
  - by exists EmptyString.
  - destruct (asciiSpace c) eqn:Hc.
    + destruct IH as (l & Hl & Hb). exists (String c l).
      rewrite append_String, <- Hl. simpl. by rewrite Hc, Hb.
    + by exists EmptyString.
Qed.

Lemma trim_right_split (s : string) :
  exists r, s = trim_right s ++ r /\ blank r = true.
Proof.
  induction s as [|c s IH]; simpl.
  - by exists EmptyString.
  - destruct IH as (r & Hr & Hb).
    destruct (trim_right s) as [|d t] eqn:Ht.
    + destruct (asciiSpace c) eqn:Hc.
      * exists (String c s). split; [done|]. simpl. rewrite Hc.
        rewrite Hr, append_empty_l. done.
      * exists s. split; [|by rewrite Hr]. done.
    + exists r. split; [|done]. by rewrite append_String, <- Hr.
Qed.

Lemma last_byte_snoc (s : string) (c : ascii) :
  last_byte (s ++ String c EmptyString) = Some c.
Proof.
  induction s as [|a s IH]; [done|]. rewrite append_String. simpl.
  rewrite IH. by destruct (s ++ String c EmptyString) eqn:E; [destruct s; discriminate|].
Qed.

Lemma trim_right_last (s : string) (c : ascii) :
  last_byte (trim_right s) = Some c -> asciiSpace c = false.
Proof.
  revert c; induction s as [|a s IH]; intros c; simpl; [done|].
  destruct (trim_right s) as [|d t] eqn:Ht.
  - destruct (asciiSpace a) eqn:Ha; simpl; [done|]. by intros [= <-].
  - simpl. intros H. apply IH. simpl. done.
Qed.

Lemma trim_left_first (s : string) (c : ascii) (t : string) :
  trim_left s = String c t -> asciiSpace c = false.
Proof.
  induction s as [|a s IH]; simpl; [done|].
  destruct (asciiSpace a) eqn:Ha; [done|]. by intros [= <- _].
Qed.

Lemma ascii_only_app (x y : string) :
  ascii_only (x ++ y) = ascii_only x && ascii_only y.
Proof.
  induction x as [|a x IH]; [done|]. rewrite append_String. simpl.
  by rewrite IH, andb_assoc.
Qed.

Lemma len_snoc (s : string) (c : ascii) : len (s ++ String c EmptyString) = len s + 1.
Proof. rewrite len_append. reflexivity. Qed.

(** The second loop of [TrimSpace] on ASCII text walks back over the trailing
    spaces and stops behind the last byte that is not one. *)
Lemma trim_stop_ascii (r1 : string) :
  forall (rounds : nat) (l m r2 : string),
    blank r1 = true -> ascii_only m = true ->
    (forall c, last_byte m = Some c -> asciiSpace c = false) ->
    (String.length m + String.length r1 <= rounds)%nat ->
    trim_stop rounds (l ++ m ++ r1 ++ r2) (len l) (len l + len m + len r1) = m.
Proof.
  induction r1 as [|r1 c IH] using string_snoc_ind;
    intros rounds l m r2 Hb Ha Hlast Hr.
  - rewrite append_empty_l. change (len EmptyString) with 0. rewrite Z.add_0_r.
    destruct (string_snoc m) as [->|(m' & d & ->)].
    + change (len EmptyString) with 0. rewrite Z.add_0_r.
      apply trim_stop_nothing.
    + rewrite length_append in Hr. simpl in Hr.
      destruct rounds as [|k]; [lia|]. simpl.
      pose proof (len_nonneg m'). rewrite len_snoc.
      destruct (len l + (len m' + 1) <=? len l) eqn:Hle; [apply Z.leb_le in Hle; lia|].
      replace (len l + (len m' + 1) - 1) with (len (l ++ m')) by (rewrite len_append; lia).
      replace (l ++ (m' ++ String d EmptyString) ++ r2) with ((l ++ m') ++ String d r2)
        by (by rewrite !append_assoc).
      rewrite at_app_here.
      rewrite ascii_only_app in Ha. apply andb_true_iff in Ha as [_ Hd].
      simpl in Hd. rewrite andb_true_r in Hd. apply Z.ltb_lt in Hd.
      destruct (RuneSelf <=? b2z d) eqn:Hrs; [apply Z.leb_le in Hrs; lia|].
      rewrite (Hlast d (last_byte_snoc m' d)).
      replace ((l ++ m') ++ String d r2) with (l ++ (m' ++ String d EmptyString) ++ r2)
        by (by rewrite !append_assoc).
      rewrite <- (len_snoc m' d). apply slice_middle.
  - rewrite blank_app in Hb. apply andb_true_iff in Hb as [Hb Hc].
    simpl in Hc. rewrite andb_true_r in Hc.
    rewrite length_append in Hr. simpl in Hr.
    destruct rounds as [|k]; [lia|]. simpl.
    pose proof (len_nonneg m). pose proof (len_nonneg r1). rewrite len_snoc.
    destruct (len l + len m + (len r1 + 1) <=? len l) eqn:Hle;
      [apply Z.leb_le in Hle; lia|].
    replace (len l + len m + (len r1 + 1) - 1) with (len (l ++ m ++ r1))
      by (rewrite !len_append; lia).
    replace (l ++ m ++ (r1 ++ String c EmptyString) ++ r2)
      with ((l ++ m ++ r1) ++ String c r2) by (by rewrite !append_assoc).
    rewrite at_app_here.
    pose proof (asciiSpace_ascii c Hc) as Hlt.
    destruct (RuneSelf <=? b2z c) eqn:Hrs; [apply Z.leb_le in Hrs; lia|].
    rewrite Hc.
    replace ((l ++ m ++ r1) ++ String c r2) with (l ++ m ++ r1 ++ String c r2)
      by (by rewrite !append_assoc).
    replace (len (l ++ m ++ r1)) with (len l + len m + len r1)
      by (rewrite !len_append; lia).
    apply IH; [done|done|done|lia].
Qed.

(** On ASCII text [TrimSpace] removes the leading and the trailing white space. *)
Lemma TrimSpace_ascii (s : string) :
  ascii_only s = true -> TrimSpace s = trim_right (trim_left s).
Proof.
  intros Ha. unfold TrimSpace. rewrite (trim_start_ascii s s 0 Ha).
  destruct (trim_left_split s) as (l & Hl & Hbl).
  destruct (trim_right_split (trim_left s)) as (r & Hr & Hbr).
  set (m := trim_right (trim_left s)) in *.
  assert (Hs : s = l ++ m ++ r ++ EmptyString).
  { rewrite append_empty_r, <- Hr. exact Hl. }
  assert (Hstart : 0 + (len s - len (trim_left s)) = len l).
  { rewrite Hl at 1. rewrite len_append. lia. }
  assert (Hstop : len s = len l + len m + len r).
  { rewrite Hs at 1. rewrite !len_append. change (len EmptyString) with 0. lia. }
  assert (Hlen : String.length s =
                 (String.length l + String.length m + String.length r)%nat).
  { rewrite Hs at 1. rewrite !length_append. simpl. lia. }
  assert (Ham : ascii_only m = true).
  { rewrite Hs, !ascii_only_app in Ha.
    apply andb_true_iff in Ha as [_ Ha]. by apply andb_true_iff in Ha as [Ha _]. }
  rewrite Hstart, Hstop, Hlen. clear Hstart Hstop Hlen Hl Ha. rewrite Hs.
  apply trim_stop_ascii.
  - done.
  - done.
  - intros c. apply trim_right_last.
  - lia.
Qed.

(** What is left has no white space at either end and differs from the
    text by blank ends only. *)
Lemma trim_ends (s : string) :
  let t := trim_right (trim_left s) in
  (exists l r, s = l ++ t ++ r /\ blank l = true /\ blank r = true) /\
  (forall c rest, t = String c rest -> asciiSpace c = false) /\
  (forall c, last_byte t = Some c -> asciiSpace c = false).
Proof.
  intros t. subst t. split; [|split].
  - destruct (trim_left_split s) as (l & Hl & Hbl).
    destruct (trim_right_split (trim_left s)) as (r & Hr & Hbr).
    exists l, r. by rewrite <- Hr.
  - intros c rest Ht.
    destruct (trim_left s) as [|d u] eqn:Hu; [discriminate|].
    pose proof (trim_left_first s d u Hu) as Hd.
    simpl in Ht. destruct (trim_right u); [rewrite Hd in Ht|];
      injection Ht as <- _; exact Hd.
  - intros c. apply trim_right_last.
Qed.

(** The keys [loadBlacklist] of the tunnel proxy stores are the trimmed
    lines, all of them. *)
Lemma tunnel_stored (lines : list string) (bl : gmap string bool) (e : string) :
  is_Some (foldl (fun bl text => <[TrimSpace text := true]> bl) bl lines !! e) <->
  is_Some (bl !! e) \/ e ∈ TrimSpace <$> lines.
Proof.
  revert bl; induction lines as [|l lines IH]; intros bl; simpl.
  - split; [auto|]. intros [H|H]; [done|]. by apply elem_of_nil in H.
  - rewrite IH, elem_of_cons. split.
    + intros [H|H]; [|auto].
      destruct (decide (TrimSpace l = e)) as [<-|Hne]; [auto|].
      rewrite lookup_insert_ne in H by done. auto.
    + intros [H|[->|H]]; [| |auto].
      * left. destruct (decide (TrimSpace l = e)) as [<-|Hne].
        -- rewrite lookup_insert_eq. eauto.
        -- by rewrite lookup_insert_ne.
      * left. rewrite lookup_insert_eq. eauto.
Qed.

(** The keys [loadBlacklist] of the forwarder stores are the trimmed lines
    that are not empty. *)
Lemma forward_stored (lines : list string) (bl : gmap string unit) (e : string) :
  is_Some (foldl (fun bl text =>
                    let line := TrimSpace text in
                    if negb (String.eqb line EmptyString)
                    then <[line := tt]> bl else bl) bl lines !! e) <->
  is_Some (bl !! e) \/ (e <> EmptyString /\ e ∈ TrimSpace <$> lines).
Proof.
  revert bl; induction lines as [|l lines IH]; intros bl; simpl.
  - split; [auto|]. intros [H|[_ H]]; [done|]. by apply elem_of_nil in H.
  - rewrite IH, elem_of_cons.
    destruct (String.eqb (TrimSpace l) EmptyString) eqn:Hl; simpl.
    + apply String.eqb_eq in Hl. split.
      * intros [H|[Hne H]]; auto.
      * intros [H|[Hne [->|H]]]; auto. congruence.
    + apply String.eqb_neq in Hl. split.
      * intros [H|[Hne H]]; [|auto].
        destruct (decide (TrimSpace l = e)) as [<-|Hne]; [auto|].
        rewrite lookup_insert_ne in H by done. auto.
      * intros [H|[Hne [->|H]]]; [| |auto].
        -- left. destruct (decide (TrimSpace l = e)) as [<-|Hne].
           ++ rewrite lookup_insert_eq. eauto.
           ++ by rewrite lookup_insert_ne.
        -- left. rewrite lookup_insert_eq. eauto.
Qed.

(** On the forwarder no file makes the empty string an entry, and every
    entry is the trimmed text of a line of the file. *)
Lemma forward_loadBlacklist_entries (fs : string -> file) (e : string) :
  is_Some ((Forward.loadBlacklist fs ∅).1 !! e) ->
  e <> EmptyString /\
  exists data rerr, fs "blacklist.txt" = Opened data rerr /\
                    e ∈ TrimSpace <$> (Scan data rerr).1.
Proof.
  unfold Forward.loadBlacklist.
  destruct (fs "blacklist.txt") as [err|data rerr]; simpl.
  - rewrite lookup_empty. by intros [x Hx].
  - destruct (Scan data rerr) as [lines err] eqn:HS. simpl.
    intros [H|[Hne H]]%forward_stored.
    + rewrite lookup_empty in H. by destruct H.
    + split; [done|]. exists data, rerr. by rewrite HS.
Qed.

(** On the tunnel proxy every line of the file leaves its trimmed text as
    an entry, the empty string for a blank line. *)
Lemma tunnel_loadBlacklist_entries (fs : string -> file) (name data : string)
    (rerr : option error) (bl : gmap string bool) (line : string) :
  fs name = Opened data rerr ->
  line ∈ (Scan data rerr).1 ->
  is_Some ((Tunnel.loadBlacklist fs name bl).1 !! TrimSpace line).
Proof.
  intros Hfs Hl. unfold Tunnel.loadBlacklist. rewrite Hfs.
  destruct (Scan data rerr) as [lines err]. simpl in *.
  apply tunnel_stored. right. by apply list_elem_of_fmap_2.
Qed.

(** A blank line anywhere in the file makes the tunnel proxy block every
    host. *)
Lemma tunnel_blank_line_blocks_all (fs : string -> file) (name data : string)
    (rerr : option error) (bl : gmap string bool) (line host : string) :
  fs name = Opened data rerr ->
  line ∈ (Scan data rerr).1 ->
  blank line = true ->
  Tunnel.isBlocked (Tunnel.loadBlacklist fs name bl).1 host = true.
Proof.
  intros Hfs Hl Hb. apply isBlocked_true. exists EmptyString. split.
  - rewrite <- (TrimSpace_blank line Hb).
    by apply (tunnel_loadBlacklist_entries fs name data rerr).
  - by exists host.
Qed.

End LoadBlacklist.

(** C4: a policy file with a blank line, loaded by the tunnel proxy: the
    empty string becomes an entry (and every host is blocked from then
    on), where the forwarder's loader stores nothing for that line. *)
Theorem C4_tunnel_stores_blank_line :
  let fs := fun _ : string => Go.Opened ("blocked.example" ++ LF ++ LF) None in
  let bl := (Tunnel.loadBlacklist fs "blacklist.txt" ∅).1 in
  (Go.Scan ("blocked.example" ++ LF ++ LF) None).1 = ["blocked.example"; EmptyString] /\
  (Tunnel.loadBlacklist fs "blacklist.txt" ∅).2 = None /\
  bl !! EmptyString = Some true /\
  Tunnel.isBlocked bl "allowed.example:443" = true /\
  (Forward.loadBlacklist fs ∅).1 !! EmptyString = None /\
  (Forward.loadBlacklist fs ∅).1 !! "blocked.example" = Some tt.
Proof. vm_compute. repeat split. Qed.

(** ** Metered transport *)

Section Metered.
Import Go Obs.

Lemma no_wrap_add (old n : Z) :
  no_wrap old n -> AddInt64 old (int64 n) = old + n.
Proof.
  intros (Hn & Ho & Hs). apply AddInt64_exact; unfold MinInt64, MaxInt64 in *; lia.
Qed.

Lemma no_wrap_grows (old n : Z) :
  no_wrap old n -> old <= AddInt64 old (int64 n) /\ 0 <= AddInt64 old (int64 n).
Proof.
  intros H. rewrite (no_wrap_add _ _ H). destruct H as (Hn & Ho & Hs). lia.
Qed.

Context {W C : Type} `{!Reader W C} `{!Writer W C}.

Lemma tunnel_Write_eq (c : Tunnel.countingConn C) (b : string) (w : W) :
  Tunnel.countingConn_Write c b w =
  ((Write (Tunnel.Conn c) b w).1,
   Tunnel.mkCountingConn (Tunnel.Conn c)
     (AddInt64 (Tunnel.bytesWritten c) (int64 (Write (Tunnel.Conn c) b w).1.1))
     (Tunnel.bytesRead c),
   (Write (Tunnel.Conn c) b w).2).
Proof.
  unfold Tunnel.countingConn_Write.
  by destruct (Write (Tunnel.Conn c) b w) as [[n err] w'].
Qed.

Lemma tunnel_Read_eq (c : Tunnel.countingConn C) (lenb : Z) (w : W) :
  Tunnel.countingConn_Read c lenb w =
  ((Read (Tunnel.Conn c) lenb w).1.1, (Read (Tunnel.Conn c) lenb w).1.2,
   Tunnel.mkCountingConn (Tunnel.Conn c) (Tunnel.bytesWritten c)
     (AddInt64 (Tunnel.bytesRead c) (int64 (Read (Tunnel.Conn c) lenb w).1.1.1)),
   (Read (Tunnel.Conn c) lenb w).2).
Proof.
  unfold Tunnel.countingConn_Read.
  by destruct (Read (Tunnel.Conn c) lenb w) as [[[n err] buf] w'].
Qed.

Lemma forward_Write_eq (c : Forward.countingWriter C) (p : string) (w : W) :
  Forward.countingWriter_Write c p w =
  ((Write (Forward.writer c) p w).1,
   Forward.mkCountingWriter (Forward.writer c)
     (AddInt64 (Forward.bytesWritten c) (int64 (Write (Forward.writer c) p w).1.1)),
   (Write (Forward.writer c) p w).2).
Proof.
  unfold Forward.countingWriter_Write.
  by destruct (Write (Forward.writer c) p w) as [[n err] w'].
Qed.

Lemma forward_Read_eq (c : Forward.countingReader C) (lenp : Z) (w : W) :
  Forward.countingReader_Read c lenp w =
  ((Read (Forward.reader c) lenp w).1.1, (Read (Forward.reader c) lenp w).1.2,
   Forward.mkCountingReader (Forward.reader c)
     (AddInt64 (Forward.bytesRead c) (int64 (Read (Forward.reader c) lenp w).1.1.1)),
   (Read (Forward.reader c) lenp w).2).
Proof.
  unfold Forward.countingReader_Read.
  by destruct (Read (Forward.reader c) lenp w) as [[[n err] buf] w'].
Qed.

(** The counter after a run of writes is the 64-bit sum of the counts
    the writer reported. *)
Lemma write_all_counter (ps : list string) (c : Forward.countingWriter C) (w : W) :
  Forward.bytesWritten (write_all c ps w).2 =
  foldl (fun acc n => AddInt64 acc (int64 n)) (Forward.bytesWritten c)
        (write_all c ps w).1.
Proof.
  revert c w; induction ps as [|p ps IH]; intros c w; simpl; [done|].
  rewrite forward_Write_eq.
  destruct (Write (Forward.writer c) p w) as [[n err] w'] eqn:Hw. simpl.
  specialize (IH (Forward.mkCountingWriter (Forward.writer c)
                    (AddInt64 (Forward.bytesWritten c) (int64 n))) w').
  destruct (write_all _ ps w') as [ns c'']. simpl in *. done.
Qed.

Lemma foldl_AddInt64_sum (ns : list Z) (c : Z) :
  Forall (fun n => 0 <= n) ns -> 0 <= c -> c + sum ns <= MaxInt64 ->
  foldl (fun acc n => AddInt64 acc (int64 n)) c ns = c + sum ns.
Proof.
  revert c; induction ns as [|n ns IH]; intros c Hns Hc Hs; simpl in *; [lia|].
  apply Forall_cons in Hns as [Hn Hns].
  assert (0 <= sum ns).
  { clear -Hns. induction Hns; simpl; [lia|]. unfold sum in *. simpl. lia. }
  rewrite no_wrap_add by (unfold no_wrap; lia).
  rewrite IH; [lia|done|lia|lia].
Qed.

(** After a run of writes that report [N] bytes in all, zero-length and
    partial writes included, the counter of a fresh wrapper is [N]. *)
Lemma write_all_total (ps : list string) (wr : C) (w : W) :
  let '(ns, c) := write_all (Forward.mkCountingWriter wr 0) ps w in
  Forall (fun n => 0 <= n) ns -> sum ns <= MaxInt64 ->
  Forward.bytesWritten c = sum ns.
Proof.
  pose proof (write_all_counter ps (Forward.mkCountingWriter wr 0) w) as H.
  destruct (write_all _ ps w) as [ns c]. simpl in *. intros Hns Hs.
  rewrite H, foldl_AddInt64_sum; [lia|done|lia|lia].
Qed.

End Metered.

(** C3 (as amended): each call of [Read] or [Write] on a metered stream
    returns what the underlying call returned and adds to its counter, in
    64-bit arithmetic, exactly the count [n] that call reported, whether or
    not the call also returned an error; the other counter is left as it
    was.  So a partial transfer reported together with an error is counted
    too, and the counter only moves when [n] is not zero. *)
Theorem C3_counter_adds_reported_count {W C : Type}
    `{!Go.Reader W C} `{!Go.Writer W C}
    (c : Tunnel.countingConn C) (cw : Forward.countingWriter C)
    (cr : Forward.countingReader C) (b : string) (lenb : Z) (w : W) :
  let wr := Go.Write (Tunnel.Conn c) b w in
  let rd := Go.Read (Tunnel.Conn c) lenb w in
  let fw := Go.Write (Forward.writer cw) b w in
  let fr := Go.Read (Forward.reader cr) lenb w in
  ((Tunnel.countingConn_Write c b w).1.1 = wr.1 /\
   Tunnel.bytesWritten (Tunnel.countingConn_Write c b w).1.2 =
     Go.AddInt64 (Tunnel.bytesWritten c) (Go.int64 wr.1.1) /\
   Tunnel.bytesRead (Tunnel.countingConn_Write c b w).1.2 = Tunnel.bytesRead c) /\
  ((Tunnel.countingConn_Read c lenb w).1.1.1 = rd.1.1 /\
   Tunnel.bytesRead (Tunnel.countingConn_Read c lenb w).1.2 =
     Go.AddInt64 (Tunnel.bytesRead c) (Go.int64 rd.1.1.1) /\
   Tunnel.bytesWritten (Tunnel.countingConn_Read c lenb w).1.2 =
     Tunnel.bytesWritten c) /\
  ((Forward.countingWriter_Write cw b w).1.1 = fw.1 /\
   Forward.bytesWritten (Forward.countingWriter_Write cw b w).1.2 =
     Go.AddInt64 (Forward.bytesWritten cw) (Go.int64 fw.1.1)) /\
  ((Forward.countingReader_Read cr lenb w).1.1.1 = fr.1.1 /\
   Forward.bytesRead (Forward.countingReader_Read cr lenb w).1.2 =
     Go.AddInt64 (Forward.bytesRead cr) (Go.int64 fr.1.1.1)) /\
  (forall old n, Obs.no_wrap old n -> Go.AddInt64 old (Go.int64 n) = old + n) /\
  (forall old n, Go.MinInt64 <= old <= Go.MaxInt64 ->
                 Go.AddInt64 old (Go.int64 n) <> old -> n <> 0).
Proof.
  cbv zeta.
  rewrite tunnel_Write_eq, tunnel_Read_eq, forward_Write_eq, forward_Read_eq.
  simpl. repeat split.
  - apply no_wrap_add.
  - intros old n Hold Hne ->. by rewrite AddInt64_zero in Hne.
Qed.

(** C3 at a write of five bytes of which the peer takes two before it
    resets the connection. *)
Lemma C3_counter_adds_reported_count_witness :
  Forward.bytesWritten
    (Forward.countingWriter_Write (Forward.mkCountingWriter Go.ResetConn 40)
       "hello" (2, EmptyString)).1.2 = 42.
Proof.
  pose proof (C3_counter_adds_reported_count
                (Tunnel.mkCountingConn Go.ResetConn 0 0)
                (Forward.mkCountingWriter Go.ResetConn 40)
                (Forward.mkCountingReader Go.ResetConn 0)
                "hello" 8 (2, EmptyString)) as H.
  cbv zeta in H. destruct H as (_ & _ & [_ Hw] & _ & Hadd & _).
  rewrite Hw. apply (Hadd 40 2). unfold Obs.no_wrap, Go.MaxInt64. lia.
Defined.

(** C3 as stated fails: a call that returns an error still moves the
    counter when it reports bytes.  The write returns [n = 2] and an error,
    the read returns [n = 3] and [io.EOF], and both are counted. *)
Lemma C3_counted_on_error :
  let cw := Forward.mkCountingWriter Go.ResetConn 0 in
  let cr := Forward.mkCountingReader Go.ResetConn 0 in
  let w := (2, "abc") in
  (Forward.countingWriter_Write cw "hello" w).1.1 =
    (2, Some (Go.OSError "connection reset by peer")) /\
  Forward.bytesWritten (Forward.countingWriter_Write cw "hello" w).1.2 = 2 /\
  (Forward.countingReader_Read cr 8 w).1.1.1 = (3, Some Go.EOF) /\
  Forward.bytesRead (Forward.countingReader_Read cr 8 w).1.2 = 3.
Proof. vm_compute. repeat split. Qed.

(** C7: a call of [Read] or [Write] on a metered stream never lowers a
    counter and never takes it below zero, the underlying stream reporting
    a count that is not negative and the total staying within [int64]. *)
Theorem C7_counters_never_decrease {W C : Type}
    `{!Go.Reader W C} `{!Go.Writer W C}
    (c : Tunnel.countingConn C) (cw : Forward.countingWriter C)
    (cr : Forward.countingReader C) (b : string) (lenb : Z) (w : W) :
  (Obs.no_wrap (Tunnel.bytesWritten c) (Go.Write (Tunnel.Conn c) b w).1.1 ->
   0 <= Tunnel.bytesRead c ->
   let c' := (Tunnel.countingConn_Write c b w).1.2 in
   Tunnel.bytesWritten c <= Tunnel.bytesWritten c' /\
   Tunnel.bytesRead c <= Tunnel.bytesRead c' /\
   0 <= Tunnel.bytesWritten c' /\ 0 <= Tunnel.bytesRead c') /\
  (Obs.no_wrap (Tunnel.bytesRead c) (Go.Read (Tunnel.Conn c) lenb w).1.1.1 ->
   0 <= Tunnel.bytesWritten c ->
   let c' := (Tunnel.countingConn_Read c lenb w).1.2 in
   Tunnel.bytesWritten c <= Tunnel.bytesWritten c' /\
   Tunnel.bytesRead c <= Tunnel.bytesRead c' /\
   0 <= Tunnel.bytesWritten c' /\ 0 <= Tunnel.bytesRead c') /\
  (Obs.no_wrap (Forward.bytesWritten cw) (Go.Write (Forward.writer cw) b w).1.1 ->
   let c' := (Forward.countingWriter_Write cw b w).1.2 in
   Forward.bytesWritten cw <= Forward.bytesWritten c' /\
   0 <= Forward.bytesWritten c') /\
  (Obs.no_wrap (Forward.bytesRead cr) (Go.Read (Forward.reader cr) lenb w).1.1.1 ->
   let c' := (Forward.countingReader_Read cr lenb w).1.2 in
   Forward.bytesRead cr <= Forward.bytesRead c' /\
   0 <= Forward.bytesRead c').
Proof.
  rewrite tunnel_Write_eq, tunnel_Read_eq, forward_Write_eq, forward_Read_eq.
  simpl. repeat split; try (apply no_wrap_grows; assumption); try lia.
Qed.

(** C7 at a socket that holds three bytes: a write of five bytes, a read
    into a buffer of eight. *)
Lemma C7_counters_never_decrease_witness :
  let w := Go.mkNet (Go.mkSocket "abc" None EmptyString false)
                    (Go.mkSocket EmptyString None EmptyString false) in
  10 <= Tunnel.bytesWritten
          (Tunnel.countingConn_Write (Tunnel.mkCountingConn Go.ClientSock 10 7)
                                     "hello" w).1.2 /\
  7 <= Tunnel.bytesRead
         (Tunnel.countingConn_Read (Tunnel.mkCountingConn Go.ClientSock 10 7) 8 w).1.2 /\
  4 <= Forward.bytesWritten
         (Forward.countingWriter_Write (Forward.mkCountingWriter Go.TargetSock 4)
                                       "hello" w).1.2 /\
  0 <= Forward.bytesRead
         (Forward.countingReader_Read (Forward.mkCountingReader Go.ClientSock 0) 8 w).1.2.
Proof.
  intros w.
  pose proof (C7_counters_never_decrease
                (Tunnel.mkCountingConn Go.ClientSock 10 7)
                (Forward.mkCountingWriter Go.TargetSock 4)
                (Forward.mkCountingReader Go.ClientSock 0) "hello" 8 w)
    as (Hw & Hr & Hfw & Hfr).
  assert (Hmax : Go.MaxInt64 = 9223372036854775807) by reflexivity.
  repeat split.
  - apply Hw; [|simpl; lia]. unfold Obs.no_wrap. rewrite Hmax. vm_compute.
    repeat split; discriminate.
  - apply Hr; [|simpl; lia]. unfold Obs.no_wrap. rewrite Hmax. vm_compute.
    repeat split; discriminate.
  - apply Hfw. unfold Obs.no_wrap. rewrite Hmax. vm_compute.
    repeat split; discriminate.
  - apply Hfr. unfold Obs.no_wrap. rewrite Hmax. vm_compute.
    repeat split; discriminate.
Defined.

(** C7 without the bound: the counters are [int64] and [atomic.AddInt64]
    wraps, so on a counter that stands at [MaxInt64] a [Write], or a
    [Read], of one byte that succeeds takes the counter to [MinInt64],
    below its value before the call and below zero. *)
Lemma C7_counter_wraps_at_MaxInt64 :
  let w := Go.mkNet (Go.mkSocket "a" None EmptyString false)
                    (Go.mkSocket EmptyString None EmptyString false) in
  let cw := Forward.mkCountingWriter Go.TargetSock Go.MaxInt64 in
  let cr := Forward.mkCountingReader Go.ClientSock Go.MaxInt64 in
  let c := Tunnel.mkCountingConn Go.ClientSock Go.MaxInt64 Go.MaxInt64 in
  ((Forward.countingWriter_Write cw "a" w).1.1 = (1, None) /\
   Forward.bytesWritten (Forward.countingWriter_Write cw "a" w).1.2 = Go.MinInt64 /\
   Forward.bytesWritten (Forward.countingWriter_Write cw "a" w).1.2
     < Forward.bytesWritten cw /\
   Forward.bytesWritten (Forward.countingWriter_Write cw "a" w).1.2 < 0) /\
  ((Forward.countingReader_Read cr 8 w).1.1.1 = (1, None) /\
   Forward.bytesRead (Forward.countingReader_Read cr 8 w).1.2 < Forward.bytesRead cr /\
   Forward.bytesRead (Forward.countingReader_Read cr 8 w).1.2 < 0) /\
  ((Tunnel.countingConn_Write c "a" w).1.1 = (1, None) /\
   Tunnel.bytesWritten (Tunnel.countingConn_Write c "a" w).1.2 < Tunnel.bytesWritten c /\
   Tunnel.bytesWritten (Tunnel.countingConn_Write c "a" w).1.2 < 0) /\
  ((Tunnel.countingConn_Read c 8 w).1.1.1 = (1, None) /\
   Tunnel.bytesRead (Tunnel.countingConn_Read c 8 w).1.2 < Tunnel.bytesRead c /\
   Tunnel.bytesRead (Tunnel.countingConn_Read c 8 w).1.2 < 0).
Proof. vm_compute. repeat split. Qed.

(** ** The CONNECT handshake *)

Section Connect.
Import Go Obs.
Local Open Scope go_scope.

Variable ParseIP : string -> option IP.

(** [extractIPv4FromRemoteAddr] writes one log line and nothing else. *)
Lemma extract_trace (remoteAddr : string) :
  exists host,
    (Tunnel.extractIPv4FromRemoteAddr ParseIP remoteAddr).1 =
    [Log "remoteAddr: %s, host: %s" [VStr remoteAddr; VStr host]].
Proof.
  unfold Tunnel.extractIPv4FromRemoteAddr.
  destruct (SplitHostPort remoteAddr) as [[host port] err].
  exists host. destruct err as [e|]; [done|].
  destruct (ParseIP host) as [ip|]; [|done].
  case_bool_decide; [done|].
  by destruct (IsLoopback ip && HasPrefix (IP_String ip) "::ffff:").
Qed.

Lemma CONNECT_eqb (m : string) : m = "CONNECT" -> String.eqb m "CONNECT" = true.
Proof. intros ->. reflexivity. Qed.

(** The handshake of a CONNECT request for a blocked host. *)
Lemma handshake_blocked (bl : gmap string bool) (world : Tunnel.env)
    (client : conn) (req : Tunnel.Request) :
  Tunnel.ReadRequest world client = inl req ->
  Tunnel.Method req = "CONNECT" ->
  Tunnel.isBlocked bl (Tunnel.URL_Host req) = true ->
  exists logs,
    Forall (fun e => is_log e = true) logs /\
    Tunnel.handleClientConnection ParseIP bl world client =
    ((logs ++ [ConnWrite client teapot; ConnClose client])%list, Tunnel.Returned).
Proof.
  intros Hreq Hm Hb.
  unfold Tunnel.handleClientConnection, Tunnel.handshake.
  destruct (extract_trace (RemoteAddr client)) as [host Ht].
  destruct (Tunnel.extractIPv4FromRemoteAddr ParseIP (RemoteAddr client))
    as [t0 remoteAddr]. simpl in Ht. subst t0.
  rewrite Hreq, (CONNECT_eqb _ Hm), Hb. simpl.
  eexists [_; _; _; _]. split; [|reflexivity].
  repeat constructor.
Qed.

(** The handshake of a CONNECT request for a host that is not blocked:
    one dial, at [hostPort] with [":443"] added when it has no colon. *)
Lemma handshake_dials (bl : gmap string bool) (world : Tunnel.env)
    (client : conn) (req : Tunnel.Request) :
  Tunnel.ReadRequest world client = inl req ->
  Tunnel.Method req = "CONNECT" ->
  Tunnel.isBlocked bl (Tunnel.URL_Host req) = false ->
  dial_events (Tunnel.handleClientConnection ParseIP bl world client).1 =
  [NetDial "tcp" (if Contains (Tunnel.URL_Host req) ":"
                  then Tunnel.URL_Host req
                  else Tunnel.URL_Host req ++ ":443")].
Proof.
  intros Hreq Hm Hb.
  unfold Tunnel.handleClientConnection, Tunnel.handshake.
  destruct (extract_trace (RemoteAddr client)) as [host Ht].
  destruct (Tunnel.extractIPv4FromRemoteAddr ParseIP (RemoteAddr client))
    as [t0 remoteAddr]. simpl in Ht. subst t0.
  rewrite Hreq, (CONNECT_eqb _ Hm), Hb. simpl.
  destruct (Contains (Tunnel.URL_Host req) ":"); simpl;
    match goal with
    | |- context [Tunnel.Dial ?w ?n ?a] => destruct (Tunnel.Dial w n a)
    end; reflexivity.
Qed.

Lemma network_events_logs (logs rest : list event) :
  Forall (fun e => is_log e = true) logs ->
  network_events (logs ++ rest) = network_events rest.
Proof.
  unfold network_events. intros H. rewrite List.filter_app.
  induction H as [|e logs He _ IH]; [done|]. simpl. by rewrite He.
Qed.

Lemma dial_events_logs (logs rest : list event) :
  Forall (fun e => is_log e = true) logs ->
  dial_events (logs ++ rest) = dial_events rest.
Proof.
  unfold dial_events. intros H. rewrite List.filter_app.
  induction H as [|e logs He _ IH]; [done|]. simpl.
  destruct e; try discriminate He; done.
Qed.

End Connect.

(** C5: in the CONNECT handler a request whose target host the policy
    blocks gets exactly the bytes [HTTP/1.1 418 I'm a teapot\r\n\r\n]
    written to the client, the client connection is then closed, the
    handler returns, and no dial is attempted. *)
Theorem C5_blocked_connect_gets_teapot (ParseIP : string -> option Go.IP)
    (bl : gmap string bool) (world : Tunnel.env) (client : Go.conn)
    (req : Tunnel.Request) :
  Tunnel.ReadRequest world client = inl req ->
  Tunnel.Method req = "CONNECT" ->
  Tunnel.isBlocked bl (Tunnel.URL_Host req) = true ->
  let '(t, o) := Tunnel.handleClientConnection ParseIP bl world client in
  o = Tunnel.Returned /\
  Obs.network_events t =
    [Go.ConnWrite client
       ("HTTP/1.1 418 I'm a teapot" ++
        String "013" (String "010" (String "013" (String "010" EmptyString))));
     Go.ConnClose client] /\
  Obs.dial_events t = [].
Proof.
  intros Hreq Hm Hb.
  destruct (handshake_blocked ParseIP bl world client req Hreq Hm Hb)
    as (logs & Hlogs & ->).
  split; [done|].
  rewrite network_events_logs, dial_events_logs by done. split; reflexivity.
Qed.

(** C5 at the request [CONNECT blocked.example:443] against a policy that
    holds [blocked.example]. *)
Lemma C5_blocked_connect_gets_teapot_witness :
  let client := Go.mkConn 3 "10.0.0.1:5555" in
  let world := Tunnel.mkEnv
                 (fun _ => inl (Tunnel.mkRequest "CONNECT" "blocked.example:443"))
                 (fun _ a => inl (Go.mkConn 9 a)) in
  Obs.dial_events
    (Tunnel.handleClientConnection (fun _ => None) {[ "blocked.example" := true ]}
       world client).1 = [].
Proof.
  intros client world.
  pose proof (C5_blocked_connect_gets_teapot (fun _ => None)
                {[ "blocked.example" := true ]} world client
                (Tunnel.mkRequest "CONNECT" "blocked.example:443")
                eq_refl eq_refl eq_refl) as H.
  destruct (Tunnel.handleClientConnection _ _ world client) as [t o].
  exact (proj2 (proj2 H)).
Defined.

(** C6: in the CONNECT handler a target host that is not blocked is dialed
    once: on port 443 when its text has no colon, as it stands when it has
    one. *)
Theorem C6_default_port (ParseIP : string -> option Go.IP)
    (bl : gmap string bool) (world : Tunnel.env) (client : Go.conn)
    (req : Tunnel.Request) :
  Tunnel.ReadRequest world client = inl req ->
  Tunnel.Method req = "CONNECT" ->
  Tunnel.isBlocked bl (Tunnel.URL_Host req) = false ->
  let t := (Tunnel.handleClientConnection ParseIP bl world client).1 in
  ((forall l r, Tunnel.URL_Host req <> l ++ ":" ++ r) ->
     Obs.dial_events t = [Go.NetDial "tcp" (Tunnel.URL_Host req ++ ":443")]) /\
  ((exists l r, Tunnel.URL_Host req = l ++ ":" ++ r) ->
     Obs.dial_events t = [Go.NetDial "tcp" (Tunnel.URL_Host req)]).
Proof.
  intros Hreq Hm Hb t. subst t.
  rewrite (handshake_dials ParseIP bl world client req Hreq Hm Hb).
  split.
  - intros Hno. destruct (Go.Contains (Tunnel.URL_Host req) ":") eqn:Hc; [|done].
    apply Contains_spec in Hc as (l & r & Hc). by destruct (Hno l r).
  - intros Hc%Contains_spec. by rewrite Hc.
Qed.

(** C6 at the requests [CONNECT allowed.example] and
    [CONNECT allowed.example:8443]. *)
Lemma C6_default_port_witness :
  let client := Go.mkConn 3 "10.0.0.1:5555" in
  let world h := Tunnel.mkEnv (fun _ => inl (Tunnel.mkRequest "CONNECT" h))
                              (fun _ a => inl (Go.mkConn 9 a)) in
  let bl : gmap string bool := {[ "blocked.example" := true ]} in
  Obs.dial_events
    (Tunnel.handleClientConnection (fun _ => None) bl
       (world "allowed.example") client).1 =
    [Go.NetDial "tcp" "allowed.example:443"] /\
  Obs.dial_events
    (Tunnel.handleClientConnection (fun _ => None) bl
       (world "allowed.example:8443") client).1 =
    [Go.NetDial "tcp" "allowed.example:8443"].
Proof.
  intros client world bl. split.
  - apply (C6_default_port (fun _ => None) bl (world "allowed.example") client
             (Tunnel.mkRequest "CONNECT" "allowed.example")
             eq_refl eq_refl eq_refl).
    intros l r Hc.
    assert (Go.Contains "allowed.example" ":" = true) as Hf
      by (apply Contains_spec; eauto).
    discriminate Hf.
  - apply (C6_default_port (fun _ => None) bl (world "allowed.example:8443") client
             (Tunnel.mkRequest "CONNECT" "allowed.example:8443")
             eq_refl eq_refl eq_refl).
    exists "allowed.example", "8443". reflexivity.
Defined.

(** ** The SOCKS listener *)


Section Socks.
Import Go Obs.
Local Open Scope go_scope.


Variable blacklist : gmap string unit.
Variable world : Forward.env.



End Socks.



(** ** The client address in the log lines *)

Section RemoteAddr.
Import Go Obs.

Lemma byte_val_inj (a b : Byte.byte) : byte_val a = byte_val b -> a = b.
Proof.
  unfold byte_val. intros H. apply N2Z.inj in H.
  assert (Some a = Some b) as Hs
    by (rewrite <- (Byte.of_to_N a), <- (Byte.of_to_N b); by rewrite H).
  by injection Hs.
Qed.

Lemma bytes_eqb_eq (a b : IP) : bytes_eqb a b = true -> a = b.
Proof.
  unfold bytes_eqb. intros H. apply bool_decide_eq_true in H.
  revert b H; induction a as [|x a IH]; intros [|y b] H; simpl in *;
    try discriminate; [done|].
  injection H as Hxy Hab. f_equal; [by apply byte_val_inj|by apply IH].
Qed.

(** An address that is not IPv4 and is a loopback address is [::1]. *)
Lemma loopback_not_v4 (ip : IP) :
  To4 ip = None -> IsLoopback ip = true -> ip = IPv6loopback.
Proof.
  unfold IsLoopback. intros H4. rewrite H4. unfold IP_Equal.
  destruct (length ip =? length IPv6loopback)%nat eqn:Hlen.
  - apply bytes_eqb_eq.
  - unfold To4 in H4.
    destruct (length ip =? IPv4len)%nat eqn:Hl4; [discriminate|].
    change (length IPv6loopback) with IPv6len.
    change (IPv6len =? IPv4len)%nat with false.
    by rewrite andb_false_l, andb_false_r.
Qed.

(** The guard of the last branch of [extractIPv4FromRemoteAddr] is false
    whenever the test [ip.To4() != nil] before it has failed. *)
Lemma mapped_branch_dead (ip : IP) :
  To4 ip = None ->
  IsLoopback ip && HasPrefix (IP_String ip) "::ffff:" = false.
Proof.
  intros H4. destruct (IsLoopback ip) eqn:Hl; [|done].
  by rewrite (loopback_not_v4 ip H4 Hl).
Qed.

(** The text of an address that has a 4-byte form is a dotted quad. *)
Lemma IP_String_v4 (ip p4 : IP) :
  To4 ip = Some p4 ->
  IP_String ip = dotted_quad (ip_at p4 0) (ip_at p4 1) (ip_at p4 2) (ip_at p4 3).
Proof.
  intros H4. unfold IP_String. rewrite H4. unfold To4 in H4.
  destruct (length ip =? IPv4len)%nat eqn:Hl4.
  - apply Nat.eqb_eq in Hl4. rewrite Hl4. reflexivity.
  - destruct (length ip =? IPv6len)%nat eqn:Hl6; [|discriminate].
    apply Nat.eqb_eq in Hl6. rewrite Hl6. reflexivity.
Qed.

End RemoteAddr.

(** C10: [extractIPv4FromRemoteAddr] returns its input or the dotted-quad
    text of four bytes, whatever [net.ParseIP] makes of the host; and the
    guard of the branch that strips ["::ffff:"] is false for every address
    that reaches it, that is, for every address for which [To4()] is nil. *)
Theorem C10_extract_input_or_dotted_quad
    (ParseIP : string -> option Go.IP) (remoteAddr : string) :
  let r := (Tunnel.extractIPv4FromRemoteAddr ParseIP remoteAddr).2 in
  (r = remoteAddr \/
   exists a b c d : Byte.byte,
     r = Go.dotted_quad (Go.byte_val a) (Go.byte_val b)
                        (Go.byte_val c) (Go.byte_val d)) /\
  (forall ip : Go.IP,
     Go.To4 ip = None ->
     Go.IsLoopback ip && Go.HasPrefix (Go.IP_String ip) "::ffff:" = false).
Proof.
  split; [|apply mapped_branch_dead].
  unfold Tunnel.extractIPv4FromRemoteAddr.
  destruct (Go.SplitHostPort remoteAddr) as [[host port] [err|]]; simpl; [by left|].
  destruct (ParseIP host) as [ip|]; simpl; [|by left].
  case_bool_decide as H4.
  - right. destruct (Go.To4 ip) as [p4|] eqn:Hp4; [|done].
    rewrite (IP_String_v4 ip p4 Hp4). simpl. unfold Go.ip_at. eauto.
  - assert (Go.To4 ip = None) as Hn by (by destruct (Go.To4 ip); [destruct H4|]).
    rewrite (mapped_branch_dead ip Hn). by left.
Qed.

(** C10 at the IPv4-mapped loopback address [::ffff:127.0.0.1], which the
    first branch answers, and at [::1], for which the guard is false. *)
Lemma C10_extract_input_or_dotted_quad_witness :
  let mapped := (Go.v4InV6Prefix ++ [Byte.x7f; Byte.x00; Byte.x00; Byte.x01])%list in
  (Tunnel.extractIPv4FromRemoteAddr (fun _ => Some mapped) "[::ffff:127.0.0.1]:4000").2
    = "127.0.0.1" /\
  Go.IsLoopback Go.IPv6loopback && Go.HasPrefix (Go.IP_String Go.IPv6loopback) "::ffff:"
    = false.
Proof.
  split; [reflexivity|].
  exact (proj2 (C10_extract_input_or_dotted_quad (fun _ => None) EmptyString)
               Go.IPv6loopback eq_refl).
Defined.

(** ** The relay *)

Section RelayFacts.
Import Go Obs.

(** A property kept by every step holds after every schedule. *)
Lemma forward_run_invariant (targetAddr : string) (targetConn : conn)
    (P : Forward.relay_state -> Prop) :
  (forall t s s', P s -> Forward.step targetAddr targetConn t s = Some s' -> P s') ->
  forall sched s, P s -> P (Forward.run targetAddr targetConn sched s).
Proof.
  intros Hstep sched. induction sched as [|t sched IH]; intros s Hs; simpl; [done|].
  apply IH. destruct (Forward.step targetAddr targetConn t s) as [s'|] eqn:Ht; simpl.
  - by apply (Hstep t s).
  - done.
Qed.

Lemma tunnel_run_invariant (remoteAddr : string) (client server : conn)
    (P : Tunnel.relay_state -> Prop) :
  (forall t s s', P s -> Tunnel.step remoteAddr client server t s = Some s' -> P s') ->
  forall sched s, P s -> P (Tunnel.run remoteAddr client server sched s).
Proof.
  intros Hstep sched. induction sched as [|t sched IH]; intros s Hs; simpl; [done|].
  apply IH. destruct (Tunnel.step remoteAddr client server t s) as [s'|] eqn:Ht; simpl.
  - by apply (Hstep t s).
  - done.
Qed.

(** What [Read] and [Write] leave alone, [io.Copy] leaves alone. *)
Lemma copy_step_keeps {S X : Type} (read : Z -> S -> result * string * S)
    (write : string -> S -> result * S) (f : S -> X) :
  (forall n st, f (read n st).2 = f st) ->
  (forall b st, f (write b st).2 = f st) ->
  forall pc st, f (copy_step read write pc st).2 = f st.
Proof.
  intros Hr Hw pc st. unfold copy_step. destruct pc as [|chunk er|err].
  - specialize (Hr copyBufSize st).
    destruct (read copyBufSize st) as [[[nr er] buf] st']. simpl in Hr.
    destruct (0 <? nr); [done|]. by destruct er.
  - specialize (Hw chunk st).
    destruct (write chunk st) as [[nw ew] st']. simpl in Hw.
    destruct ((nw <? 0) || (len chunk <? nw)); simpl.
    + done.
    + destruct ew; [done|]. destruct (negb (len chunk =? nw)); [done|].
      by destruct er.
  - done.
Qed.

(** The goroutine does not touch the handler's position or the trace. *)
Lemma forward_goroutine_step (targetAddr : string) (targetConn : conn)
    (s s' : Forward.relay_state) :
  Forward.step targetAddr targetConn Goroutine s = Some s' ->
  Forward.h_pc s' = Forward.h_pc s /\ Forward.trace s' = Forward.trace s.
Proof.
  unfold Forward.step. destruct (copy_done (Forward.go_pc s)); [discriminate|].
  pose proof (copy_step_keeps Forward.cr_Read Forward.cw_Write
                (fun s => (Forward.h_pc s, Forward.trace s))) as Hkeep.
  specialize (Hkeep
    ltac:(intros n st; unfold Forward.cr_Read; rewrite forward_Read_eq; reflexivity)
    ltac:(intros b st; unfold Forward.cw_Write; rewrite forward_Write_eq; reflexivity)
    (Forward.go_pc s) s).
  destruct (copy_step Forward.cr_Read Forward.cw_Write (Forward.go_pc s) s)
    as [pc st']. simpl in Hkeep. intros [= <-]. simpl.
  by injection Hkeep as -> ->.
Qed.

Lemma forward_handler_inv_run (targetAddr : string) (targetConn : conn)
    (sched : list thread) (w : net_state) :
  forward_handler_inv targetAddr targetConn
    (Forward.run targetAddr targetConn sched (Forward.relay_init w)).
Proof.
  apply forward_run_invariant; [|reflexivity].
  intros [|] s s' Hinv Hstep.
  - unfold forward_handler_inv in *. unfold Forward.step in Hstep.
    destruct (Forward.h_pc s) as [pc| | |] eqn:Hpc.
    + destruct (copy_step _ _ pc (Forward.net s)) as [pc' w'].
      injection Hstep as <-. simpl. by destruct (copy_done pc').
    + injection Hstep as <-. simpl. rewrite Hinv. eauto.
    + injection Hstep as <-. simpl. destruct Hinv as (r & w' & ->). eauto.
    + discriminate.
  - apply forward_goroutine_step in Hstep as [Hpc Htr].
    unfold forward_handler_inv in *. by rewrite Hpc, Htr.
Qed.

(** In the tunnel proxy the two [io.Copy] calls are given [client] and
    [server] themselves, not [clientCounting] and [serverCounting]: the
    counters stay at zero whatever is relayed. *)
Lemma tunnel_counters_unused (remoteAddr : string) (client server : conn)
    (sched : list thread) (w : net_state) :
  let s := Tunnel.run remoteAddr client server sched (Tunnel.relay_init w) in
  Tunnel.bytesWritten (Tunnel.clientCounting s) = 0 /\
  Tunnel.bytesRead (Tunnel.serverCounting s) = 0.
Proof.
  apply (tunnel_run_invariant remoteAddr client server
           (fun s => Tunnel.bytesWritten (Tunnel.clientCounting s) = 0 /\
                     Tunnel.bytesRead (Tunnel.serverCounting s) = 0));
    [|done].
  intros [|] s s' Hinv Hstep; unfold Tunnel.step in Hstep.
  - destruct (Tunnel.h_pc s) as [pc| | | |].
    + destruct (copy_step _ _ pc (Tunnel.net s)) as [pc' w'].
      by injection Hstep as <-.
    + by injection Hstep as <-.
    + by injection Hstep as <-.
    + by injection Hstep as <-.
    + discriminate.
  - destruct (copy_done (Tunnel.go_pc s)); [discriminate|].
    destruct (copy_step _ _ (Tunnel.go_pc s) (Tunnel.net s)) as [pc' w'].
    by injection Hstep as <-.
Qed.

End RelayFacts.

(** C2: the relay of [handleSOCKS] on a connection where the client has
    sent three bytes and the target closes without sending any.  After two
    steps of the handler the totals are logged, as 0 and 0, while the
    goroutine has not made its first read; the goroutine then moves the
    three bytes and both counters end at 3.  When the handler also runs its
    deferred close first, the goroutine still reads (3 counted) and its
    write fails (0 counted).  The relay of [handleClientConnection] logs in
    the same way before its goroutine has started to copy, and the three
    bytes reach the target afterwards. *)
Theorem C2_totals_logged_before_goroutine_finishes :
  let w := Go.mkNet (Go.mkSocket "abc" None EmptyString false)
                    (Go.mkSocket EmptyString None EmptyString false) in
  let targetConn := Go.mkConn 9 "10.0.0.1:5555" in
  let run := Forward.run "10.0.0.1:5555" targetConn in
  let s1 := run [Go.Handler; Go.Handler] (Forward.relay_init w) in
  let s2 := run [Go.Goroutine; Go.Goroutine; Go.Goroutine] s1 in
  let s3 := run [Go.Handler; Go.Goroutine; Go.Goroutine] s1 in
  let client := Go.mkConn 3 "10.0.0.1:5555" in
  let server := Go.mkConn 9 "allowed.example:443" in
  let trun := Tunnel.run "10.0.0.1" client server in
  let t1 := trun [Go.Handler; Go.Handler] (Tunnel.relay_init w) in
  let t2 := trun [Go.Goroutine; Go.Goroutine; Go.Goroutine] t1 in
  (Forward.trace s1 =
     [Go.Log ("SOCKS request to %s transferred %d bytes in and %d bytes out" ++ LF)
             [Go.VStr "10.0.0.1:5555"; Go.VInt 0; Go.VInt 0]] /\
   Forward.go_pc s1 = Go.AtRead /\
   Forward.go_pc s2 = Go.CopyDone None /\
   Forward.bytesRead (Forward.cr s2) = 3 /\
   Forward.bytesWritten (Forward.cw s2) = 3 /\
   Forward.h_pc s3 = Forward.HReturned /\
   Forward.go_pc s3 = Go.CopyDone (Some Go.ErrClosed) /\
   Forward.bytesRead (Forward.cr s3) = 3 /\
   Forward.bytesWritten (Forward.cw s3) = 0) /\
  (Tunnel.trace t1 =
     [Go.Log "[Client %s] Data transferred: sent %d bytes, received %d bytes"
             [Go.VStr "10.0.0.1"; Go.VInt 0; Go.VInt 0]] /\
   Tunnel.go_pc t1 = Go.AtRead /\
   Tunnel.go_pc t2 = Go.CopyDone None /\
   Go.outbox (Go.target_sock (Tunnel.net t2)) = "abc").
Proof. vm_compute. repeat split. Qed.

(** ** More on the host policy and its loading *)

Section PolicyMore.
Import Go Obs.

(** What the loader of the tunnel proxy leaves under a key. *)
Lemma tunnel_stored_lookup (lines : list string) (e : string) :
  foldl (fun bl text => <[TrimSpace text := true]> bl)
        (∅ : gmap string bool) lines !! e =
  if decide (e ∈ TrimSpace <$> lines) then Some true else None.
Proof.
  assert (forall (bl : gmap string bool),
            (forall k v, bl !! k = Some v -> v = true) ->
            forall k v, foldl (fun bl text => <[TrimSpace text := true]> bl) bl lines
                          !! k = Some v -> v = true) as Htrue.
  { induction lines as [|l lines IH]; intros bl Hbl k v; simpl; [apply Hbl|].
    apply IH. intros k' v'. destruct (decide (TrimSpace l = k')) as [<-|Hne].
    - rewrite lookup_insert_eq. by intros [= <-].
    - rewrite lookup_insert_ne by done. apply Hbl. }
  pose proof (tunnel_stored lines ∅ e) as Hs.
  destruct (foldl _ ∅ lines !! e) as [v|] eqn:Hl.
  - rewrite (Htrue ∅ ltac:(intros k v'; by rewrite lookup_empty) e v Hl).
    rewrite decide_True; [done|].
    destruct (proj1 Hs ltac:(eauto)) as [H|H]; [|done].
    rewrite lookup_empty in H. by destruct H.
  - rewrite decide_False; [done|]. intros Hin.
    destruct (proj2 Hs (or_intror Hin)) as [x Hx]. discriminate.
Qed.

Lemma forward_stored_lookup (lines : list string) (e : string) :
  foldl (fun bl text =>
           let line := TrimSpace text in
           if negb (String.eqb line EmptyString) then <[line := tt]> bl else bl)
        (∅ : gmap string unit) lines !! e =
  if decide (e <> EmptyString /\ e ∈ TrimSpace <$> lines) then Some tt else None.
Proof.
  pose proof (forward_stored lines ∅ e) as Hs.
  destruct (foldl _ ∅ lines !! e) as [[]|] eqn:Hl.
  - rewrite decide_True; [done|].
    destruct (proj1 Hs ltac:(eauto)) as [H|H]; [|done].
    rewrite lookup_empty in H. by destruct H.
  - rewrite decide_False; [done|]. intros Hin.
    destruct (proj2 Hs (or_intror Hin)) as [x Hx]. discriminate.
Qed.

Lemma ascii_only_snoc (s : string) (c : ascii) :
  ascii_only (s ++ String c EmptyString) = ascii_only s && (b2z c <? RuneSelf).
Proof. rewrite ascii_only_app. simpl. by rewrite andb_true_r. Qed.

Lemma dropCR_ascii (s : string) : ascii_only s = true -> ascii_only (dropCR s) = true.
Proof.
  induction s as [|c s IH]; [done|]. simpl.
  intros [Hc Hs]%andb_true_iff. destruct s as [|d s].
  - by destruct (Ascii.eqb c "013"); simpl; rewrite ?Hc.
  - change (ascii_only (String c (dropCR (String d s))) = true).
    simpl ascii_only at 1. rewrite Hc. by apply IH.
Qed.

(** The scanner hands out ASCII lines for ASCII data. *)
Lemma scan_from_ascii (data line : string) (rerr : option error) :
  ascii_only data = true -> ascii_only line = true ->
  Forall (fun l => ascii_only l = true) (scan_from data line rerr).1.
Proof.
  revert line; induction data as [|c data IH]; intros line Hd Hl; simpl.
  - destruct (String.eqb line EmptyString); [constructor|].
    destruct (MaxScanTokenSize <=? len line); [constructor|].
    constructor; [by apply dropCR_ascii|constructor].
  - simpl in Hd. apply andb_true_iff in Hd as [Hc Hd].
    destruct (Ascii.eqb c "010").
    + destruct (MaxScanTokenSize <=? len line); [constructor|].
      specialize (IH EmptyString Hd eq_refl).
      destruct (scan_from data EmptyString rerr) as [tokens err]. simpl in *.
      constructor; [by apply dropCR_ascii|done].
    + apply IH; [done|]. by rewrite ascii_only_snoc, Hl, Hc.
Qed.

Lemma Scan_ascii (data : string) (rerr : option error) :
  ascii_only data = true ->
  Forall (fun l => ascii_only l = true) (Scan data rerr).1.
Proof.
  intros Hd. unfold Scan.
  pose proof (scan_from_ascii data EmptyString rerr Hd eq_refl) as H.
  by destruct (scan_from data EmptyString rerr).
Qed.

End PolicyMore.

(** X1: the loop of [isBlocked] gives the same answer in whatever order the
    keys of the map are visited. *)
Theorem X_isBlocked_any_order (bl : gmap string bool) (keys : list string)
    (host : string) :
  keys ≡ₚ (map_to_list bl).*1 ->
  Tunnel.isBlocked_range keys host = Tunnel.isBlocked bl host.
Proof. intros HP. unfold Tunnel.isBlocked. by apply isBlocked_range_order. Qed.

Lemma X_isBlocked_any_order_witness :
  let bl : gmap string bool := {[ "b.example" := true; "a.example" := true ]} in
  Tunnel.isBlocked_range ["a.example"; "b.example"] "b.example:443" =
    Tunnel.isBlocked bl "b.example:443" /\
  Tunnel.isBlocked_range ["b.example"; "a.example"] "b.example:443" =
    Tunnel.isBlocked bl "b.example:443".
Proof.
  intros bl.
  assert (Hk : (map_to_list bl).*1 = ["b.example"; "a.example"] \/
               (map_to_list bl).*1 = ["a.example"; "b.example"])
    by (vm_compute; auto).
  split; apply X_isBlocked_any_order; destruct Hk as [-> | ->];
    first [reflexivity | apply perm_swap].
Defined.

(** X2: adding entries to the policy of the tunnel proxy never unblocks a
    host. *)
Theorem X_isBlocked_monotone (bl bl' : gmap string bool) (host : string) :
  bl ⊆ bl' -> Tunnel.isBlocked bl host = true -> Tunnel.isBlocked bl' host = true.
Proof.
  intros Hsub [e [[v He] Hp]]%isBlocked_true. apply isBlocked_true.
  exists e. split; [|done]. exists v. by apply (lookup_weaken bl bl').
Qed.

Lemma X_isBlocked_monotone_witness :
  Tunnel.isBlocked {[ "b.example" := true; "a.example" := true ]} "a.example:80" = true.
Proof.
  apply (X_isBlocked_monotone {[ "a.example" := true ]}); [|reflexivity].
  apply map_subseteq_spec. intros k v [<- <-]%lookup_singleton_Some. reflexivity.
Defined.

(** X3: a host the exact-match policy of the forwarder blocks is blocked by the
    prefix-match policy of the tunnel proxy over the same entries. *)
Theorem X_exact_match_implies_prefix_match
    (bl : gmap string bool) (bl' : gmap string unit) (host : string) :
  (forall e, is_Some (bl' !! e) -> is_Some (bl !! e)) ->
  Forward.isBlacklisted bl' host = true -> Tunnel.isBlocked bl host = true.
Proof.
  intros Hsame Hb%isBlacklisted_true. apply isBlocked_true.
  exists host. split; [by apply Hsame|]. exists EmptyString.
  by rewrite append_empty_r.
Qed.

Lemma X_exact_match_implies_prefix_match_witness :
  Tunnel.isBlocked {[ "blocked.example" := true ]} "blocked.example" = true.
Proof.
  apply (X_exact_match_implies_prefix_match _ {[ "blocked.example" := tt ]});
    [|reflexivity].
  intros e [u [<- _]%lookup_singleton_Some]. exists true. reflexivity.
Defined.

(** X4: after the forwarder has loaded a file it can open, [isBlacklisted]
    accepts exactly the trimmed lines of the file that are not empty,
    whatever the blacklist held before. *)
Theorem X_forward_load_then_lookup (fs : string -> Go.file) (data : string)
    (rerr : option Go.error) (before : gmap string unit) (h : string) :
  fs "blacklist.txt" = Go.Opened data rerr ->
  Forward.isBlacklisted (Forward.loadBlacklist fs before).1 h = true <->
  h <> EmptyString /\ h ∈ Go.TrimSpace <$> (Go.Scan data rerr).1.
Proof.
  intros Hfs. rewrite isBlacklisted_true. unfold Forward.loadBlacklist.
  rewrite Hfs. destruct (Go.Scan data rerr) as [lines err]. simpl.
  rewrite forward_stored_lookup. case_decide as Hd; split; try done.
Qed.

Lemma X_forward_load_then_lookup_witness :
  let fs := fun _ : string => Go.Opened ("  evil.example  " ++ LF ++ LF) None in
  Forward.isBlacklisted (Forward.loadBlacklist fs ∅).1 "evil.example" = true.
Proof.
  intros fs.
  apply (X_forward_load_then_lookup fs ("  evil.example  " ++ LF ++ LF) None ∅);
    [reflexivity|].
  split; [discriminate|]. vm_compute. left.
Defined.

(** X5: after the tunnel proxy has loaded a file it can open, [isBlocked]
    accepts exactly the hosts that start with the trimmed text of some line
    of the file. *)
Theorem X_tunnel_load_then_blocked (fs : string -> Go.file) (name data : string)
    (rerr : option Go.error) (before : gmap string bool) (h : string) :
  fs name = Go.Opened data rerr ->
  Tunnel.isBlocked (Tunnel.loadBlacklist fs name before).1 h = true <->
  exists line t, line ∈ (Go.Scan data rerr).1 /\ h = Go.TrimSpace line ++ t.
Proof.
  intros Hfs. rewrite isBlocked_true. unfold Tunnel.loadBlacklist.
  rewrite Hfs. destruct (Go.Scan data rerr) as [lines err]. simpl. split.
  - intros (e & He & t & ->). rewrite tunnel_stored_lookup in He.
    case_decide as Hd; [|by destruct He].
    apply list_elem_of_fmap in Hd as (line & -> & Hl). eauto.
  - intros (line & t & Hl & ->). exists (Go.TrimSpace line). split; [|eauto].
    rewrite tunnel_stored_lookup, decide_True; [eauto|].
    by apply list_elem_of_fmap_2.
Qed.

Lemma X_tunnel_load_then_blocked_witness :
  let fs := fun _ : string => Go.Opened ("  evil.example  " ++ LF) None in
  Tunnel.isBlocked (Tunnel.loadBlacklist fs "blacklist.txt" ∅).1
                   "evil.example.attacker.net:443" = true.
Proof.
  intros fs.
  apply (X_tunnel_load_then_blocked fs "blacklist.txt" ("  evil.example  " ++ LF)
           None ∅); [reflexivity|].
  exists "  evil.example  ", ".attacker.net:443". split; [vm_compute; left|reflexivity].
Defined.

(** X6: two policy files whose lines have the same trimmed texts, in whatever
    order and however often repeated, load the same blacklist, in both
    programs. *)
Theorem X_load_ignores_order_and_repeats (fs fs' : string -> Go.file)
    (data data' : string) (rerr rerr' : option Go.error) :
  fs "blacklist.txt" = Go.Opened data rerr ->
  fs' "blacklist.txt" = Go.Opened data' rerr' ->
  (forall e, e ∈ Go.TrimSpace <$> (Go.Scan data rerr).1 <->
             e ∈ Go.TrimSpace <$> (Go.Scan data' rerr').1) ->
  (Tunnel.loadBlacklist fs "blacklist.txt" ∅).1 =
    (Tunnel.loadBlacklist fs' "blacklist.txt" ∅).1 /\
  (Forward.loadBlacklist fs ∅).1 = (Forward.loadBlacklist fs' ∅).1.
Proof.
  intros Hb Hb' Hsame.
  unfold Tunnel.loadBlacklist, Forward.loadBlacklist.
  rewrite Hb, Hb'.
  destruct (Go.Scan data rerr) as [lines err].
  destruct (Go.Scan data' rerr') as [lines' err']. simpl in *.
  split; apply map_eq; intros e.
  - rewrite !tunnel_stored_lookup.
    destruct (decide (e ∈ Go.TrimSpace <$> lines)) as [Hin|Hin].
    + rewrite decide_True; [done|]. by apply Hsame.
    + rewrite decide_False; [done|]. by rewrite <- Hsame.
  - rewrite !forward_stored_lookup.
    destruct (decide (e <> EmptyString /\ e ∈ Go.TrimSpace <$> lines)) as [Hin|Hin].
    + rewrite decide_True; [done|]. by rewrite <- Hsame.
    + rewrite decide_False; [done|]. by rewrite <- Hsame.
Qed.

Lemma X_load_ignores_order_and_repeats_witness :
  let fs := fun _ : string => Go.Opened ("a.example" ++ LF ++ "b.example" ++ LF) None in
  let fs' := fun _ : string =>
    Go.Opened (" b.example" ++ LF ++ "a.example " ++ LF ++ "b.example") None in
  (Tunnel.loadBlacklist fs "blacklist.txt" ∅).1 =
    (Tunnel.loadBlacklist fs' "blacklist.txt" ∅).1 /\
  (Forward.loadBlacklist fs ∅).1 = (Forward.loadBlacklist fs' ∅).1.
Proof.
  intros fs fs'.
  apply (X_load_ignores_order_and_repeats fs fs'
           ("a.example" ++ LF ++ "b.example" ++ LF)
           (" b.example" ++ LF ++ "a.example " ++ LF ++ "b.example") None None);
    try reflexivity.
  intros e.
  assert (Go.TrimSpace <$>
            (Go.Scan ("a.example" ++ LF ++ "b.example" ++ LF) None).1 =
          ["a.example"; "b.example"]) as -> by (vm_compute; reflexivity).
  assert (Go.TrimSpace <$>
            (Go.Scan (" b.example" ++ LF ++ "a.example " ++ LF ++ "b.example") None).1 =
          ["b.example"; "a.example"; "b.example"]) as -> by (vm_compute; reflexivity).
  rewrite !elem_of_cons, !elem_of_nil. tauto.
Defined.

(** X7: in a policy file of ASCII bytes every entry either loader stores is a
    line of the file without the white space at its two ends: it neither
    starts nor ends with a white-space byte. *)
Theorem X_loaded_entries_are_trimmed (fs : string -> Go.file)
    (data : string) (rerr : option Go.error) (e : string) :
  fs "blacklist.txt" = Go.Opened data rerr ->
  Obs.ascii_only data = true ->
  is_Some ((Tunnel.loadBlacklist fs "blacklist.txt" ∅).1 !! e) \/
  is_Some ((Forward.loadBlacklist fs ∅).1 !! e) ->
  (exists line l r, line ∈ (Go.Scan data rerr).1 /\ line = l ++ e ++ r /\
                    Obs.blank l = true /\ Obs.blank r = true) /\
  (forall c rest, e = String c rest -> Go.asciiSpace c = false) /\
  (forall c, Obs.last_byte e = Some c -> Go.asciiSpace c = false).
Proof.
  intros Hb Ha Hin.
  assert (Hline : exists line, line ∈ (Go.Scan data rerr).1 /\ e = Go.TrimSpace line).
  { unfold Tunnel.loadBlacklist, Forward.loadBlacklist in Hin. rewrite Hb in Hin.
    destruct (Go.Scan data rerr) as [lines err]. simpl in *.
    rewrite tunnel_stored_lookup, forward_stored_lookup in Hin.
    destruct Hin as [Hin|Hin]; case_decide as Hd; try (by destruct Hin).
    - apply list_elem_of_fmap in Hd as (line & -> & Hl). eauto.
    - destruct Hd as [_ Hd].
      apply list_elem_of_fmap in Hd as (line & -> & Hl). eauto. }
  destruct Hline as (line & Hl & ->).
  pose proof (Scan_ascii data rerr Ha) as Hall.
  rewrite Forall_forall in Hall. specialize (Hall line Hl).
  rewrite (TrimSpace_ascii line Hall).
  destruct (trim_ends line) as ((l & r & Hsplit & Hbl & Hbr) & Hfirst & Hlast).
  split; [|split]; [|exact Hfirst|exact Hlast].
  exists line, l, r. auto.
Qed.

Lemma X_loaded_entries_are_trimmed_witness :
  let fs := fun _ : string => Go.Opened ("  evil.example  " ++ LF) None in
  is_Some ((Tunnel.loadBlacklist fs "blacklist.txt" ∅).1 !! "evil.example") /\
  Go.asciiSpace "e" = false.
Proof.
  intros fs.
  assert (Hin : is_Some ((Tunnel.loadBlacklist fs "blacklist.txt" ∅).1
                           !! "evil.example")) by (exists true; reflexivity).
  split; [exact Hin|].
  destruct (X_loaded_entries_are_trimmed fs ("  evil.example  " ++ LF)
              None "evil.example") as (_ & Hfirst & _);
    [reflexivity|reflexivity|by left|].
  by apply (Hfirst "e"%char "vil.example").
Defined.

(** ** More on the two handshakes *)

Section HandshakeMore.
Import Go Obs Rel.
Local Open Scope go_scope.

Variable ParseIP : string -> option IP.

(** The handshake of the CONNECT handler, case by case. *)
Lemma tunnel_handshake_cases (bl : gmap string bool) (world : Tunnel.env)
    (client : conn) :
  exists logs,
    Forall (fun e => is_log e = true) logs /\
    Tunnel.handleClientConnection ParseIP bl world client =
    match Tunnel.ReadRequest world client with
    | inr err => ((logs ++ [ConnClose client])%list, Tunnel.Returned)
    | inl req =>
        if negb (String.eqb (Tunnel.Method req) "CONNECT")
        then ((logs ++ [ConnClose client])%list, Tunnel.Returned)
        else if Tunnel.isBlocked bl (Tunnel.URL_Host req)
        then ((logs ++ [ConnWrite client teapot; ConnClose client])%list,
              Tunnel.Returned)
        else
          let hostPort :=
            if negb (Contains (Tunnel.URL_Host req) ":")
            then Tunnel.URL_Host req ++ ":443" else Tunnel.URL_Host req in
          match Tunnel.Dial world "tcp" hostPort with
          | inr err =>
              ((logs ++ [NetDial "tcp" hostPort] ++
                [Log "[Client %s] Error connecting to %v: %v"
                     [VStr (Tunnel.extractIPv4FromRemoteAddr ParseIP
                              (RemoteAddr client)).2;
                      VStr hostPort; VErr err];
                 ConnClose client])%list, Tunnel.Returned)
          | inl server =>
              ((logs ++ [NetDial "tcp" hostPort;
                         ConnWrite client
                           ("HTTP/1.1 200 Connection Established" ++ CRLF ++
                            "Proxy-agent: go-tunnel-proxy" ++ CRLF ++
                            "Connection: close" ++ CRLF ++ CRLF)])%list,
               Tunnel.Relaying server)
          end
    end.
Proof.
  unfold Tunnel.handleClientConnection, Tunnel.handshake.
  destruct (extract_trace ParseIP (RemoteAddr client)) as [host Ht].
  destruct (Tunnel.extractIPv4FromRemoteAddr ParseIP (RemoteAddr client))
    as [t0 remoteAddr]. simpl in Ht. subst t0.
  destruct (Tunnel.ReadRequest world client) as [req|err]; simpl.
  - destruct (String.eqb (Tunnel.Method req) "CONNECT"); simpl.
    + destruct (Tunnel.isBlocked bl (Tunnel.URL_Host req)); simpl.
      * eexists [_; _; _; _]. split; [|reflexivity]; repeat constructor.
      * destruct (Tunnel.Dial world "tcp" _) as [server|err]; simpl.
        -- eexists [_; _; _]. split; [|reflexivity]; repeat constructor.
        -- eexists [_; _; _]. split; [|reflexivity]; repeat constructor.
    + eexists [_; _; _]. split; [|reflexivity]; repeat constructor.
  - eexists [_; _; _]. split; [|reflexivity]; repeat constructor.
Qed.

Lemma closes_logs (logs rest : list event) :
  Forall (fun e => is_log e = true) logs -> closes (logs ++ rest) = closes rest.
Proof.
  unfold closes. intros H. rewrite List.filter_app.
  induction H as [|e logs He _ IH]; [done|]. simpl.
  destruct e; try discriminate He; done.
Qed.

Lemma writes_logs (logs rest : list event) :
  Forall (fun e => is_log e = true) logs -> writes (logs ++ rest) = writes rest.
Proof.
  unfold writes. intros H. rewrite List.filter_app.
  induction H as [|e logs He _ IH]; [done|]. simpl.
  destruct e; try discriminate He; done.
Qed.

End HandshakeMore.

(** X8: in the CONNECT handler a request that cannot be read, or whose method
    is not CONNECT, gets no response at all: the handler only closes the
    client connection, and dials nothing. *)
Theorem X_tunnel_protocol_error_is_silent (ParseIP : string -> option Go.IP)
    (bl : gmap string bool) (world : Tunnel.env) (client : Go.conn) :
  (exists err, Tunnel.ReadRequest world client = inr err) \/
  (exists req, Tunnel.ReadRequest world client = inl req /\
               Tunnel.Method req <> "CONNECT") ->
  let '(t, o) := Tunnel.handleClientConnection ParseIP bl world client in
  o = Tunnel.Returned /\ Obs.network_events t = [Go.ConnClose client].
Proof.
  intros Hcase.
  destruct (tunnel_handshake_cases ParseIP bl world client) as (logs & Hlogs & ->).
  destruct Hcase as [[err ->]|(req & -> & Hm)].
  - split; [done|]. by rewrite network_events_logs.
  - apply String.eqb_neq in Hm. rewrite Hm. simpl.
    split; [done|]. by rewrite network_events_logs.
Qed.

Lemma X_tunnel_protocol_error_is_silent_witness :
  let client := Go.mkConn 3 "10.0.0.1:5555" in
  let world := Tunnel.mkEnv
                 (fun _ => inl (Tunnel.mkRequest "GET" "allowed.example"))
                 (fun _ a => inl (Go.mkConn 9 a)) in
  Obs.network_events
    (Tunnel.handleClientConnection (fun _ => None) ∅ world client).1 =
  [Go.ConnClose client].
Proof.
  intros client world.
  pose proof (X_tunnel_protocol_error_is_silent (fun _ => None) ∅ world client) as H.
  destruct (Tunnel.handleClientConnection _ _ world client) as [t o].
  apply H. right. exists (Tunnel.mkRequest "GET" "allowed.example").
  split; [reflexivity|discriminate].
Defined.

(** X9: in the CONNECT handler a target that cannot be dialed gets no response
    either: after the one dial attempt the handler only closes the client
    connection. *)
Theorem X_tunnel_dial_failure_closes (ParseIP : string -> option Go.IP)
    (bl : gmap string bool) (world : Tunnel.env) (client : Go.conn)
    (req : Tunnel.Request) (err : Go.error) :
  Tunnel.ReadRequest world client = inl req ->
  Tunnel.Method req = "CONNECT" ->
  Tunnel.isBlocked bl (Tunnel.URL_Host req) = false ->
  Tunnel.Dial world "tcp"
    (if Go.Contains (Tunnel.URL_Host req) ":" then Tunnel.URL_Host req
     else Tunnel.URL_Host req ++ ":443") = inr err ->
  let '(t, o) := Tunnel.handleClientConnection ParseIP bl world client in
  o = Tunnel.Returned /\
  Obs.network_events t =
    [Go.NetDial "tcp" (if Go.Contains (Tunnel.URL_Host req) ":"
                       then Tunnel.URL_Host req
                       else Tunnel.URL_Host req ++ ":443");
     Go.ConnClose client].
Proof.
  intros Hreq Hm Hb Hd.
  destruct (tunnel_handshake_cases ParseIP bl world client) as (logs & Hlogs & ->).
  rewrite Hreq, (CONNECT_eqb _ Hm), Hb. simpl.
  destruct (Go.Contains (Tunnel.URL_Host req) ":"); simpl; rewrite Hd;
    (split; [done|]); by rewrite network_events_logs.
Qed.

Lemma X_tunnel_dial_failure_closes_witness :
  let client := Go.mkConn 3 "10.0.0.1:5555" in
  let world := Tunnel.mkEnv
                 (fun _ => inl (Tunnel.mkRequest "CONNECT" "down.example"))
                 (fun _ _ => inr (Go.OSError "connection refused")) in
  Obs.network_events
    (Tunnel.handleClientConnection (fun _ => None) ∅ world client).1 =
  [Go.NetDial "tcp" "down.example:443"; Go.ConnClose client].
Proof.
  intros client world.
  pose proof (X_tunnel_dial_failure_closes (fun _ => None) ∅ world client
                (Tunnel.mkRequest "CONNECT" "down.example")
                (Go.OSError "connection refused")
                eq_refl eq_refl eq_refl eq_refl) as H.
  destruct (Tunnel.handleClientConnection _ _ world client) as [t o].
  exact (proj2 H).
Defined.

(** X10: the CONNECT handler goes on to relay exactly when the request is a
    CONNECT for a host the policy does not block and the dial succeeds;
    what it has done to the network by then is the dial and the response
    [200 Connection Established], and the client connection is still
    open. *)
Theorem X_tunnel_established_iff (ParseIP : string -> option Go.IP)
    (bl : gmap string bool) (world : Tunnel.env) (client server : Go.conn) :
  let run := Tunnel.handleClientConnection ParseIP bl world client in
  (run.2 = Tunnel.Relaying server <->
   exists req,
     Tunnel.ReadRequest world client = inl req /\
     Tunnel.Method req = "CONNECT" /\
     Tunnel.isBlocked bl (Tunnel.URL_Host req) = false /\
     Tunnel.Dial world "tcp"
       (if Go.Contains (Tunnel.URL_Host req) ":" then Tunnel.URL_Host req
        else Tunnel.URL_Host req ++ ":443") = inl server) /\
  (run.2 = Tunnel.Relaying server ->
   Rel.closes run.1 = [] /\
   Rel.writes run.1 =
     [Go.ConnWrite client
        ("HTTP/1.1 200 Connection Established" ++ CRLF ++
         "Proxy-agent: go-tunnel-proxy" ++ CRLF ++
         "Connection: close" ++ CRLF ++ CRLF)]).
Proof.
  intros run. subst run.
  destruct (tunnel_handshake_cases ParseIP bl world client) as (logs & Hlogs & ->).
  destruct (Tunnel.ReadRequest world client) as [req|err].
  2:{ cbn [fst snd]. split; [|done]. split; [done|]. by intros (req & [=] & _). }
  destruct (String.eqb (Tunnel.Method req) "CONNECT") eqn:Hm; cbn [negb fst snd].
  2:{ apply String.eqb_neq in Hm. split; [|done]. split; [done|].
      by intros (req' & [= <-] & Hm' & _). }
  apply String.eqb_eq in Hm.
  destruct (Tunnel.isBlocked bl (Tunnel.URL_Host req)) eqn:Hb; cbn [fst snd].
  { split; [|done]. split; [done|].
    intros (req' & [= <-] & _ & Hb' & _). congruence. }
  destruct (Go.Contains (Tunnel.URL_Host req) ":") eqn:Hc; cbn [negb];
    match goal with
    | |- context [Tunnel.Dial ?w ?n ?a] =>
        destruct (Tunnel.Dial w n a) as [srv|e] eqn:Hd
    end; cbn [fst snd].
  all: split;
    [split;
     [try done; intros [= ->]; exists req; by rewrite Hc
     |intros (req' & [= <-] & _ & _ & Hd'); rewrite Hc in Hd'; congruence]
    |try done; intros _; by rewrite closes_logs, writes_logs by done].
Qed.

Lemma X_tunnel_established_iff_witness :
  let client := Go.mkConn 3 "10.0.0.1:5555" in
  let world := Tunnel.mkEnv
                 (fun _ => inl (Tunnel.mkRequest "CONNECT" "allowed.example:8443"))
                 (fun _ a => inl (Go.mkConn 9 a)) in
  Rel.closes (Tunnel.handleClientConnection (fun _ => None) ∅ world client).1 = [].
Proof.
  intros client world.
  apply (X_tunnel_established_iff (fun _ => None) ∅ world client
           (Go.mkConn 9 "allowed.example:8443")).
  reflexivity.
Defined.

(** X11: whatever the request and the answer of the dial, the CONNECT handler
    dials at most once and writes at most one response; when it returns
    from the handshake it has closed the client connection exactly once. *)
Theorem X_tunnel_handshake_discipline (ParseIP : string -> option Go.IP)
    (bl : gmap string bool) (world : Tunnel.env) (client : Go.conn) :
  let '(t, o) := Tunnel.handleClientConnection ParseIP bl world client in
  (length (Obs.dial_events t) <= 1)%nat /\
  (length (Rel.writes t) <= 1)%nat /\
  Rel.closes t = match o with
                 | Tunnel.Returned => [Go.ConnClose client]
                 | Tunnel.Relaying _ => []
                 end.
Proof.
  destruct (tunnel_handshake_cases ParseIP bl world client) as (logs & Hlogs & ->).
  destruct (Tunnel.ReadRequest world client) as [req|err].
  2:{ rewrite dial_events_logs, writes_logs, closes_logs by done. simpl. auto. }
  destruct (negb (String.eqb (Tunnel.Method req) "CONNECT")).
  { rewrite dial_events_logs, writes_logs, closes_logs by done. simpl. auto. }
  destruct (Tunnel.isBlocked bl (Tunnel.URL_Host req)).
  { rewrite dial_events_logs, writes_logs, closes_logs by done. simpl. auto. }
  simpl.
  match goal with
  | |- context [Tunnel.Dial ?w ?n ?a] => destruct (Tunnel.Dial w n a) as [srv|e]
  end; rewrite dial_events_logs, writes_logs, closes_logs by done; simpl; auto.
Qed.

(** X12: on the SOCKS listener a client whose address has a blacklisted host
    part gets the teapot response and is disconnected, and nothing is
    dialed. *)
Theorem X_socks_blocked_gets_teapot (bl : gmap string unit) (world : Forward.env)
    (c : Go.conn) (targetAddr host port : string) :
  Go.SplitHostPort targetAddr = (host, port, None) ->
  Forward.isBlacklisted bl host = true ->
  let run := Forward.handleSOCKS bl world c targetAddr in
  run.2 = Forward.Returned /\
  Obs.network_events run.1 = [Go.ConnWrite c teapot; Go.ConnClose c] /\
  Obs.dial_events run.1 = [].
Proof.
  intros Hsplit Hb run. subst run. unfold Forward.handleSOCKS.
  rewrite Hsplit, Hb. done.
Qed.

Lemma X_socks_blocked_gets_teapot_witness :
  let c := Go.mkConn 3 "10.0.0.1:5555" in
  let world := Forward.mkEnv (fun _ _ => None) (fun _ _ a => inl (Go.mkConn 9 a)) in
  Obs.network_events
    (Forward.handleSOCKS {[ "10.0.0.1" := tt ]} world c "10.0.0.1:5555").1 =
  [Go.ConnWrite c teapot; Go.ConnClose c].
Proof.
  intros c world.
  exact (proj1 (proj2 (X_socks_blocked_gets_teapot {[ "10.0.0.1" := tt ]} world c
                         "10.0.0.1:5555" "10.0.0.1" "5555" eq_refl eq_refl))).
Defined.

(** X13: [handleSOCKS] closes the client connection on the blocked path only:
    when the address does not parse, the dialer cannot be made or the dial
    fails, it returns and leaves the connection open. *)
Theorem X_socks_closes_only_when_blocked (bl : gmap string unit)
    (world : Forward.env) (c : Go.conn) (targetAddr : string) :
  Rel.closes (Forward.handleSOCKS bl world c targetAddr).1 =
  if bool_decide ((Go.SplitHostPort targetAddr).2 = None) &&
     Forward.isBlacklisted bl (Go.SplitHostPort targetAddr).1.1
  then [Go.ConnClose c] else [].
Proof.
  unfold Forward.handleSOCKS.
  destruct (Go.SplitHostPort targetAddr) as [[host port] [err|]]; simpl; [done|].
  destruct (Forward.isBlacklisted bl host); simpl; [done|].
  destruct (Forward.SOCKS5 world "tcp" "127.0.0.1:1080"); simpl; [done|].
  by destruct (Forward.DialVia world "127.0.0.1:1080" "tcp" targetAddr).
Qed.

(** X14: [handleSOCKS] goes on to relay exactly when the address parses, its
    host is not blacklisted, the SOCKS5 dialer is made and its dial
    succeeds; it has then written nothing to the client. *)
Theorem X_socks_relaying_iff (bl : gmap string unit) (world : Forward.env)
    (c targetConn : Go.conn) (targetAddr : string) :
  let run := Forward.handleSOCKS bl world c targetAddr in
  (run.2 = Forward.Relaying targetConn <->
   (Go.SplitHostPort targetAddr).2 = None /\
   Forward.isBlacklisted bl (Go.SplitHostPort targetAddr).1.1 = false /\
   Forward.SOCKS5 world "tcp" "127.0.0.1:1080" = None /\
   Forward.DialVia world "127.0.0.1:1080" "tcp" targetAddr = inl targetConn) /\
  (run.2 = Forward.Relaying targetConn ->
   Obs.network_events run.1 = [Go.Socks5Dial "127.0.0.1:1080" "tcp" targetAddr]).
Proof.
  intros run. subst run. unfold Forward.handleSOCKS.
  destruct (Go.SplitHostPort targetAddr) as [[host port] [err|]]; simpl.
  { split; [|done]. split; [done|]. by intros [[=] _]. }
  destruct (Forward.isBlacklisted bl host); simpl.
  { split; [|done]. split; [done|]. by intros (_ & [=] & _). }
  destruct (Forward.SOCKS5 world "tcp" "127.0.0.1:1080"); simpl.
  { split; [|done]. split; [done|]. by intros (_ & _ & [=] & _). }
  destruct (Forward.DialVia world "127.0.0.1:1080" "tcp" targetAddr) as [tc|e]; simpl.
  - split; [|done]. split.
    + by intros [= ->].
    + by intros (_ & _ & _ & [= ->]).
  - split; [|done]. split; [done|]. by intros (_ & _ & _ & [=]).
Qed.

Lemma X_socks_relaying_iff_witness :
  let c := Go.mkConn 3 "10.0.0.1:5555" in
  let world := Forward.mkEnv (fun _ _ => None) (fun _ _ a => inl (Go.mkConn 9 a)) in
  Obs.network_events (Forward.handleSOCKS ∅ world c "10.0.0.1:5555").1 =
  [Go.Socks5Dial "127.0.0.1:1080" "tcp" "10.0.0.1:5555"].
Proof.
  intros c world.
  apply (X_socks_relaying_iff ∅ world c (Go.mkConn 9 "10.0.0.1:5555") "10.0.0.1:5555").
  reflexivity.
Defined.

(** ** More on the relay *)

Section RelayMore.
Import Go Obs Rel.

Lemma length_substring_0 (k : nat) (s : string) :
  String.length (String.substring 0 k s) = Nat.min k (String.length s).
Proof.
  revert k; induction s as [|a s IH]; intros [|k]; simpl; auto.
Qed.

Lemma len_slice_0 (s : string) (n : Z) :
  0 <= n <= len s -> len (slice s 0 n) = n.
Proof.
  intros Hn. rewrite slice_prefix. unfold len in *.
  rewrite length_substring_0. lia.
Qed.

Lemma slice_split (s : string) (n : Z) :
  0 <= n <= len s -> slice s 0 n ++ slice_from s n = s.
Proof.
  intros Hn. rewrite slice_prefix. unfold slice_from, slice, len in *.
  replace (Z.to_nat (Z.of_nat (String.length s) - n))
    with (String.length s - Z.to_nat n)%nat by lia.
  symmetry. apply substring_0_split. lia.
Qed.

Lemma slice_all (s : string) : slice s 0 (len s) = s.
Proof. rewrite slice_prefix. unfold len. rewrite Nat2Z.id. apply substring_0_all. Qed.

Lemma len_0_empty (s : string) : len s = 0 -> s = EmptyString.
Proof. unfold len. destruct s; [done|]. simpl. lia. Qed.

Lemma get_set_same (w : net_state) (r : sock) (s : socket) :
  get_sock (set_sock w r s) r = s.
Proof. by destruct r. Qed.

Lemma get_set_other (w : net_state) (r : sock) (s : socket) :
  get_sock (set_sock w r s) (other r) = get_sock w (other r).
Proof. by destruct r. Qed.

(** What a [Read] on a socket does: it takes a chunk off the front of what
    arrived, or takes nothing and reports an error, [io.EOF] only when
    nothing is left. *)
Lemma sock_Read_spec (a : sock) (lenp : Z) (w : net_state) :
  0 < lenp ->
  let '((n, er), buf, w') := Read a lenp w in
  len buf = n /\ slice buf 0 n = buf /\
  inbox (get_sock w a) = buf ++ inbox (get_sock w' a) /\
  outbox (get_sock w' a) = outbox (get_sock w a) /\
  closed (get_sock w' a) = closed (get_sock w a) /\
  get_sock w' (other a) = get_sock w (other a) /\
  (0 < n -> er = None) /\
  (n <= 0 -> n = 0 /\ er <> None /\
             (er = Some EOF -> inbox (get_sock w a) = EmptyString)).
Proof.
  intros Hp. unfold Read, sock_Reader.
  destruct (closed (get_sock w a)) eqn:Hc.
  { repeat split; try done; try lia. }
  destruct (len (inbox (get_sock w a)) =? 0) eqn:H0.
  { apply Z.eqb_eq in H0. repeat split; try done; try lia.
    intros _. by apply len_0_empty. }
  apply Z.eqb_neq in H0. pose proof (len_nonneg (inbox (get_sock w a))) as Hnn.
  set (n := Z.min lenp (len (inbox (get_sock w a)))).
  assert (Hn : 0 <= n <= len (inbox (get_sock w a))) by (subst n; lia).
  rewrite get_set_same, get_set_other. simpl.
  pose proof (len_slice_0 _ _ Hn) as Hlen.
  repeat split; try done; try (subst n; lia).
  - rewrite <- Hlen at 2. apply slice_all.
  - symmetry. by apply slice_split.
Qed.

(** What a [Write] on a socket does: it appends all of the chunk, or, on
    a closed socket, nothing. *)
Lemma sock_Write_spec (b : sock) (chunk : string) (w : net_state) :
  let '((n, ew), w') := Write b chunk w in
  inbox (get_sock w' b) = inbox (get_sock w b) /\
  closed (get_sock w' b) = closed (get_sock w b) /\
  get_sock w' (other b) = get_sock w (other b) /\
  ((ew = None /\ n = len chunk /\
    outbox (get_sock w' b) = outbox (get_sock w b) ++ chunk) \/
   (ew = Some ErrClosed /\ n = 0 /\ w' = w)).
Proof.
  unfold Write, sock_Writer.
  destruct (closed (get_sock w b)) eqn:Hc.
  { repeat split; try done. right. done. }
  rewrite get_set_same, get_set_other. simpl. repeat split; try done. by left.
Qed.

Lemma other_other (a : sock) : other (other a) = a.
Proof. by destruct a. Qed.

Lemma copyBufSize_pos : 0 < copyBufSize.
Proof. reflexivity. Qed.

(** One step of a copy from socket [a] to the other one keeps the bytes in
    order and loses none. *)
Lemma copy_step_conserved (a : sock) (data out0 : string) (pc : copy_pc)
    (w : net_state) :
  conserved a data out0 pc w ->
  conserved a data out0
    (copy_step (Read a) (Write (other a)) pc w).1
    (copy_step (Read a) (Write (other a)) pc w).2.
Proof.
  intros (x & Hout & Hpc). unfold copy_step. destruct pc as [|chunk er|err].
  - pose proof (sock_Read_spec a copyBufSize w copyBufSize_pos) as Hr.
    destruct (Read a copyBufSize w) as [[[nr er] buf] w'].
    destruct Hr as (Hlen & Hsl & Hin & _ & _ & Hoth & Hpos & Hzero).
    destruct (0 <? nr) eqn:Hnr; simpl.
    + apply Z.ltb_lt in Hnr. exists x. rewrite Hoth. split; [done|].
      split; [by apply Hpos|]. by rewrite Hsl, Hpc, Hin.
    + apply Z.ltb_ge in Hnr. destruct (Hzero Hnr) as (-> & Hne & Heof).
      destruct er as [e|]; [|done]. simpl. exists x. rewrite Hoth.
      split; [done|]. exists (inbox (get_sock w a)). split; [done|].
      apply len_0_empty in Hlen. subst buf. rewrite append_empty_l in Hin.
      destruct e; simpl; try done. intros _. rewrite <- Hin.
      split; by apply Heof.
  - destruct Hpc as (-> & Hdata).
    pose proof (sock_Write_spec (other a) chunk w) as Hw.
    destruct (Write (other a) chunk w) as [[nw ew] w'].
    rewrite other_other in Hw.
    destruct Hw as (_ & _ & Hoth & [(-> & -> & Hout')|(-> & -> & ->)]).
    + pose proof (len_nonneg chunk).
      destruct ((len chunk <? 0) || (len chunk <? len chunk)) eqn:Hbad.
      { apply orb_true_iff in Hbad as [Hbad|Hbad]; apply Z.ltb_lt in Hbad; lia. }
      rewrite Z.eqb_refl. simpl. exists (x ++ chunk).
      rewrite Hout', Hout, Hoth, !append_assoc. done.
    + pose proof (len_nonneg chunk).
      destruct ((0 <? 0) || (len chunk <? 0)) eqn:Hbad.
      { apply orb_true_iff in Hbad as [Hbad|Hbad]; apply Z.ltb_lt in Hbad; lia. }
      simpl. exists x. split; [done|]. eexists. split; [exact Hdata|done].
  - simpl. exists x. done.
Qed.

(** A copy from socket [b] leaves alone what a copy from the other socket
    works on. *)
Lemma copy_step_frame (b : sock) (pc : copy_pc) (w : net_state) :
  let w' := (copy_step (Read b) (Write (other b)) pc w).2 in
  inbox (get_sock w' (other b)) = inbox (get_sock w (other b)) /\
  outbox (get_sock w' b) = outbox (get_sock w b) /\
  closed (get_sock w' b) = closed (get_sock w b) /\
  closed (get_sock w' (other b)) = closed (get_sock w (other b)).
Proof.
  set (f := fun w : net_state =>
              (inbox (get_sock w (other b)), outbox (get_sock w b),
               closed (get_sock w b), closed (get_sock w (other b)))).
  assert (Hr : forall n st, f (Read b n st).2 = f st).
  { intros n st. unfold f, Read, sock_Reader.
    destruct (closed (get_sock st b)) eqn:Hc; [cbn [fst snd]; by rewrite Hc|].
    destruct (len (inbox (get_sock st b)) =? 0); [cbn [fst snd]; by rewrite Hc|].
    cbn [fst snd]. by rewrite get_set_same, get_set_other. }
  assert (Hw : forall p st, f (Write (other b) p st).2 = f st).
  { intros p st. unfold f, Write, sock_Writer.
    destruct (closed (get_sock st (other b))) eqn:Hc; [cbn [fst snd]; by rewrite Hc|].
    cbn [fst snd].
    pose proof (get_set_other st (other b)) as Ho. rewrite other_other in Ho.
    rewrite get_set_same, Ho. cbn [inbox outbox closed]. by rewrite ?Hc. }
  pose proof (copy_step_keeps (Read b) (Write (other b)) f Hr Hw pc w) as Hk.
  unfold f in Hk. injection Hk as H1 H2 H3 H4. cbv zeta. auto.
Qed.

(** What sits on socket [a]'s side is kept by any change that leaves its
    inbox and the other socket's outbox alone. *)
Lemma conserved_frame (a : sock) (data out0 : string) (pc : copy_pc)
    (w w' : net_state) :
  inbox (get_sock w' a) = inbox (get_sock w a) ->
  outbox (get_sock w' (other a)) = outbox (get_sock w (other a)) ->
  conserved a data out0 pc w -> conserved a data out0 pc w'.
Proof.
  intros Hi Ho (x & Hout & Hpc). exists x. rewrite Ho, Hi. done.
Qed.

Lemma conserved_done (a : sock) (data out0 : string) (pc : copy_pc)
    (w : net_state) :
  conserved a data out0 pc w -> copy_done pc = true ->
  conserved a data out0 (CopyDone (Some ErrClosed)) w.
Proof.
  intros (x & Hout & Hpc) Hd. destruct pc as [| |err]; try discriminate.
  destruct Hpc as (rest & Hdata & _). exists x. split; [done|]. by exists rest.
Qed.

Lemma sock_Close_fields (r a : sock) (w : net_state) :
  inbox (get_sock (sock_Close r w) a) = inbox (get_sock w a) /\
  outbox (get_sock (sock_Close r w) a) = outbox (get_sock w a).
Proof. by destruct r, a. Qed.

End RelayMore.

Section RelayInvariants.
Import Go Obs Rel.

Lemma conserved_init (a : sock) (w : net_state) :
  conserved a (inbox (get_sock w a)) (outbox (get_sock w (other a))) AtRead w.
Proof. exists EmptyString. by rewrite append_empty_r. Qed.

Lemma conserved_prefix (a : sock) (data out0 : string) (pc : copy_pc)
    (w : net_state) :
  conserved a data out0 pc w ->
  exists x rest,
    outbox (get_sock w (other a)) = out0 ++ x /\ data = x ++ rest /\
    (pc = CopyDone None -> rest = EmptyString).
Proof.
  intros (x & Hout & Hpc). exists x. destruct pc as [|chunk er|err].
  - by exists (inbox (get_sock w a)).
  - destruct Hpc as [_ Hd]. by exists (chunk ++ inbox (get_sock w a)).
  - destruct Hpc as (rest & Hd & Hnone). exists rest.
    repeat split; [done|done|]. intros [= ->]. by apply Hnone.
Qed.

(** Both directions of the relay of the tunnel proxy keep their bytes, in
    every state a schedule can reach. *)
Lemma tunnel_run_conserved (remoteAddr : string) (client server : conn)
    (sched : list thread) (w : net_state) :
  let s := Tunnel.run remoteAddr client server sched (Tunnel.relay_init w) in
  conserved ClientSock (inbox (client_sock w)) (outbox (target_sock w))
            (Tunnel.go_pc s) (Tunnel.net s) /\
  conserved TargetSock (inbox (target_sock w)) (outbox (client_sock w))
            (tunnel_copy (Tunnel.h_pc s)) (Tunnel.net s).
Proof.
  apply (tunnel_run_invariant remoteAddr client server
    (fun s =>
       conserved ClientSock (inbox (client_sock w)) (outbox (target_sock w))
                 (Tunnel.go_pc s) (Tunnel.net s) /\
       conserved TargetSock (inbox (target_sock w)) (outbox (client_sock w))
                 (tunnel_copy (Tunnel.h_pc s)) (Tunnel.net s))).
  2:{ split; [apply (conserved_init ClientSock)|apply (conserved_init TargetSock)]. }
  intros [|] s s' [Hg Hh] Hstep; unfold Tunnel.step in Hstep.
  - destruct (Tunnel.h_pc s) as [pc| | | |] eqn:Hpc; simpl in Hh.
    + pose proof (copy_step_conserved TargetSock _ _ pc (Tunnel.net s) Hh) as Hc.
      pose proof (copy_step_frame TargetSock pc (Tunnel.net s)) as (Hi & Ho & _).
      simpl in Hc, Hi, Ho.
      destruct (copy_step (Read TargetSock) (Write ClientSock) pc (Tunnel.net s))
        as [pc' w'].
      injection Hstep as <-. simpl in *. split.
      * by apply (conserved_frame ClientSock _ _ _ (Tunnel.net s)).
      * destruct (copy_done pc') eqn:Hd; simpl; [|done].
        by apply (conserved_done TargetSock _ _ pc').
    + injection Hstep as <-. simpl. done.
    + injection Hstep as <-. simpl. split.
      * apply (conserved_frame ClientSock _ _ _ (Tunnel.net s)); [| |done];
          apply (sock_Close_fields TargetSock).
      * apply (conserved_frame TargetSock _ _ _ (Tunnel.net s)); [| |done];
          apply (sock_Close_fields TargetSock).
    + injection Hstep as <-. simpl. split.
      * apply (conserved_frame ClientSock _ _ _ (Tunnel.net s)); [| |done];
          apply (sock_Close_fields ClientSock).
      * apply (conserved_frame TargetSock _ _ _ (Tunnel.net s)); [| |done];
          apply (sock_Close_fields ClientSock).
    + discriminate.
  - destruct (copy_done (Tunnel.go_pc s)); [discriminate|].
    pose proof (copy_step_conserved ClientSock _ _ (Tunnel.go_pc s) (Tunnel.net s) Hg)
      as Hc.
    pose proof (copy_step_frame ClientSock (Tunnel.go_pc s) (Tunnel.net s))
      as (Hi & Ho & _).
    simpl in Hc, Hi, Ho.
    destruct (copy_step (Read ClientSock) (Write TargetSock)
                        (Tunnel.go_pc s) (Tunnel.net s)) as [pc' w'].
    injection Hstep as <-. simpl in *. split; [done|].
    by apply (conserved_frame TargetSock _ _ _ (Tunnel.net s)).
Qed.

(** One step of the goroutine of [handleSOCKS] acts on the sockets as the
    same step without the counting wrappers, and adds to each counter what
    the call reported. *)
Lemma forward_goroutine_sim (s : Forward.relay_state) :
  Forward.reader (Forward.cr s) = ClientSock ->
  Forward.writer (Forward.cw s) = TargetSock ->
  let r := copy_step Forward.cr_Read Forward.cw_Write (Forward.go_pc s) s in
  let raw := copy_step (Read ClientSock) (Write TargetSock)
                       (Forward.go_pc s) (Forward.net s) in
  r.1 = raw.1 /\ Forward.net r.2 = raw.2 /\
  Forward.reader (Forward.cr r.2) = ClientSock /\
  Forward.writer (Forward.cw r.2) = TargetSock /\
  Forward.bytesRead (Forward.cr r.2) =
    match Forward.go_pc s with
    | AtRead => AddInt64 (Forward.bytesRead (Forward.cr s))
                  (int64 (Read ClientSock copyBufSize (Forward.net s)).1.1.1)
    | _ => Forward.bytesRead (Forward.cr s)
    end /\
  Forward.bytesWritten (Forward.cw r.2) =
    match Forward.go_pc s with
    | AtWrite chunk _ =>
        AddInt64 (Forward.bytesWritten (Forward.cw s))
                 (int64 (Write TargetSock chunk (Forward.net s)).1.1)
    | _ => Forward.bytesWritten (Forward.cw s)
    end.
Proof.
  intros Hr Hw. unfold copy_step, Forward.cr_Read, Forward.cw_Write.
  destruct (Forward.go_pc s) as [|chunk er|err].
  - rewrite forward_Read_eq, Hr.
    destruct (Read ClientSock copyBufSize (Forward.net s)) as [[[nr er] buf] w'].
    cbn [fst snd]. destruct (0 <? nr); [done|]. by destruct er.
  - rewrite forward_Write_eq, Hw.
    destruct (Write TargetSock chunk (Forward.net s)) as [[nw ew] w'].
    cbn [fst snd].
    destruct ((nw <? 0) || (len chunk <? nw)); cbn [fst snd]; [done|].
    destruct ew; [done|]. destruct (negb (len chunk =? nw)); [done|].
    by destruct er.
  - done.
Qed.

Lemma forward_step_cons (targetAddr : string) (targetConn : conn)
    (w : net_state) (t : thread) (s s' : Forward.relay_state) :
  forward_cons w s -> Forward.step targetAddr targetConn t s = Some s' ->
  forward_cons w s'.
Proof.
  intros ((Hrd & Hwr) & Hg & Hh) Hstep. destruct t; unfold Forward.step in Hstep.
  - (* the handler *)
    destruct (Forward.h_pc s) as [pc| | |] eqn:Hpc; simpl in Hh.
    + pose proof (copy_step_conserved TargetSock _ _ pc (Forward.net s) Hh) as Hc.
      pose proof (copy_step_frame TargetSock pc (Forward.net s)) as (Hi & Ho & _).
      simpl in Hc, Hi, Ho.
      destruct (copy_step (Read TargetSock) (Write ClientSock) pc (Forward.net s))
        as [pc' w'].
      injection Hstep as <-. unfold forward_cons. simpl in *.
      split; [done|]. split.
      * by apply (conserved_frame ClientSock _ _ _ (Forward.net s)).
      * destruct (copy_done pc') eqn:Hd; simpl; [|done].
        by apply (conserved_done TargetSock _ _ pc').
    + injection Hstep as <-. unfold forward_cons. simpl. done.
    + injection Hstep as <-. unfold forward_cons. simpl.
      pose proof (sock_Close_fields TargetSock ClientSock (Forward.net s)) as [Hci Hco].
      pose proof (sock_Close_fields TargetSock TargetSock (Forward.net s)) as [Hti Hto].
      simpl in Hci, Hco, Hti, Hto.
      split; [done|]. split.
      * by apply (conserved_frame ClientSock _ _ _ (Forward.net s)).
      * by apply (conserved_frame TargetSock _ _ _ (Forward.net s)).
    + discriminate.
  - (* the goroutine *)
    destruct (copy_done (Forward.go_pc s)) eqn:Hdone; [discriminate|].
    pose proof (forward_goroutine_sim s Hrd Hwr) as (Hpc' & Hnet' & Hrd' & Hwr' & _).
    pose proof (copy_step_conserved ClientSock _ _ (Forward.go_pc s) (Forward.net s) Hg)
      as Hc.
    pose proof (copy_step_frame ClientSock (Forward.go_pc s) (Forward.net s))
      as (Hi & Ho & _).
    pose proof (forward_goroutine_step targetAddr targetConn s s') as Hkeep.
    unfold Forward.step in Hkeep. rewrite Hdone in Hkeep.
    destruct (Hkeep Hstep) as [Hhp _]. clear Hkeep.
    change (other ClientSock) with TargetSock in *.
    unfold get_sock in Hi, Ho.
    destruct (copy_step Forward.cr_Read Forward.cw_Write (Forward.go_pc s) s)
      as [pc' s1]. cbn [fst snd] in Hpc', Hnet', Hrd', Hwr'.
    injection Hstep as <-.
    unfold Forward.set_go_pc in Hhp. cbn [Forward.h_pc] in Hhp.
    rewrite <- Hpc', <- Hnet' in Hc. rewrite <- Hnet' in Hi, Ho.
    unfold forward_cons, Forward.set_go_pc.
    cbn [Forward.cr Forward.cw Forward.net Forward.go_pc Forward.h_pc].
    split; [done|]. split; [done|].
    rewrite Hhp. by apply (conserved_frame TargetSock _ _ _ (Forward.net s)).
Qed.

Lemma forward_run_cons (targetAddr : string) (targetConn : conn)
    (sched : list thread) (w : net_state) :
  forward_cons w (Forward.run targetAddr targetConn sched (Forward.relay_init w)).
Proof.
  apply forward_run_invariant.
  - intros t s s'. apply forward_step_cons.
  - split; [done|].
    split; [apply (conserved_init ClientSock)|apply (conserved_init TargetSock)].
Qed.

(** A step of the relay keeps the two counters equal to the byte counts of
    the two sockets. *)
Lemma forward_step_metered (targetAddr : string) (targetConn : conn)
    (w : net_state) (t : thread) (s s' : Forward.relay_state) :
  len (inbox (client_sock w)) <= MaxInt64 ->
  forward_cons w s ->
  metered (inbox (client_sock w)) (outbox (target_sock w)) s ->
  Forward.step targetAddr targetConn t s = Some s' ->
  metered (inbox (client_sock w)) (outbox (target_sock w)) s'.
Proof.
  intros Hmax Hcons [Hm1 Hm2] Hstep.
  destruct Hcons as ((Hrd & Hwr) & Hg & Hh).
  destruct t; unfold Forward.step in Hstep.
  - (* the handler *)
    destruct (Forward.h_pc s) as [pc| | |] eqn:Hpc.
    + pose proof (copy_step_frame TargetSock pc (Forward.net s)) as (Hi & Ho & _).
      simpl in Hi, Ho.
      destruct (copy_step (Read TargetSock) (Write ClientSock) pc (Forward.net s))
        as [pc' w'].
      injection Hstep as <-. unfold metered. simpl in *. by rewrite Hi, Ho.
    + injection Hstep as <-. by unfold metered.
    + injection Hstep as <-. unfold metered. by simpl.
    + discriminate.
  - (* the goroutine *)
    destruct (copy_done (Forward.go_pc s)) eqn:Hdone; [discriminate|].
    pose proof (forward_goroutine_sim s Hrd Hwr) as (_ & Hnet' & _ & _ & Hbr & Hbw).
    destruct (copy_step Forward.cr_Read Forward.cw_Write (Forward.go_pc s) s)
      as [pc' s1]. cbn [fst snd] in Hnet', Hbr, Hbw.
    injection Hstep as <-.
    unfold metered, Forward.set_go_pc.
    cbn [Forward.cr Forward.cw Forward.net Forward.go_pc Forward.h_pc].
    rewrite Hbr, Hbw. clear Hbr Hbw.
    destruct Hg as (x & Hout & Hdata).
    change (other ClientSock) with TargetSock in Hout.
    unfold get_sock in Hout, Hdata.
    pose proof (len_nonneg x).
    pose proof (len_nonneg (inbox (client_sock (Forward.net s)))).
    rewrite Hout, len_append in Hm2.
    destruct (Forward.go_pc s) as [|chunk er|err].
    + pose proof (sock_Read_spec ClientSock copyBufSize (Forward.net s) copyBufSize_pos)
        as Hspec.
      unfold copy_step in Hnet'.
      destruct (Read ClientSock copyBufSize (Forward.net s)) as [[[nr er] buf] w1].
      destruct Hspec as (Hlen & _ & Hin & _ & _ & Hoth & _ & _).
      assert (Forward.net s1 = w1) as ->.
      { rewrite Hnet'. destruct (0 <? nr); [done|]. by destruct er. }
      change (other ClientSock) with TargetSock in Hoth.
      unfold get_sock in Hin, Hoth. cbn [fst snd].
      pose proof (len_nonneg buf).
      pose proof (len_nonneg (inbox (client_sock w1))).
      assert (Hl : len (inbox (client_sock w)) =
                   len x + len buf + len (inbox (client_sock w1))).
      { rewrite Hdata, Hin, !len_append. lia. }
      assert (Hl2 : len (inbox (client_sock (Forward.net s))) =
                    len buf + len (inbox (client_sock w1))).
      { rewrite Hin at 1. by rewrite len_append. }
      rewrite Hoth. split; [|rewrite Hout, len_append; lia].
      rewrite no_wrap_add by (unfold no_wrap; lia). lia.
    + destruct Hdata as [-> Hdata].
      pose proof (sock_Write_spec TargetSock chunk (Forward.net s)) as Hspec.
      unfold copy_step in Hnet'.
      destruct (Write TargetSock chunk (Forward.net s)) as [[nw ew] w1].
      assert (Forward.net s1 = w1) as ->.
      { rewrite Hnet'. cbn [fst snd].
        destruct ((nw <? 0) || (len chunk <? nw)); cbn [fst snd]; [done|].
        destruct ew; [done|]. by destruct (negb (len chunk =? nw)). }
      pose proof (len_nonneg chunk).
      assert (Hl : len (inbox (client_sock w)) =
                   len x + len chunk + len (inbox (client_sock (Forward.net s)))).
      { rewrite Hdata, !len_append. lia. }
      cbn [fst snd].
      destruct Hspec as (_ & _ & Hoth & [(-> & -> & Hout')|(-> & -> & ->)]);
        change (other TargetSock) with ClientSock in Hoth;
        unfold get_sock in Hoth.
      * unfold get_sock in Hout'. rewrite Hoth, Hout', Hout, !len_append.
        split; [lia|]. rewrite no_wrap_add by (unfold no_wrap; lia). lia.
      * rewrite Hout, len_append. split; [lia|].
        rewrite no_wrap_add by (unfold no_wrap; lia). lia.
    + unfold copy_step in Hnet'. cbn [fst snd] in Hnet'. rewrite Hnet'.
      rewrite Hout, len_append. lia.
Qed.

(** In every state a schedule can reach the two counters are the byte
    counts of the two sockets. *)
Lemma forward_run_metered (targetAddr : string) (targetConn : conn)
    (sched : list thread) (w : net_state) :
  len (inbox (client_sock w)) <= MaxInt64 ->
  metered (inbox (client_sock w)) (outbox (target_sock w))
          (Forward.run targetAddr targetConn sched (Forward.relay_init w)).
Proof.
  intros Hmax.
  cut (forward_cons w (Forward.run targetAddr targetConn sched (Forward.relay_init w)) /\
       metered (inbox (client_sock w)) (outbox (target_sock w))
               (Forward.run targetAddr targetConn sched (Forward.relay_init w))).
  { by intros [_ H]. }
  apply (forward_run_invariant targetAddr targetConn
           (fun s => forward_cons w s /\
                     metered (inbox (client_sock w)) (outbox (target_sock w)) s)).
  2:{ split.
      - split; [done|].
        split; [apply (conserved_init ClientSock)|apply (conserved_init TargetSock)].
      - unfold metered. simpl. lia. }
  intros t s s' [Hcons Hm] Hstep.
  split; [by apply (forward_step_cons targetAddr targetConn w t s)|].
  by apply (forward_step_metered targetAddr targetConn w t s s').
Qed.

End RelayInvariants.

Section RelayClose.
Import Go Obs Rel.

(** Which sockets the relay of the tunnel proxy has closed, by where its
    handler stands. *)
Lemma tunnel_run_closed (remoteAddr : string) (client server : conn)
    (sched : list thread) (w : net_state) :
  let s := Tunnel.run remoteAddr client server sched (Tunnel.relay_init w) in
  closed (client_sock (Tunnel.net s)) =
    (closed (client_sock w) ||
     match Tunnel.h_pc s with Tunnel.HReturned => true | _ => false end) /\
  closed (target_sock (Tunnel.net s)) =
    (closed (target_sock w) ||
     match Tunnel.h_pc s with
     | Tunnel.HCloseClient | Tunnel.HReturned => true
     | _ => false
     end).
Proof.
  apply (tunnel_run_invariant remoteAddr client server
    (fun s =>
       closed (client_sock (Tunnel.net s)) =
         (closed (client_sock w) ||
          match Tunnel.h_pc s with Tunnel.HReturned => true | _ => false end) /\
       closed (target_sock (Tunnel.net s)) =
         (closed (target_sock w) ||
          match Tunnel.h_pc s with
          | Tunnel.HCloseClient | Tunnel.HReturned => true
          | _ => false
          end))).
  2:{ simpl. by rewrite !orb_false_r. }
  intros [|] s s' [Hc Ht] Hstep; unfold Tunnel.step in Hstep.
  - destruct (Tunnel.h_pc s) as [pc| | | |] eqn:Hpc.
    + pose proof (copy_step_frame TargetSock pc (Tunnel.net s)) as (_ & _ & H1 & H2).
      simpl in H1, H2.
      destruct (copy_step (Read TargetSock) (Write ClientSock) pc (Tunnel.net s))
        as [pc' w'].
      injection Hstep as <-. simpl in *. rewrite H1, H2, Hc, Ht.
      by destruct (copy_done pc').
    + injection Hstep as <-. simpl. by rewrite Hc, Ht.
    + injection Hstep as <-. simpl. rewrite Hc. by rewrite !orb_true_r.
    + injection Hstep as <-. simpl. rewrite Ht. by rewrite !orb_true_r.
    + discriminate.
  - destruct (copy_done (Tunnel.go_pc s)); [discriminate|].
    pose proof (copy_step_frame ClientSock (Tunnel.go_pc s) (Tunnel.net s))
      as (_ & _ & H1 & H2). simpl in H1, H2.
    destruct (copy_step (Read ClientSock) (Write TargetSock)
                        (Tunnel.go_pc s) (Tunnel.net s)) as [pc' w'].
    injection Hstep as <-. simpl in *. by rewrite H1, H2, Hc, Ht.
Qed.

Lemma forward_run_closed (targetAddr : string) (targetConn : conn)
    (sched : list thread) (w : net_state) :
  let s := Forward.run targetAddr targetConn sched (Forward.relay_init w) in
  closed (client_sock (Forward.net s)) = closed (client_sock w) /\
  closed (target_sock (Forward.net s)) =
    (closed (target_sock w) ||
     match Forward.h_pc s with Forward.HReturned => true | _ => false end).
Proof.
  cut (let s := Forward.run targetAddr targetConn sched (Forward.relay_init w) in
       forward_cons w s /\
       closed (client_sock (Forward.net s)) = closed (client_sock w) /\
       closed (target_sock (Forward.net s)) =
         (closed (target_sock w) ||
          match Forward.h_pc s with Forward.HReturned => true | _ => false end)).
  { intros [_ H]. exact H. }
  apply (forward_run_invariant targetAddr targetConn
    (fun s =>
       forward_cons w s /\
       closed (client_sock (Forward.net s)) = closed (client_sock w) /\
       closed (target_sock (Forward.net s)) =
         (closed (target_sock w) ||
          match Forward.h_pc s with Forward.HReturned => true | _ => false end))).
  2:{ split; [apply (forward_run_cons targetAddr targetConn [] w)|].
      simpl. by rewrite orb_false_r. }
  intros t s s' (Hcons & Hc & Ht) Hstep.
  split; [by apply (forward_step_cons targetAddr targetConn w t s s')|].
  destruct t.
  - unfold Forward.step in Hstep.
    destruct (Forward.h_pc s) as [pc| | |] eqn:Hpc.
    + pose proof (copy_step_frame TargetSock pc (Forward.net s)) as (_ & _ & H1 & H2).
      simpl in H1, H2.
      destruct (copy_step (Read TargetSock) (Write ClientSock) pc (Forward.net s))
        as [pc' w'].
      injection Hstep as <-. simpl in *. rewrite H1, H2, Hc, Ht.
      by destruct (copy_done pc').
    + injection Hstep as <-. simpl. by rewrite Hc, Ht.
    + injection Hstep as <-. simpl. rewrite Hc. by rewrite !orb_true_r.
    + discriminate.
  - pose proof (forward_goroutine_step targetAddr targetConn s s' Hstep) as [Hhp _].
    destruct Hcons as ((Hrd & Hwr) & _).
    pose proof (forward_goroutine_sim s Hrd Hwr) as (_ & Hnet & _).
    pose proof (copy_step_frame ClientSock (Forward.go_pc s) (Forward.net s))
      as (_ & _ & H1 & H2).
    change (other ClientSock) with TargetSock in H1, H2.
    cbv zeta in Hnet. rewrite <- Hnet in H1, H2. simpl in H1, H2.
    unfold Forward.step in Hstep.
    destruct (copy_done (Forward.go_pc s)); [discriminate|].
    destruct (copy_step Forward.cr_Read Forward.cw_Write (Forward.go_pc s) s)
      as [pc' s1]. injection Hstep as <-. rewrite Hhp.
    unfold Forward.set_go_pc in *. simpl in *. by rewrite H1, H2.
Qed.

(** The counters of the tunnel proxy stay at zero and its log line, once
    written, reports zero for both. *)
Lemma tunnel_run_log (remoteAddr : string) (client server : conn)
    (sched : list thread) (w : net_state) (e : event) :
  e ∈ Tunnel.trace (Tunnel.run remoteAddr client server sched (Tunnel.relay_init w)) ->
  is_log e = true ->
  e = Log "[Client %s] Data transferred: sent %d bytes, received %d bytes"
          [VStr remoteAddr; VInt 0; VInt 0].
Proof.
  revert e.
  cut (let s := Tunnel.run remoteAddr client server sched (Tunnel.relay_init w) in
       (Tunnel.bytesWritten (Tunnel.clientCounting s) = 0 /\
        Tunnel.bytesRead (Tunnel.serverCounting s) = 0) /\
       forall e, e ∈ Tunnel.trace s -> is_log e = true ->
         e = Log "[Client %s] Data transferred: sent %d bytes, received %d bytes"
                 [VStr remoteAddr; VInt 0; VInt 0]).
  { intros [_ H]. exact H. }
  apply (tunnel_run_invariant remoteAddr client server
    (fun s =>
       (Tunnel.bytesWritten (Tunnel.clientCounting s) = 0 /\
        Tunnel.bytesRead (Tunnel.serverCounting s) = 0) /\
       forall e, e ∈ Tunnel.trace s -> is_log e = true ->
         e = Log "[Client %s] Data transferred: sent %d bytes, received %d bytes"
                 [VStr remoteAddr; VInt 0; VInt 0])).
  2:{ split; [done|]. simpl. by intros e He%elem_of_nil. }
  intros [|] s s' [[Hbw Hbr] Htr] Hstep; unfold Tunnel.step in Hstep.
  - destruct (Tunnel.h_pc s) as [pc| | | |].
    + destruct (copy_step _ _ pc (Tunnel.net s)) as [pc' w'].
      by injection Hstep as <-.
    + injection Hstep as <-. simpl. split; [done|].
      intros e [He|He]%elem_of_app Hl; [by apply Htr|].
      apply list_elem_of_singleton in He as ->. by rewrite Hbw, Hbr.
    + injection Hstep as <-. simpl. split; [done|].
      intros e [He|He]%elem_of_app Hl; [by apply Htr|].
      apply list_elem_of_singleton in He as ->. discriminate.
    + injection Hstep as <-. simpl. split; [done|].
      intros e [He|He]%elem_of_app Hl; [by apply Htr|].
      apply list_elem_of_singleton in He as ->. discriminate.
    + discriminate.
  - destruct (copy_done (Tunnel.go_pc s)); [discriminate|].
    destruct (copy_step _ _ (Tunnel.go_pc s) (Tunnel.net s)) as [pc' w'].
    by injection Hstep as <-.
Qed.

End RelayClose.

(** X15: the relay of the tunnel proxy hands bytes on in order, without gaps
    and without repeats: in every state a schedule can reach, what the
    target has been given is a prefix of what the client had sent, and what
    the client has been given is a prefix of what the target had sent; when
    the goroutine's copy has ended without error the target has been given
    all of it. *)
Theorem X_tunnel_relay_keeps_bytes (remoteAddr : string) (client server : Go.conn)
    (sched : list Go.thread) (w : Go.net_state) :
  let s := Tunnel.run remoteAddr client server sched (Tunnel.relay_init w) in
  (exists x rest,
     Go.outbox (Go.target_sock (Tunnel.net s)) = Go.outbox (Go.target_sock w) ++ x /\
     Go.inbox (Go.client_sock w) = x ++ rest /\
     (Tunnel.go_pc s = Go.CopyDone None -> rest = EmptyString)) /\
  (exists y rest,
     Go.outbox (Go.client_sock (Tunnel.net s)) = Go.outbox (Go.client_sock w) ++ y /\
     Go.inbox (Go.target_sock w) = y ++ rest).
Proof.
  intros s. destruct (tunnel_run_conserved remoteAddr client server sched w) as [Hg Hh].
  apply conserved_prefix in Hg as (x & rest & Hx & Hd & Hn).
  apply conserved_prefix in Hh as (y & rest' & Hy & Hd' & _).
  split; [exists x, rest|exists y, rest']; auto.
Qed.

(** X16: the relay of [handleSOCKS] hands bytes on in order, without gaps and
    without repeats, through the counting wrappers: in every state a
    schedule can reach, what the target has been given is a prefix of what
    the client had sent, and what the client has been given is a prefix of
    what the target had sent; when the goroutine's copy has ended without
    error the target has been given all of it. *)
Theorem X_socks_relay_keeps_bytes (targetAddr : string) (targetConn : Go.conn)
    (sched : list Go.thread) (w : Go.net_state) :
  let s := Forward.run targetAddr targetConn sched (Forward.relay_init w) in
  (exists x rest,
     Go.outbox (Go.target_sock (Forward.net s)) = Go.outbox (Go.target_sock w) ++ x /\
     Go.inbox (Go.client_sock w) = x ++ rest /\
     (Forward.go_pc s = Go.CopyDone None -> rest = EmptyString)) /\
  (exists y rest,
     Go.outbox (Go.client_sock (Forward.net s)) = Go.outbox (Go.client_sock w) ++ y /\
     Go.inbox (Go.target_sock w) = y ++ rest).
Proof.
  intros s. destruct (forward_run_cons targetAddr targetConn sched w) as (_ & Hg & Hh).
  apply conserved_prefix in Hg as (x & rest & Hx & Hd & Hn).
  apply conserved_prefix in Hh as (y & rest' & Hy & Hd' & _).
  split; [exists x, rest|exists y, rest']; auto.
Qed.



(** X18: when the handler of the tunnel proxy has returned from the relay both
    sockets are closed, and it does not close either before its own copy is
    over; the handler of [handleSOCKS] closes the target socket when it
    returns and never closes the client socket. *)
Theorem X_relay_close_discipline (remoteAddr targetAddr : string)
    (client server targetConn : Go.conn) (sched : list Go.thread)
    (w : Go.net_state) :
  let s := Tunnel.run remoteAddr client server sched (Tunnel.relay_init w) in
  let s' := Forward.run targetAddr targetConn sched (Forward.relay_init w) in
  (Tunnel.h_pc s = Tunnel.HReturned ->
   Go.closed (Go.client_sock (Tunnel.net s)) = true /\
   Go.closed (Go.target_sock (Tunnel.net s)) = true) /\
  ((exists pc, Tunnel.h_pc s = Tunnel.HCopy pc) ->
   Go.closed (Go.client_sock (Tunnel.net s)) = Go.closed (Go.client_sock w) /\
   Go.closed (Go.target_sock (Tunnel.net s)) = Go.closed (Go.target_sock w)) /\
  (Forward.h_pc s' = Forward.HReturned ->
   Go.closed (Go.target_sock (Forward.net s')) = true) /\
  Go.closed (Go.client_sock (Forward.net s')) = Go.closed (Go.client_sock w).
Proof.
  intros s s'.
  destruct (tunnel_run_closed remoteAddr client server sched w) as [Hc Ht].
  destruct (forward_run_closed targetAddr targetConn sched w) as [Hc' Ht'].
  fold s in Hc, Ht. fold s' in Hc', Ht'.
  split; [|split; [|split]].
  - intros Hr. rewrite Hc, Ht, Hr. by rewrite !orb_true_r.
  - intros [pc Hpc]. rewrite Hc, Ht, Hpc. by rewrite !orb_false_r.
  - intros Hr. rewrite Ht', Hr. by rewrite orb_true_r.
  - done.
Qed.

Lemma X_relay_close_discipline_witness :
  let w := Go.mkNet (Go.mkSocket "abc" None EmptyString false)
                    (Go.mkSocket EmptyString None EmptyString false) in
  let sched := [Go.Handler; Go.Handler; Go.Handler; Go.Handler] in
  Go.closed (Go.client_sock (Tunnel.net
    (Tunnel.run "10.0.0.1" (Go.mkConn 3 "c") (Go.mkConn 9 "t") sched
       (Tunnel.relay_init w)))) = true /\
  Go.closed (Go.target_sock (Forward.net
    (Forward.run "t" (Go.mkConn 9 "t") sched (Forward.relay_init w)))) = true.
Proof.
  intros w sched.
  pose proof (X_relay_close_discipline "10.0.0.1" "t" (Go.mkConn 3 "c")
                (Go.mkConn 9 "t") (Go.mkConn 9 "t") sched w) as (H1 & _ & H3 & _).
  split; [apply H1; reflexivity|apply H3; reflexivity].
Defined.

(** X19: whatever the relay of the tunnel proxy moves, the totals it logs are 0
    and 0: [io.Copy] is given [client] and [server], not the counting
    wrappers, so the counters are never advanced. *)
Theorem X_tunnel_logs_zero_totals (remoteAddr : string) (client server : Go.conn)
    (sched : list Go.thread) (w : Go.net_state) (e : Go.event) :
  e ∈ Tunnel.trace (Tunnel.run remoteAddr client server sched (Tunnel.relay_init w)) ->
  Obs.is_log e = true ->
  e = Go.Log "[Client %s] Data transferred: sent %d bytes, received %d bytes"
             [Go.VStr remoteAddr; Go.VInt 0; Go.VInt 0].
Proof. apply tunnel_run_log. Qed.

Lemma X_tunnel_logs_zero_totals_witness :
  let w := Go.mkNet (Go.mkSocket "abc" None EmptyString false)
                    (Go.mkSocket "hello" None EmptyString false) in
  let s := Tunnel.run "10.0.0.1" (Go.mkConn 3 "c") (Go.mkConn 9 "t")
             [Go.Goroutine; Go.Goroutine; Go.Goroutine;
              Go.Handler; Go.Handler; Go.Handler; Go.Handler]
             (Tunnel.relay_init w) in
  Go.outbox (Go.target_sock (Tunnel.net s)) = "abc" /\
  Go.outbox (Go.client_sock (Tunnel.net s)) = "hello" /\
  Tunnel.trace s =
    [Go.Log "[Client %s] Data transferred: sent %d bytes, received %d bytes"
            [Go.VStr "10.0.0.1"; Go.VInt 0; Go.VInt 0]].
Proof.
  intros w s. split; [reflexivity|]. split; [reflexivity|].
  assert (Hin : exists e, Tunnel.trace s = [e] /\ Obs.is_log e = true)
    by (eexists; split; reflexivity).
  destruct Hin as (e & He & Hl). rewrite He. f_equal.
  apply (X_tunnel_logs_zero_totals "10.0.0.1" (Go.mkConn 3 "c") (Go.mkConn 9 "t")
           [Go.Goroutine; Go.Goroutine; Go.Goroutine;
            Go.Handler; Go.Handler; Go.Handler; Go.Handler] w e); [|done].
  fold s. rewrite He. left.
Defined.

(** X20: the relay of [handleSOCKS] writes its log line once, after the
    handler's own [io.Copy] has returned, and closes the target connection
    only after the log line. *)
Theorem X_socks_log_then_close (targetAddr : string) (targetConn : Go.conn)
    (sched : list Go.thread) (w : Go.net_state) :
  Obs.forward_handler_inv targetAddr targetConn
    (Forward.run targetAddr targetConn sched (Forward.relay_init w)).
Proof. apply forward_handler_inv_run. Qed.

(** ** The HTTP handler *)

Section HTTPFacts.
Import Go Obs Rel ForwardHTTP.
Context {W Wr Rd : Type} `{!Writer W Wr} `{!Reader W Rd}.
Variable blacklist : gmap string unit.
Variable Do : Request -> Response Rd + error.

(** A property of the state that every step of a copy keeps holds where
    the copy stands when its fuel is spent. *)
Lemma copy_loop_invariant {S : Type} (read : Z -> S -> result * string * S)
    (write : string -> S -> result * S) (P : copy_pc -> S -> Prop) :
  (forall pc st, P pc st ->
     P (copy_step read write pc st).1 (copy_step read write pc st).2) ->
  forall fuel pc st, P pc st ->
    P (copy_loop read write fuel pc st).1 (copy_loop read write fuel pc st).2.
Proof.
  intros Hstep fuel. induction fuel as [|k IH]; intros pc st HP; simpl; [done|].
  destruct (copy_done pc); [done|].
  specialize (Hstep pc st HP).
  destruct (copy_step read write pc st) as [pc' st']. by apply IH.
Qed.

Lemma headers_not_status (h : gmap string (list string)) :
  Forall (fun e => is_status e = false)
         (List.map (fun kv => HSetHeader kv.1 kv.2) (map_to_list h)).
Proof. apply Forall_forall. intros e (kv & -> & _)%list_elem_of_fmap. done. Qed.

Lemma headers_elem (h : gmap string (list string)) (e : http_event) :
  e ∈ List.map (fun kv => HSetHeader kv.1 kv.2) (map_to_list h) <->
  exists k v, e = HSetHeader k v /\ h !! k = Some v.
Proof.
  split.
  - intros ([k v] & -> & Hin)%list_elem_of_fmap.
    exists k, v. split; [done|]. by apply elem_of_map_to_list.
  - intros (k & v & -> & Hl). apply list_elem_of_fmap. exists (k, v).
    split; [done|]. by apply elem_of_map_to_list.
Qed.

(** The three ways [handleHTTP] goes. *)
Lemma handleHTTP_cases (fuel : nat) (w : Wr) (r : Request) (st : W) :
  let logged := HLog "[HTTP] [Client %s], target: %s"
                     [VStr (RemoteAddr r); VStr (URL_String r)] in
  (Forward.isBlacklisted blacklist (URL_Host r) = true /\
   handleHTTP blacklist Do fuel w r st =
     ([logged; HWriteHeader StatusTeapot], st, true)) \/
  (Forward.isBlacklisted blacklist (URL_Host r) = false /\
   exists err, Do r = inr err /\
   handleHTTP blacklist Do fuel w r st =
     ([logged; HDo r; HError (Error_text err) StatusInternalServerError], st, true)) \/
  (Forward.isBlacklisted blacklist (URL_Host r) = false /\
   exists resp, Do r = inl resp /\
   let run := copy_loop (body_Read (Body resp)) cw_Write fuel AtRead
                        (Forward.mkCountingWriter w 0, st) in
   let sent := ([logged; HDo r] ++
                List.map (fun kv => HSetHeader kv.1 kv.2) (map_to_list (Header resp)) ++
                [HWriteHeader (StatusCode resp)])%list in
   handleHTTP blacklist Do fuel w r st =
     if copy_done run.1
     then ((sent ++
            [HLog ("HTTP request to %s transferred %d bytes" ++ String "010" EmptyString)
                  [VStr (URL_String r); VInt (Forward.bytesWritten run.2.1)];
             HBodyClose])%list, run.2.2, true)
     else (sent, run.2.2, false)).
Proof.
  intros logged. unfold handleHTTP.
  destruct (Forward.isBlacklisted blacklist (URL_Host r)); [by left|right].
  destruct (Do r) as [resp|err]; [right|left].
  - split; [done|]. exists resp. split; [done|]. cbv zeta.
    destruct (copy_loop _ _ fuel AtRead _) as [pc [cw st']]. simpl.
    by destruct (copy_done pc).
  - split; [done|]. by exists err.
Qed.

(** When the origin answers, what [handleHTTP] does is the request log,
    the request, the headers, the status, and then, if its copy has come to
    an end, the second log line and the close of the body. *)
Lemma handleHTTP_fetched (fuel : nat) (w : Wr) (r : Request) (st : W)
    (resp : Response Rd) :
  Forward.isBlacklisted blacklist (URL_Host r) = false ->
  Do r = inl resp ->
  exists tail,
    (handleHTTP blacklist Do fuel w r st).1.1 =
      ([HLog "[HTTP] [Client %s], target: %s"
             [VStr (RemoteAddr r); VStr (URL_String r)]; HDo r] ++
       List.map (fun kv => HSetHeader kv.1 kv.2) (map_to_list (Header resp)) ++
       [HWriteHeader (StatusCode resp)] ++ tail)%list /\
    ((tail = [] /\ (handleHTTP blacklist Do fuel w r st).2 = false) \/
     (exists n,
        tail = [HLog ("HTTP request to %s transferred %d bytes" ++ String "010" EmptyString)
                     [VStr (URL_String r); VInt n]; HBodyClose] /\
        (handleHTTP blacklist Do fuel w r st).2 = true)).
Proof.
  intros Hb Hd.
  destruct (handleHTTP_cases fuel w r st)
    as [[Hb' _]|[(_ & err & Hd' & _)|(_ & resp' & Hd' & Heq)]];
    [congruence|congruence|].
  assert (resp' = resp) as -> by congruence.
  rewrite Heq. cbv zeta. destruct (copy_done _); cbn [fst snd].
  - eexists. split; [by rewrite <- !app_assoc|]. right. by eexists.
  - exists []. split; [by rewrite app_nil_r|]. by left.
Qed.

End HTTPFacts.

Section HTTPBody.
Import Go Obs Rel ForwardHTTP.

(** The state a step of a copy leaves is the state its one call leaves. *)
Lemma copy_step_state {S : Type} (read : Z -> S -> result * string * S)
    (write : string -> S -> result * S) (pc : copy_pc) (st : S) :
  (copy_step read write pc st).2 =
  match pc with
  | AtRead => (read copyBufSize st).2
  | AtWrite chunk _ => (write chunk st).2
  | CopyDone _ => st
  end.
Proof.
  unfold copy_step. destruct pc as [|chunk er|err]; [| |done].
  - destruct (read copyBufSize st) as [[[nr er] buf] st']. cbn [fst snd].
    destruct (0 <? nr); [done|]. by destruct er.
  - destruct (write chunk st) as [[nw ew] st']. cbn [fst snd].
    destruct ((nw <? 0) || (len chunk <? nw)); cbn [fst snd]; [done|].
    destruct ew; [done|]. destruct (negb (len chunk =? nw)); [done|].
    by destruct er.
Qed.

(** A step of the copy of [handleHTTP], from the body on socket [a] to a
    client on the other socket, acts on the sockets as the same step
    without the counting wrapper, and adds to the counter what [Write]
    reported. *)
Lemma http_copy_sim (a : sock) (pc : copy_pc)
    (st : Forward.countingWriter sock * net_state) :
  Forward.writer st.1 = other a ->
  let r := copy_step (body_Read a) cw_Write pc st in
  let raw := copy_step (Read a) (Write (other a)) pc st.2 in
  r.1 = raw.1 /\ r.2.2 = raw.2 /\ Forward.writer r.2.1 = other a /\
  Forward.bytesWritten r.2.1 =
    match pc with
    | AtWrite chunk _ =>
        AddInt64 (Forward.bytesWritten st.1)
                 (int64 (Write (other a) chunk st.2).1.1)
    | _ => Forward.bytesWritten st.1
    end.
Proof.
  destruct st as [cw w]. cbn [fst snd]. intros Hw.
  unfold copy_step, body_Read, cw_Write. cbn [fst snd].
  destruct pc as [|chunk er|err].
  - destruct (Read a copyBufSize w) as [[[nr er] buf] w'].
    cbn [fst snd]. destruct (0 <? nr); [done|]. by destruct er.
  - rewrite forward_Write_eq, Hw.
    destruct (Write (other a) chunk w) as [[nw ew] w'].
    cbn [fst snd].
    destruct ((nw <? 0) || (len chunk <? nw)); cbn [fst snd]; [done|].
    destruct ew; [done|]. destruct (negb (len chunk =? nw)); [done|].
    by destruct er.
  - done.
Qed.

Lemma copy_step_steps_left (a : sock) (pc : copy_pc) (w : net_state) :
  copy_done pc = false ->
  (steps_left a (copy_step (Read a) (Write (other a)) pc w).1
                (copy_step (Read a) (Write (other a)) pc w).2 < steps_left a pc w)%nat.
Proof.
  intros Hd. unfold copy_step. destruct pc as [|chunk er|err]; [| |done].
  - pose proof (sock_Read_spec a copyBufSize w copyBufSize_pos) as Hr.
    destruct (Read a copyBufSize w) as [[[nr er] buf] w'].
    destruct Hr as (Hlen & _ & Hin & _ & _ & _ & _ & Hzero).
    destruct (0 <? nr) eqn:Hnr; cbn [fst snd steps_left].
    + apply Z.ltb_lt in Hnr. rewrite Hin, length_append.
      unfold len in Hlen. lia.
    + apply Z.ltb_ge in Hnr. destruct (Hzero Hnr) as (_ & Hne & _).
      destruct er; [simpl; lia|done].
  - pose proof (sock_Write_spec (other a) chunk w) as Hw.
    destruct (Write (other a) chunk w) as [[nw ew] w'].
    rewrite other_other in Hw. destruct Hw as (_ & _ & Hoth & _).
    cbn [fst snd].
    destruct ((nw <? 0) || (len chunk <? nw)); cbn [fst snd steps_left]; [lia|].
    destruct ew; cbn [fst snd steps_left]; [lia|].
    destruct (negb (len chunk =? nw)); cbn [fst snd steps_left]; [lia|].
    destruct er; cbn [fst snd steps_left]; rewrite ?Hoth; lia.
Qed.

(** With that much fuel the copy of [handleHTTP] comes to its end. *)
Lemma http_copy_terminates (a : sock) (fuel : nat) (pc : copy_pc)
    (st : Forward.countingWriter sock * net_state) :
  Forward.writer st.1 = other a ->
  (steps_left a pc st.2 <= fuel)%nat ->
  copy_done (copy_loop (body_Read a) cw_Write fuel pc st).1 = true.
Proof.
  revert pc st. induction fuel as [|k IH]; intros pc st Hw Hfuel.
  - simpl. destruct pc; simpl in *; try lia; done.
  - simpl. destruct (copy_done pc) eqn:Hd; [done|].
    pose proof (http_copy_sim a pc st Hw) as (H1 & H2 & H3 & _).
    pose proof (copy_step_steps_left a pc st.2 Hd) as Hlt.
    rewrite <- H1, <- H2 in Hlt.
    destruct (copy_step (body_Read a) cw_Write pc st) as [pc' st'].
    cbn [fst snd] in *. apply IH; [done|lia].
Qed.

Lemma http_copy_step_inv (a : sock) (data out0 : string) (pc : copy_pc)
    (st : Forward.countingWriter sock * net_state) :
  len data <= MaxInt64 ->
  http_inv a data out0 pc st ->
  http_inv a data out0 (copy_step (body_Read a) cw_Write pc st).1
                       (copy_step (body_Read a) cw_Write pc st).2.
Proof.
  intros Hmax (Hw & Hc & Hb).
  pose proof (http_copy_sim a pc st Hw) as (H1 & H2 & H3 & H4).
  pose proof (copy_step_conserved a data out0 pc st.2 Hc) as Hc'.
  cbv zeta in H1, H2, H3, H4.
  split; [done|]. split; [by rewrite H1, H2|].
  rewrite H4, H2. clear H1 H2 H3 H4 Hc'.
  destruct Hc as (x & Hout & Hpc).
  pose proof (len_nonneg x). pose proof (len_nonneg (inbox (get_sock st.2 a))).
  rewrite Hout, len_append in Hb.
  rewrite copy_step_state.
  destruct pc as [|chunk er|err].
  - pose proof (sock_Read_spec a copyBufSize st.2 copyBufSize_pos) as Hspec.
    destruct (Read a copyBufSize st.2) as [[[nr er] buf] w1].
    destruct Hspec as (_ & _ & _ & _ & _ & Hoth & _ & _).
    cbn [fst snd]. rewrite Hoth, Hout, len_append. lia.
  - destruct Hpc as [-> Hdata].
    pose proof (sock_Write_spec (other a) chunk st.2) as Hspec.
    destruct (Write (other a) chunk st.2) as [[nw ew] w1].
    assert (Hl : len data = len x + len chunk + len (inbox (get_sock st.2 a))).
    { rewrite Hdata, !len_append. lia. }
    pose proof (len_nonneg chunk).
    cbn [fst snd].
    destruct Hspec as (_ & _ & _ & [(-> & -> & Hout')|(-> & -> & ->)]).
    + rewrite Hout', Hout, !len_append.
      rewrite no_wrap_add by (unfold no_wrap; lia). lia.
    + rewrite Hout, len_append.
      rewrite no_wrap_add by (unfold no_wrap; lia). lia.
  - rewrite Hout, len_append. lia.
Qed.

(** A step of a copy on which nothing has gone wrong goes well. *)
Lemma copy_step_clean (a : sock) (pc : copy_pc) (w : net_state) :
  clean a pc w ->
  clean a (copy_step (Read a) (Write (other a)) pc w).1
          (copy_step (Read a) (Write (other a)) pc w).2.
Proof.
  intros (Ha & Hb & He & Hpc). unfold copy_step, Read, Write, sock_Reader, sock_Writer.
  destruct pc as [|chunk er|err].
  - rewrite Ha. destruct (len (inbox (get_sock w a)) =? 0) eqn:H0.
    + rewrite He. simpl. done.
    + apply Z.eqb_neq in H0. pose proof (len_nonneg (inbox (get_sock w a))).
      assert ((0 <? Z.min copyBufSize (len (inbox (get_sock w a)))) = true) as ->.
      { apply Z.ltb_lt. unfold copyBufSize. lia. }
      cbn [fst snd]. unfold clean. rewrite get_set_same, get_set_other. done.
  - subst er. rewrite Hb. cbn [fst snd].
    pose proof (len_nonneg chunk).
    assert (((len chunk <? 0) || (len chunk <? len chunk)) = false) as ->.
    { apply orb_false_iff. split; apply Z.ltb_ge; lia. }
    rewrite Z.eqb_refl. cbn [negb fst snd]. unfold clean.
    destruct a; simpl in *; by rewrite ?Ha, ?He.
  - done.
Qed.

End HTTPBody.

(** X21: [handleHTTP] calls [client.Do] exactly when the host of the URL is
    not an entry of the blacklist, and calls it on the request it was
    given; for a blacklisted host it logs the request, answers 418 and
    returns without a [Write] on [w]. *)
Theorem X_http_origin_contacted_iff_allowed {W Wr Rd : Type}
    `{!Go.Writer W Wr} `{!Go.Reader W Rd} (blacklist : gmap string unit)
    (Do : ForwardHTTP.Request -> ForwardHTTP.Response Rd + Go.error)
    (fuel : nat) (w : Wr) (r : ForwardHTTP.Request) (st : W) :
  let res := ForwardHTTP.handleHTTP blacklist Do fuel w r st in
  (ForwardHTTP.HDo r ∈ res.1.1 <->
   Forward.isBlacklisted blacklist (ForwardHTTP.URL_Host r) = false) /\
  (forall r', ForwardHTTP.HDo r' ∈ res.1.1 -> r' = r) /\
  (Forward.isBlacklisted blacklist (ForwardHTTP.URL_Host r) = true ->
   res = ([ForwardHTTP.HLog "[HTTP] [Client %s], target: %s"
             [Go.VStr (ForwardHTTP.RemoteAddr r); Go.VStr (ForwardHTTP.URL_String r)];
           ForwardHTTP.HWriteHeader 418], st, true)).
Proof.
  intros res.
  assert (Hnh : forall (h : gmap string (list string)) r',
            ForwardHTTP.HDo r' ∈
              List.map (fun kv => ForwardHTTP.HSetHeader kv.1 kv.2) (map_to_list h) ->
            False).
  { intros h r' (k & v & Heq & _)%headers_elem. discriminate. }
  destruct (handleHTTP_cases blacklist Do fuel w r st)
    as [[Hb Heq]|[(Hb & err & Hd & Heq)|(Hb & resp & Hd & Heq)]];
    subst res; rewrite Heq, Hb; clear Heq.
  - split; [|split; [|done]].
    + split; [|done]. cbn [fst]. rewrite !elem_of_cons, elem_of_nil.
      intros [?|[?|[]]]; discriminate.
    + intros r'. cbn [fst]. rewrite !elem_of_cons, elem_of_nil.
      intros [?|[?|[]]]; discriminate.
  - split; [|split; [|done]].
    + split; [done|]. intros _. cbn [fst]. rewrite !elem_of_cons. auto.
    + intros r'. cbn [fst]. rewrite !elem_of_cons, elem_of_nil.
      intros [?|[?|[?|[]]]]; congruence.
  - cbv zeta.
    destruct (Go.copy_done _); cbn [fst].
    + split; [|split; [|done]].
      * split; [done|]. intros _. rewrite !elem_of_app, !elem_of_cons. auto.
      * intros r'. rewrite !elem_of_app, !elem_of_cons, !elem_of_nil.
        intros [[[?|[?|[]]]|[Hh|[?|[]]]]|[?|[?|[]]]]; try congruence.
        by destruct (Hnh _ _ Hh).
    + split; [|split; [|done]].
      * split; [done|]. intros _. rewrite !elem_of_app, !elem_of_cons. auto.
      * intros r'. rewrite !elem_of_app, !elem_of_cons, !elem_of_nil.
        intros [[?|[?|[]]]|[Hh|[?|[]]]]; try congruence.
        by destruct (Hnh _ _ Hh).
Qed.

Lemma X_http_origin_contacted_iff_allowed_witness :
  let bl : gmap string unit := {[ "blocked.example" := tt ]} in
  let r := ForwardHTTP.mkRequest "10.0.0.1:5555" "http://blocked.example/x"
                                 "blocked.example" in
  let st := Go.mkNet (Go.mkSocket EmptyString None EmptyString false)
                     (Go.mkSocket "hello" None EmptyString false) in
  ForwardHTTP.handleHTTP bl
    (fun _ => inl (ForwardHTTP.mkResponse 200 ∅ Go.TargetSock)) 9 Go.ClientSock r st =
  ([ForwardHTTP.HLog "[HTTP] [Client %s], target: %s"
      [Go.VStr "10.0.0.1:5555"; Go.VStr "http://blocked.example/x"];
    ForwardHTTP.HWriteHeader 418], st, true).
Proof.
  intros bl r st.
  apply (X_http_origin_contacted_iff_allowed bl
           (fun _ => inl (ForwardHTTP.mkResponse 200 ∅ Go.TargetSock))
           9 Go.ClientSock r st).
  reflexivity.
Defined.

(** X22: [handleHTTP] sends the status line exactly once, whichever way it
    goes, and every header it sets it sets before that: after
    [w.WriteHeader] or [http.Error] it touches neither the status nor the
    header map. *)
Theorem X_http_status_once_after_headers {W Wr Rd : Type}
    `{!Go.Writer W Wr} `{!Go.Reader W Rd} (blacklist : gmap string unit)
    (Do : ForwardHTTP.Request -> ForwardHTTP.Response Rd + Go.error)
    (fuel : nat) (w : Wr) (r : ForwardHTTP.Request) (st : W) :
  exists pre s post,
    (ForwardHTTP.handleHTTP blacklist Do fuel w r st).1.1 = (pre ++ s :: post)%list /\
    ForwardHTTP.is_status s = true /\
    Forall (fun e => ForwardHTTP.is_status e = false) pre /\
    Forall (fun e => ForwardHTTP.is_status e = false /\
                     ForwardHTTP.is_header e = false) post.
Proof.
  destruct (handleHTTP_cases blacklist Do fuel w r st)
    as [[Hb Heq]|[(Hb & err & Hd & Heq)|(Hb & resp & Hd & Heq)]];
    rewrite Heq; clear Heq.
  - eexists [_], _, []. split; [reflexivity|]. split; [done|].
    split; repeat constructor.
  - eexists [_; _], _, []. split; [reflexivity|]. split; [done|].
    split; repeat constructor.
  - cbv zeta. pose proof (headers_not_status (ForwardHTTP.Header resp)) as Hh.
    destruct (Go.copy_done _); cbn [fst].
    + eexists (_ :: _ :: List.map _ _), _, [_; _].
      split; [by rewrite <- !app_assoc|]. split; [done|].
      split; [|repeat constructor]. by repeat constructor.
    + eexists (_ :: _ :: List.map _ _), _, [].
      split; [reflexivity|]. split; [done|].
      split; [|repeat constructor]. by repeat constructor.
Qed.

(** X23: when [client.Do] returns a response, [handleHTTP] copies the headers
    of the response, each key with its values and nothing else, and the
    status it sends is the status code of the response.  ([client.Do] is
    any function from the request to a response or an error.) *)
Theorem X_http_headers_and_status_copied {W Wr Rd : Type}
    `{!Go.Writer W Wr} `{!Go.Reader W Rd} (blacklist : gmap string unit)
    (Do : ForwardHTTP.Request -> ForwardHTTP.Response Rd + Go.error)
    (fuel : nat) (w : Wr) (r : ForwardHTTP.Request) (st : W)
    (resp : ForwardHTTP.Response Rd) :
  Forward.isBlacklisted blacklist (ForwardHTTP.URL_Host r) = false ->
  Do r = inl resp ->
  let events := (ForwardHTTP.handleHTTP blacklist Do fuel w r st).1.1 in
  (forall k v, ForwardHTTP.HSetHeader k v ∈ events <->
               ForwardHTTP.Header resp !! k = Some v) /\
  (forall e, e ∈ events -> ForwardHTTP.is_status e = true ->
             e = ForwardHTTP.HWriteHeader (ForwardHTTP.StatusCode resp)) /\
  ForwardHTTP.HWriteHeader (ForwardHTTP.StatusCode resp) ∈ events.
Proof.
  intros Hb Hd events.
  destruct (handleHTTP_fetched blacklist Do fuel w r st resp Hb Hd)
    as (tail & Hev & Htail).
  fold events in Hev.
  pose proof (headers_elem (ForwardHTTP.Header resp)) as Hh.
  assert (Ht : forall e, e ∈ tail ->
            ForwardHTTP.is_status e = false /\ ForwardHTTP.is_header e = false).
  { intros e He. destruct Htail as [[-> _]|(n & -> & _)].
    - by apply elem_of_nil in He.
    - apply elem_of_cons in He as [->|He]; [done|].
      apply list_elem_of_singleton in He as ->. done. }
  rewrite Hev. split; [|split].
  - intros k v. rewrite !elem_of_app, !elem_of_cons, !elem_of_nil, Hh. split.
    + intros [[?|[?|[]]]|[(k' & v' & Heq & Hl)|[[?|[]]|Hin]]]; try discriminate.
      * by injection Heq as -> ->.
      * by destruct (Ht _ Hin).
    + intros Hl. right. left. by exists k, v.
  - intros e. rewrite !elem_of_app, !elem_of_cons, !elem_of_nil, Hh.
    intros [[->|[->|[]]]|[(k' & v' & -> & Hl)|[[->|[]]|Hin]]] Hs;
      try discriminate; [done|].
    destruct (Ht _ Hin). congruence.
  - rewrite !elem_of_app, !elem_of_cons. auto.
Qed.

Lemma X_http_headers_and_status_copied_witness :
  let r := ForwardHTTP.mkRequest "10.0.0.1:5555" "http://origin.example/x"
                                 "origin.example" in
  let st := Go.mkNet (Go.mkSocket EmptyString None EmptyString false)
                     (Go.mkSocket "hello" None EmptyString false) in
  let resp := ForwardHTTP.mkResponse 404 {[ "Content-Type" := ["text/plain"] ]}
                                     Go.TargetSock in
  ForwardHTTP.HWriteHeader 404 ∈
    (ForwardHTTP.handleHTTP {[ "blocked.example" := tt ]} (fun _ => inl resp)
       9 Go.ClientSock r st).1.1.
Proof.
  intros r st resp.
  apply (X_http_headers_and_status_copied {[ "blocked.example" := tt ]}
           (fun _ => inl resp) 9 Go.ClientSock r st resp); reflexivity.
Defined.

(** X24: when [handleHTTP] has no response to relay, because the host is
    blacklisted or because [client.Do] failed, it returns without a [Write]
    of its own on [w] and without closing a body; what it sends is
    [w.WriteHeader(418)] in the first case and
    [http.Error(w, err.Error(), 500)] in the second. *)
Theorem X_http_no_response_no_body {W Wr Rd : Type}
    `{!Go.Writer W Wr} `{!Go.Reader W Rd} (blacklist : gmap string unit)
    (Do : ForwardHTTP.Request -> ForwardHTTP.Response Rd + Go.error)
    (fuel : nat) (w : Wr) (r : ForwardHTTP.Request) (st : W) :
  Forward.isBlacklisted blacklist (ForwardHTTP.URL_Host r) = true \/
  (exists err, Do r = inr err) ->
  let res := ForwardHTTP.handleHTTP blacklist Do fuel w r st in
  res.1.2 = st /\ res.2 = true /\
  (ForwardHTTP.HBodyClose ∉ res.1.1) /\
  (forall e, e ∈ res.1.1 -> ForwardHTTP.is_status e = true ->
     if Forward.isBlacklisted blacklist (ForwardHTTP.URL_Host r)
     then e = ForwardHTTP.HWriteHeader 418
     else exists err, Do r = inr err /\
                      e = ForwardHTTP.HError (ForwardHTTP.Error_text err) 500).
Proof.
  intros Hno res.
  destruct (handleHTTP_cases blacklist Do fuel w r st)
    as [[Hb Heq]|[(Hb & err & Hd & Heq)|(Hb & resp & Hd & Heq)]].
  - subst res. rewrite Heq, Hb. cbn [fst snd]. repeat split.
    + rewrite !elem_of_cons, elem_of_nil. intros [?|[?|[]]]; discriminate.
    + intros e. rewrite !elem_of_cons, elem_of_nil.
      intros [->|[->|[]]] Hs; [discriminate|done].
  - subst res. rewrite Heq, Hb. cbn [fst snd]. repeat split.
    + rewrite !elem_of_cons, elem_of_nil. intros [?|[?|[?|[]]]]; discriminate.
    + intros e. rewrite !elem_of_cons, elem_of_nil.
      intros [->|[->|[->|[]]]] Hs; try discriminate. by exists err.
  - destruct Hno as [Hb'|[err Hd']]; congruence.
Qed.

Lemma X_http_no_response_no_body_witness :
  let r := ForwardHTTP.mkRequest "10.0.0.1:5555" "http://origin.example/x"
                                 "origin.example" in
  let st := Go.mkNet (Go.mkSocket EmptyString None "sent before" false)
                     (Go.mkSocket "hello" None EmptyString false) in
  let res := ForwardHTTP.handleHTTP (Rd := Go.sock) {[ "blocked.example" := tt ]}
               (fun _ => inr (Go.OSError "dial tcp: connection refused"))
               9 Go.ClientSock r st in
  res.1.2 = st /\ res.2 = true /\
  ForwardHTTP.HError "dial tcp: connection refused" 500 ∈ res.1.1.
Proof.
  intros r st res.
  destruct (X_http_no_response_no_body (Rd := Go.sock) {[ "blocked.example" := tt ]}
              (fun _ => inr (Go.OSError "dial tcp: connection refused"))
              9 Go.ClientSock r st) as (H1 & H2 & _).
  - right. by eexists.
  - split; [exact H1|]. split; [exact H2|].
    vm_compute. right. right. left.
Defined.

(** X25: [handleHTTP] closes the body of the response exactly when it returns
    after [client.Do] has returned a response, and the close is then the
    last thing it does; the second log line comes just before it. *)
Theorem X_http_body_closed_last {W Wr Rd : Type}
    `{!Go.Writer W Wr} `{!Go.Reader W Rd} (blacklist : gmap string unit)
    (Do : ForwardHTTP.Request -> ForwardHTTP.Response Rd + Go.error)
    (fuel : nat) (w : Wr) (r : ForwardHTTP.Request) (st : W) :
  let res := ForwardHTTP.handleHTTP blacklist Do fuel w r st in
  (ForwardHTTP.HBodyClose ∈ res.1.1 <->
   Forward.isBlacklisted blacklist (ForwardHTTP.URL_Host r) = false /\
   (exists resp, Do r = inl resp) /\ res.2 = true) /\
  (ForwardHTTP.HBodyClose ∈ res.1.1 ->
   exists pre n,
     res.1.1 =
       (pre ++ [ForwardHTTP.HLog
                  ("HTTP request to %s transferred %d bytes" ++ String "010" EmptyString)
                  [Go.VStr (ForwardHTTP.URL_String r); Go.VInt n];
                ForwardHTTP.HBodyClose])%list /\
     ForwardHTTP.HBodyClose ∉ pre).
Proof.
  intros res.
  destruct (handleHTTP_cases blacklist Do fuel w r st)
    as [[Hb Heq]|[(Hb & err & Hd & Heq)|(Hb & resp & Hd & _)]].
  - assert (Hnc : ForwardHTTP.HBodyClose ∉ res.1.1).
    { subst res. rewrite Heq. cbn [fst].
      rewrite !elem_of_cons, elem_of_nil. intros [?|[?|[]]]; discriminate. }
    split; [|done]. split; [done|]. intros [? _]. congruence.
  - assert (Hnc : ForwardHTTP.HBodyClose ∉ res.1.1).
    { subst res. rewrite Heq. cbn [fst].
      rewrite !elem_of_cons, elem_of_nil. intros [?|[?|[?|[]]]]; discriminate. }
    split; [|done]. split; [done|]. intros (_ & [? ?] & _). congruence.
  - destruct (handleHTTP_fetched blacklist Do fuel w r st resp Hb Hd)
      as (tail & Hev & Htail). fold res in Hev, Htail.
    assert (Hpre : ForwardHTTP.HBodyClose ∉
              ([ForwardHTTP.HLog "[HTTP] [Client %s], target: %s"
                  [Go.VStr (ForwardHTTP.RemoteAddr r);
                   Go.VStr (ForwardHTTP.URL_String r)]; ForwardHTTP.HDo r] ++
               List.map (fun kv => ForwardHTTP.HSetHeader kv.1 kv.2)
                        (map_to_list (ForwardHTTP.Header resp)) ++
               [ForwardHTTP.HWriteHeader (ForwardHTTP.StatusCode resp)])%list).
    { rewrite !elem_of_app, !elem_of_cons, !elem_of_nil, headers_elem.
      intros [[?|[?|[]]]|[(k & v & ? & _)|[?|[]]]]; discriminate. }
    destruct Htail as [[-> Hr]|(n & -> & Hr)].
    + rewrite !app_nil_r in Hev. rewrite Hev, Hr.
      split; [|done]. split; [done|]. by intros (_ & _ & ?).
    + rewrite Hev, Hr. split.
      * split; [|rewrite !elem_of_app, !elem_of_cons; auto 10].
        intros _. split; [done|]. split; [by exists resp|done].
      * intros _. eexists _, n. split; [|exact Hpre]. by rewrite <- !app_assoc.
Qed.

Section HTTPDelivery.
Import Go Obs Rel ForwardHTTP.

(** The copy of [handleHTTP] from the origin's socket to the client's,
    given enough fuel: it comes to an end, the client has been given a
    prefix of the body, the counter is the length of that prefix, and the
    prefix is the whole body when nothing went wrong. *)
Lemma http_copy_delivers (fuel : nat) (st : net_state) :
  len (inbox (target_sock st)) <= MaxInt64 ->
  (2 * String.length (inbox (target_sock st)) + 1 <= fuel)%nat ->
  let run := copy_loop (body_Read TargetSock) cw_Write fuel AtRead
                       (Forward.mkCountingWriter ClientSock 0, st) in
  copy_done run.1 = true /\
  exists x rest,
    outbox (client_sock run.2.2) = outbox (client_sock st) ++ x /\
    inbox (target_sock st) = x ++ rest /\
    Forward.bytesWritten run.2.1 = len x /\
    (closed (client_sock st) = false -> closed (target_sock st) = false ->
     in_err (target_sock st) = None -> rest = EmptyString).
Proof.
  intros Hmax Hfuel run.
  assert (Hterm : copy_done run.1 = true).
  { apply (http_copy_terminates TargetSock); [done|exact Hfuel]. }
  split; [exact Hterm|].
  assert (Hinv : http_inv TargetSock (inbox (target_sock st)) (outbox (client_sock st))
                          run.1 run.2).
  { apply (copy_loop_invariant _ _
             (http_inv TargetSock (inbox (target_sock st)) (outbox (client_sock st)))).
    - intros pc s. by apply http_copy_step_inv.
    - split; [done|]. split; [apply (conserved_init TargetSock)|]. simpl. lia. }
  assert (Hclean : clean TargetSock AtRead st -> clean TargetSock run.1 run.2.2).
  { intros Hc.
    apply (copy_loop_invariant (body_Read TargetSock) cw_Write
             (fun pc s => Forward.writer s.1 = ClientSock /\ clean TargetSock pc s.2)).
    - intros pc s [Hw Hcl].
      pose proof (http_copy_sim TargetSock pc s Hw) as (H1 & H2 & H3 & _).
      cbv zeta in H1, H2, H3. rewrite H1, H2. split; [done|].
      by apply (copy_step_clean TargetSock).
    - done. }
  destruct Hinv as (_ & Hcons & Hbw).
  pose proof Hcons as (x & rest & Hout & Hdata & Hnone)%conserved_prefix.
  change (other TargetSock) with ClientSock in *. unfold get_sock in *.
  exists x, rest. split; [done|]. split; [done|]. split.
  - rewrite Hbw, Hout, len_append. lia.
  - intros Hc Ht He. apply Hnone.
    destruct Hclean as (_ & _ & _ & Hpc); [done|].
    clearbody run. destruct run as [pc s]. cbn [fst snd] in *.
    destruct pc as [|chunk er|err]; [discriminate|discriminate|by subst].
Qed.

End HTTPDelivery.

(** X26: when [client.Do] returns a response and [io.Copy] is given the calls
    it needs, [handleHTTP] returns, the client has been given a prefix of
    the body in order, and the number of bytes the handler logs is the
    length of that prefix: the copy is the handler's own, so the total is
    final when it is read.  When neither connection is closed and the body
    ends with [io.EOF] the client has been given the whole body.  (The body
    and the client are connections, the body has at most [MaxInt64] bytes,
    and [client.Do] is any function from the request to a response or an
    error.) *)
Theorem X_http_body_delivered_and_counted (blacklist : gmap string unit)
    (Do : ForwardHTTP.Request -> ForwardHTTP.Response Go.sock + Go.error)
    (fuel : nat) (r : ForwardHTTP.Request) (st : Go.net_state)
    (resp : ForwardHTTP.Response Go.sock) :
  Forward.isBlacklisted blacklist (ForwardHTTP.URL_Host r) = false ->
  Do r = inl resp ->
  ForwardHTTP.Body resp = Go.TargetSock ->
  Go.len (Go.inbox (Go.target_sock st)) <= Go.MaxInt64 ->
  (2 * String.length (Go.inbox (Go.target_sock st)) + 1 <= fuel)%nat ->
  let res := ForwardHTTP.handleHTTP blacklist Do fuel Go.ClientSock r st in
  res.2 = true /\
  exists x rest,
    Go.outbox (Go.client_sock res.1.2) = Go.outbox (Go.client_sock st) ++ x /\
    Go.inbox (Go.target_sock st) = x ++ rest /\
    ForwardHTTP.HLog
      ("HTTP request to %s transferred %d bytes" ++ String "010" EmptyString)
      [Go.VStr (ForwardHTTP.URL_String r); Go.VInt (Go.len x)] ∈ res.1.1 /\
    (Go.closed (Go.client_sock st) = false ->
     Go.closed (Go.target_sock st) = false ->
     Go.in_err (Go.target_sock st) = None -> rest = EmptyString).
Proof.
  intros Hb Hd Hbody Hmax Hfuel res.
  destruct (handleHTTP_cases blacklist Do fuel Go.ClientSock r st)
    as [[Hb' _]|[(_ & err & Hd' & _)|(_ & resp' & Hd' & Heq)]];
    [congruence|congruence|].
  assert (resp' = resp) as -> by congruence.
  rewrite Hbody in Heq. cbv zeta in Heq.
  destruct (http_copy_delivers fuel st Hmax Hfuel)
    as (Hdone & x & rest & Hout & Hdata & Hbw & Hall).
  cbv zeta in Hdone, Hout, Hbw. rewrite Hdone in Heq.
  subst res. rewrite Heq. cbn [fst snd]. split; [done|].
  exists x, rest. split; [done|]. split; [done|]. split; [|done].
  rewrite Hbw, !elem_of_app, !elem_of_cons. auto 10.
Qed.

Lemma X_http_body_delivered_and_counted_witness :
  let r := ForwardHTTP.mkRequest "10.0.0.1:5555" "http://origin.example/x"
                                 "origin.example" in
  let st := Go.mkNet (Go.mkSocket EmptyString None EmptyString false)
                     (Go.mkSocket "hello" None EmptyString false) in
  let resp := ForwardHTTP.mkResponse 200 {[ "Content-Type" := ["text/plain"] ]}
                                     Go.TargetSock in
  let res := ForwardHTTP.handleHTTP {[ "blocked.example" := tt ]}
               (fun _ => inl resp) 11 Go.ClientSock r st in
  res.2 = true /\
  Go.outbox (Go.client_sock res.1.2) = "hello" /\
  ForwardHTTP.HLog
    ("HTTP request to %s transferred %d bytes" ++ String "010" EmptyString)
    [Go.VStr "http://origin.example/x"; Go.VInt 5] ∈ res.1.1.
Proof.
  intros r st resp res.
  destruct (X_http_body_delivered_and_counted {[ "blocked.example" := tt ]}
              (fun _ => inl resp) 11 r st resp)
    as (Hret & x & rest & Hout & Hdata & Hlog & Hall);
    [reflexivity|reflexivity|reflexivity|vm_compute; discriminate|simpl; lia|].
  fold res in Hret, Hout, Hlog.
  assert (rest = EmptyString) as -> by (apply Hall; reflexivity).
  simpl in Hdata. rewrite append_empty_r in Hdata. subst x.
  split; [exact Hret|]. split; [exact Hout|exact Hlog].
Defined.

(** ** The two [main] functions *)

Section MainFacts.
Import Go Obs Main.

Lemma tunnel_accept_loop_clients (accepts : list (conn + error)) :
  started_clients (tunnel_accept_loop accepts) =
  omap (fun a => match a with inl c => Some c | inr _ => None end) accepts.
Proof.
  induction accepts as [|[c|err] accepts IH]; simpl; [done| |done].
  by rewrite IH.
Qed.

Lemma tunnel_accept_loop_events (accepts : list (conn + error)) (e : proc_event) :
  e ∈ tunnel_accept_loop accepts ->
  (exists c, e = PGoClient c) \/ (exists err, e = PLog "Error accepting:" [VErr err]).
Proof.
  induction accepts as [|[c|err] accepts IH]; simpl.
  - by intros ?%elem_of_nil.
  - intros [->|?]%elem_of_cons; [left; by exists c|auto].
  - intros [->|?]%elem_of_cons; [right; by exists err|auto].
Qed.












End MainFacts.

(** X27: [main] of the tunnel proxy listens only once the blacklist is loaded,
    on TCP and on [":" ++ PORT], with port 10000 when [PORT] is empty or
    not set; it starts a handler for every connection [Accept] returns, in
    order, also after a failed [Accept], and for none when the blacklist
    could not be loaded or the port could not be taken; after a fatal log
    line it does nothing. *)
Theorem X_tunnel_main_startup (getenv : string -> string)
    (fs : string -> Go.file) (listen : string -> string -> option Go.error)
    (accepts : list (Go.conn + Go.error)) :
  let port := if String.eqb (getenv "PORT") EmptyString then "10000"
              else getenv "PORT" in
  let loaded := Tunnel.loadBlacklist fs "blacklist.txt" ∅ in
  let res := Main.tunnel_main getenv fs listen accepts in
  res.1 = loaded.1 /\
  (forall n a, Main.PListen n a ∈ res.2 <->
               n = "tcp" /\ a = ":" ++ port /\ loaded.2 = None) /\
  Main.started_clients res.2 =
    match loaded.2, listen "tcp" (":" ++ port) with
    | None, None =>
        omap (fun a => match a with inl c => Some c | inr _ => None end) accepts
    | _, _ => []
    end /\
  (forall f args, Main.PFatal f args ∈ res.2 ->
                  last res.2 = Some (Main.PFatal f args)).
Proof.
  intros port loaded res. subst res. unfold Main.tunnel_main. fold port.
  fold loaded. destruct loaded as [bl [err|]]; cbn [fst snd].
  - split; [done|]. split; [|split; [done|]].
    + intros n a. rewrite list_elem_of_singleton. split; [discriminate|].
      by intros (_ & _ & ?).
    + intros f args ->%list_elem_of_singleton. done.
  - destruct (listen "tcp" (":" ++ port)) as [err|]; cbn [fst snd].
    + split; [done|]. split; [|split; [done|]].
      * intros n a. rewrite !elem_of_cons, elem_of_nil. split.
        -- intros [[= -> ->]|[?|[]]]; [done|discriminate].
        -- intros (-> & -> & _). by left.
      * intros f args. rewrite !elem_of_cons, elem_of_nil.
        intros [?|[->|[]]]; [discriminate|done].
    + split; [done|]. split; [|split].
      * intros n a. rewrite !elem_of_cons. split.
        -- intros [[= -> ->]|[?|Hin]]; [done|discriminate|].
           apply tunnel_accept_loop_events in Hin as [[c ?]|[e ?]]; discriminate.
        -- intros (-> & -> & _). by left.
      * simpl. apply tunnel_accept_loop_clients.
      * intros f args. rewrite !elem_of_cons.
        intros [?|[?|Hin]]; [discriminate|discriminate|].
        apply tunnel_accept_loop_events in Hin as [[c ?]|[e ?]]; discriminate.
Qed.



Section RelayReports.
Import Go Obs Rel.

(** A step of a copy from socket [a] only takes bytes from what [a] holds
    and only adds bytes to what the other socket was given. *)
Lemma copy_step_monotone (a : sock) (pc : copy_pc) (w : net_state) :
  let w' := (copy_step (Read a) (Write (other a)) pc w).2 in
  len (inbox (get_sock w' a)) <= len (inbox (get_sock w a)) /\
  len (outbox (get_sock w (other a))) <= len (outbox (get_sock w' (other a))).
Proof.
  cbv zeta. rewrite copy_step_state. destruct pc as [|chunk er|err]; [| |lia].
  - pose proof (sock_Read_spec a copyBufSize w copyBufSize_pos) as Hr.
    destruct (Read a copyBufSize w) as [[[nr er] buf] w'].
    destruct Hr as (_ & _ & Hin & _ & _ & Hoth & _ & _). cbn [fst snd].
    rewrite Hoth, Hin, len_append. pose proof (len_nonneg buf). lia.
  - pose proof (sock_Write_spec (other a) chunk w) as Hw.
    destruct (Write (other a) chunk w) as [[nw ew] w'].
    rewrite other_other in Hw.
    destruct Hw as (_ & _ & Hoth & [(_ & _ & Hout)|(_ & _ & ->)]); cbn [fst snd].
    + rewrite Hoth, Hout, len_append. pose proof (len_nonneg chunk). lia.
    + lia.
Qed.

(** The handler of [handleSOCKS] never touches the counters. *)
Lemma forward_handler_step_counters (targetAddr : string) (targetConn : conn)
    (s s' : Forward.relay_state) :
  Forward.step targetAddr targetConn Handler s = Some s' ->
  Forward.cr s' = Forward.cr s /\ Forward.cw s' = Forward.cw s.
Proof.
  unfold Forward.step. destruct (Forward.h_pc s) as [pc| | |].
  - destruct (copy_step _ _ pc (Forward.net s)) as [pc' w']. by intros [= <-].
  - by intros [= <-].
  - by intros [= <-].
  - discriminate.
Qed.

Lemma forward_run_reported (targetAddr : string) (targetConn : conn)
    (sched : list thread) (w : net_state) :
  len (inbox (client_sock w)) <= MaxInt64 ->
  reported targetAddr (Forward.run targetAddr targetConn sched (Forward.relay_init w)).
Proof.
  intros Hmax.
  cut (let s := Forward.run targetAddr targetConn sched (Forward.relay_init w) in
       forward_cons w s /\
       metered (inbox (client_sock w)) (outbox (target_sock w)) s /\
       reported targetAddr s).
  { by intros (_ & _ & H). }
  apply (forward_run_invariant targetAddr targetConn
           (fun s => forward_cons w s /\
                     metered (inbox (client_sock w)) (outbox (target_sock w)) s /\
                     reported targetAddr s)).
  2:{ split; [apply (forward_run_cons targetAddr targetConn [] w)|].
      split; [apply (forward_run_metered targetAddr targetConn [] w Hmax)|].
      split; [done|]. split; [done|]. intros r wr Hin. by apply elem_of_nil in Hin. }
  intros t s s' (Hcons & Hm & Hr0 & Hw0 & Hlog) Hstep.
  pose proof (forward_step_cons targetAddr targetConn w t s s' Hcons Hstep) as Hcons'.
  pose proof (forward_step_metered targetAddr targetConn w t s s' Hmax Hcons Hm Hstep)
    as Hm'.
  split; [done|]. split; [done|].
  destruct t.
  - (* the handler *)
    pose proof (forward_handler_step_counters targetAddr targetConn s s' Hstep)
      as [Hcr Hcw].
    unfold reported. rewrite Hcr, Hcw. split; [done|]. split; [done|].
    intros r wr Hin. unfold Forward.step in Hstep.
    destruct (Forward.h_pc s) as [pc| | |].
    + destruct (copy_step _ _ pc (Forward.net s)) as [pc' w'].
      injection Hstep as <-. by apply Hlog.
    + injection Hstep as <-. simpl in Hin.
      apply elem_of_app in Hin as [Hin|Hin]; [by apply Hlog|].
      apply list_elem_of_singleton in Hin. injection Hin as -> ->. lia.
    + injection Hstep as <-. simpl in Hin.
      apply elem_of_app in Hin as [Hin|Hin]; [by apply Hlog|].
      apply list_elem_of_singleton in Hin. discriminate.
    + discriminate.
  - (* the goroutine *)
    pose proof (forward_goroutine_step targetAddr targetConn s s' Hstep) as [_ Htr].
    destruct Hcons as ((Hrd & Hwr) & _).
    pose proof (forward_goroutine_sim s Hrd Hwr) as (_ & Hnet & _).
    pose proof (copy_step_monotone ClientSock (Forward.go_pc s) (Forward.net s))
      as [Hi Ho].
    cbv zeta in Hnet, Hi, Ho. change (other ClientSock) with TargetSock in Hi, Ho.
    rewrite <- Hnet in Hi, Ho. unfold get_sock in Hi, Ho.
    unfold Forward.step in Hstep.
    destruct (copy_done (Forward.go_pc s)); [discriminate|].
    destruct (copy_step Forward.cr_Read Forward.cw_Write (Forward.go_pc s) s)
      as [pc' s1]. injection Hstep as <-.
    destruct Hm as [Hm1 Hm2]. destruct Hm' as [Hm1' Hm2'].
    unfold Forward.set_go_pc in *.
    cbn [fst snd Forward.cr Forward.cw Forward.net Forward.trace] in *.
    unfold reported.
    cbn [Forward.cr Forward.cw Forward.net Forward.trace].
    split; [lia|]. split; [lia|]. intros r wr Hin. rewrite Htr in Hin.
    destruct (Hlog r wr Hin). lia.
Qed.

End RelayReports.

(** X29: the log line of [handleSOCKS] never reports more than was transferred:
    in every state a schedule can reach, a total that has been logged is
    not negative and is at most the counter it was read from, which is the
    number of bytes taken from the client, respectively given to the
    target, so far.  (The client's bytes number at most [MaxInt64].) *)
Theorem X_socks_log_never_over_reports (targetAddr : string)
    (targetConn : Go.conn) (sched : list Go.thread) (w : Go.net_state)
    (r wr : Z) :
  Go.len (Go.inbox (Go.client_sock w)) <= Go.MaxInt64 ->
  let s := Forward.run targetAddr targetConn sched (Forward.relay_init w) in
  Go.Log ("SOCKS request to %s transferred %d bytes in and %d bytes out" ++ LF)
         [Go.VStr targetAddr; Go.VInt r; Go.VInt wr] ∈ Forward.trace s ->
  0 <= r <= Go.len (Go.inbox (Go.client_sock w)) -
            Go.len (Go.inbox (Go.client_sock (Forward.net s))) /\
  0 <= wr <= Go.len (Go.outbox (Go.target_sock (Forward.net s))) -
             Go.len (Go.outbox (Go.target_sock w)).
Proof.
  intros Hmax s Hin.
  destruct (forward_run_reported targetAddr targetConn sched w Hmax) as (_ & _ & Hlog).
  destruct (forward_run_metered targetAddr targetConn sched w Hmax) as [Hr Hw].
  fold s in Hlog, Hr, Hw. rewrite <- Hr, <- Hw. by apply Hlog.
Qed.

Lemma X_socks_log_never_over_reports_witness :
  let w := Go.mkNet (Go.mkSocket "abc" None EmptyString false)
                    (Go.mkSocket EmptyString None EmptyString false) in
  let s := Forward.run "10.0.0.1:5555" (Go.mkConn 9 "10.0.0.1:5555")
             [Go.Goroutine; Go.Handler; Go.Handler; Go.Goroutine; Go.Goroutine]
             (Forward.relay_init w) in
  Forward.trace s =
    [Go.Log ("SOCKS request to %s transferred %d bytes in and %d bytes out" ++ LF)
            [Go.VStr "10.0.0.1:5555"; Go.VInt 3; Go.VInt 0]] /\
  0 <= 3 <= 3 - Go.len (Go.inbox (Go.client_sock (Forward.net s))) /\
  0 <= 0 <= Go.len (Go.outbox (Go.target_sock (Forward.net s))) - 0.
Proof.
  intros w s. split; [reflexivity|].
  apply (X_socks_log_never_over_reports "10.0.0.1:5555" (Go.mkConn 9 "10.0.0.1:5555")
           [Go.Goroutine; Go.Handler; Go.Handler; Go.Goroutine; Go.Goroutine] w 3 0).
  - vm_compute. discriminate.
  - vm_compute. left.
Defined.
